(** * slang-face: session and message-delivery layer

    A shallow embedding of the three service singletons of the repository,

    - [TokenService]   (src/services/tokenService.ts),
    - [LiveKitService] (src/services/livekitService.ts),
    - [ChatService]    (src/services/chatService.ts),

    together with the helpers they call ([ErrorHandler], the configuration
    constants), the [LifecycleManager], and the registration of the
    services' handlers with the connection service ([Application]); and
    the properties of the specification stated over them.

    Conventions of the embedding.

    - Every service is a record holding the private fields of the class;
      a method is a function from the record to the new record.
    - The JavaScript runtime is an explicit collaborator: [Env] gathers
      the answers of [fetch], [Math.random], [Date.now], [uuidv4] and of
      the LiveKit [Room]; a [World] counts how many answers were consumed
      and logs every externally visible effect, in program order.
    - An [await] is modelled as running the awaited computation to
      completion before the continuation; a [setTimeout] callback is an
      entry of a pending-timer list that an explicit event fires.
    - A string is held as the UTF-8 bytes of its text.
    - Calls to [logger] have no effect on the state and are omitted. *)

From Stdlib Require Import ZArith List String Ascii Bool Lia.
From Stdlib Require Import Sorting.Sorted Sorting.Permutation DecimalString.
Import ListNotations.

Local Open Scope string_scope.
Local Open Scope Z_scope.

Set Implicit Arguments.

(* ================================================================== *)
(** ** JavaScript values shared by the services                        *)
(* ================================================================== *)

(** [code?: string | number] of [AppError]. *)
Inductive ErrCode : Type :=
| CodeNum (n : Z)
| CodeStr (s : string).

(** [class AppError extends Error] of utils/errorHandler.ts.  The
    [details] payload is never inspected by the services and is left
    out. *)
Record AppError : Type := mkAppError {
  app_message : string;
  app_code : option ErrCode;
  app_userMessage : string
}.

(** What a [throw] or a rejected promise can carry. *)
Inductive Thrown : Type :=
| ThrownApp (e : AppError)                 (* instanceof AppError *)
| ThrownError (name message : string)      (* any other instanceof Error *)
| ThrownValue (repr : string).             (* not an Error; [repr] is String(v) *)

(** [String(n)] for an integer [n]. *)
Definition string_of_Z (z : Z) : string :=
  DecimalString.NilZero.string_of_int (Z.to_int z).

(** [type ConnectionState] of types/api.ts. *)
Inductive ConnectionState : Type :=
| disconnected | connecting | connected | reconnecting | failed.

Definition ConnectionState_eqb (a b : ConnectionState) : bool :=
  match a, b with
  | disconnected, disconnected | connecting, connecting
  | connected, connected | reconnecting, reconnecting
  | failed, failed => true
  | _, _ => false
  end.

(** [type ChatMessage] of types/chat.ts. *)
Record ChatMessage : Type := mkChatMessage {
  id : string;
  senderId : string;
  senderName : option string;
  text : string;
  ts : Z
}.

(** JSON documents, as [JSON.parse] returns them and [JSON.stringify]
    consumes them.  Numbers are the integers: every number the services
    produce is a [Date.now()] reading. *)
#[warnings="-register-all"]
Inductive json : Type :=
| JNull
| JBool (b : bool)
| JNum (z : Z)
| JStr (s : string)
| JArr (items : list json)
| JObj (fields : list (string * json)).

(** The bytes handed to [onDataReceived]: either they decode and parse
    ([JSON.parse] returns), or [JSON.parse] throws. *)
Inductive Payload : Type :=
| Parsed (v : json)
| Unparsable.

(** [type TokenResponse] of types/api.ts.  A missing [token] is the
    empty string: both are falsy. *)
Record TokenResponse : Type := mkTokenResponse {
  token : string;
  url : option string;
  expires_at : option Z
}.

(** A [Response] of the Fetch API: the status, and the outcome of
    [response.json()] ([None] when the body is not a token document). *)
Record Response : Type := mkResponse {
  status : Z;
  statusText : string;
  body : option TokenResponse
}.

(** [response.ok] *)
Definition ok (r : Response) : bool :=
  (200 <=? status r) && (status r <=? 299).

(** How the promise of [fetch] settles. *)
Inductive FetchOutcome : Type :=
| Resolved (r : Response)
| Rejected (e : Thrown).

(** [type TokenRequest] of types/api.ts. *)
Record TokenRequest : Type := mkTokenRequest {
  provider : option string;
  voice_id : option string;
  user_id : option string
}.

(* ================================================================== *)
(** ** The runtime                                                     *)
(* ================================================================== *)

(** Answers of the collaborators.  The [n]-th interaction of a run with
    the outside reads index [n] of the stream it needs. *)
Record Env : Type := mkEnv {
  fetch : nat -> FetchOutcome;        (* fetch(url, options) *)
  random250 : nat -> Z;               (* Math.random() * 250, in ms *)
  Date_now : nat -> Z;                (* Date.now() *)
  uuidv4 : nat -> string;             (* uuidv4() *)
  room_connect : nat -> option Thrown;     (* room.connect: None = resolves *)
  room_disconnect : nat -> option Thrown;  (* room.disconnect *)
  publishData : nat -> option Thrown       (* sendChatMessage raced with its timeout *)
}.

(** Externally visible effects, logged in program order. *)
Inductive Effect : Type :=
| EFetch (userId provider voice : string)
| ESleep (ms : Z)
| ENewRoom
| ERoomConnect (tok : string)
| ERoomDisconnect
| EConnectionStateChanged (s : ConnectionState)
| EAudioStateChanged
| ESendChatMessage (m : ChatMessage) (race : option Z)
| EMessageReceived (m : ChatMessage)
| EMessageSent (m : ChatMessage)
| EMessageDelivered (messageId : string)
| EMessageFailed (messageId : string)
| EChatConnectionChanged (isConnected : bool)
| ETypingIndicator (sender : option json) (typing : option json).

Record World : Type := mkWorld {
  tick : nat;
  trace : list Effect
}.

Definition world0 : World := {| tick := 0; trace := [] |}.

(** Consume one answer of the environment. *)
Definition step (w : World) : World :=
  {| tick := S (tick w); trace := trace w |}.

(** Log one effect. *)
Definition emit (e : Effect) (w : World) : World :=
  {| tick := tick w; trace := trace w ++ [e] |}.

(** [w'] continues the log of [w] with [ext]. *)
Definition extends (w w' : World) (ext : list Effect) : Prop :=
  trace w' = (trace w ++ ext)%list.

(** The outcome of a method that may throw. *)
Inductive Result (A : Type) : Type :=
| Ok (a : A)
| Throw (e : Thrown).
Arguments Ok {A} a.
Arguments Throw {A} e.

(* ================================================================== *)
(** ** config/constants.ts                                             *)
(* ================================================================== *)

Module APP_CONFIG.
Definition MAX_RETRY_ATTEMPTS : Z := 3.
Definition RETRY_BASE_DELAY : Z := 1000.
Definition CONNECTION_TIMEOUT : Z := 10000.
Definition TOKEN_REFRESH_BUFFER : Z := 60000.
End APP_CONFIG.

Module LIVEKIT_CONFIG.
Definition DEFAULT_PROVIDER : string := "elevenlabs".
Definition DEFAULT_VOICE_ID : string := "EXAVITQu4vr4xnSDxMaL".
End LIVEKIT_CONFIG.

(** [CHAT_CONFIG] is imported by chatService.ts from config/constants
    but constants.ts does not declare it; its fields are taken as
    parameters of the chat service. *)
Record ChatConfig : Type := mkChatConfig {
  MAX_RETRY_ATTEMPTS : Z;
  MESSAGE_TIMEOUT : Z;
  RETRY_BASE_DELAY : Z;
  MAX_RETRY_DELAY : Z;
  FAILED_MESSAGE_CLEANUP_DELAY : Z;
  DELIVERY_CONFIRMATION_TIMEOUT : Z;
  DELIVERED_MESSAGE_CLEANUP_DELAY : Z;
  TYPING_INDICATOR_TIMEOUT : Z;
  MAX_HISTORY_SIZE : Z
}.

(* ================================================================== *)
(** ** utils/errorHandler.ts                                           *)
(* ================================================================== *)

Module ErrorHandler.

(** [AppError.getDefaultUserMessage] *)
Definition getDefaultUserMessage (code : option ErrCode) : string :=
  match code with
  | Some (CodeNum 401) | Some (CodeNum 403) =>
      "Authentication failed. Please try again."
  | Some (CodeNum 404) => "The requested resource was not found."
  | Some (CodeNum 500) =>
      "A server error occurred. Please try again later."
  | Some (CodeStr "NETWORK_ERROR") =>
      "Network connection failed. Please check your internet connection."
  | Some (CodeStr "PERMISSION_DENIED") =>
      "Microphone permission is required to join the conversation."
  | Some (CodeStr "CONNECTION_FAILED") =>
      "Failed to connect to the room. Please try again."
  | Some (CodeStr "TOKEN_EXPIRED") =>
      "Your session has expired. Please refresh the page."
  | _ => "An unexpected error occurred. Please try again."
  end.

(** [new AppError(message, code, details, userMessage)] *)
Definition newAppError (message : string) (code : option ErrCode)
           (userMessage : option string) : AppError :=
  {| app_message := message;
     app_code := code;
     app_userMessage :=
       match userMessage with
       | Some "" | None => getDefaultUserMessage code
       | Some u => u
       end |}.

(** [ErrorHandler.handle] *)
Definition handle (error : Thrown) : AppError :=
  match error with
  | ThrownApp e => e
  | ThrownError _ message =>
      newAppError message (Some (CodeStr "UNKNOWN_ERROR"))
        (Some "An unexpected error occurred. Please try again.")
  | ThrownValue _ =>
      newAppError "Unknown error occurred" (Some (CodeStr "UNKNOWN_ERROR"))
        (Some "An unexpected error occurred. Please try again.")
  end.

(** [ErrorHandler.handleApiError] *)
Definition handleApiError (response : Response) : AppError :=
  newAppError
    ("API Error: " ++ string_of_Z (status response) ++ " " ++ statusText response)
    (Some (CodeNum (status response))) None.

(** [ErrorHandler.handleNetworkError] *)
Definition handleNetworkError : AppError :=
  newAppError "Network connection failed" (Some (CodeStr "NETWORK_ERROR"))
    (Some "Network connection failed. Please check your internet connection.").

(** [ErrorHandler.handlePermissionError] *)
Definition handlePermissionError : AppError :=
  newAppError "Permission denied" (Some (CodeStr "PERMISSION_DENIED"))
    (Some "Microphone permission is required to join the conversation.").

End ErrorHandler.

(* ================================================================== *)
(** ** services/tokenService.ts                                        *)
(* ================================================================== *)

Module TokenService.

(** The timer armed by [scheduleTokenRefresh]: its delay and the
    arguments its callback passes to [requestToken]. *)
Record RefreshTimer : Type := mkRefreshTimer {
  refresh_delay : Z;
  refresh_userId : string;
  refresh_options : option TokenRequest
}.

Record t : Type := mk {
  currentToken : option string;
  tokenExpiresAt : option Z;
  refreshTimer : option RefreshTimer
}.

Definition init : t :=
  {| currentToken := None; tokenExpiresAt := None; refreshTimer := None |}.

(** [s.includes(sub)] *)
Definition includes (sub s : string) : bool :=
  match String.index 0 sub s with
  | Some _ => true
  | None => false
  end.

(** The classification made in the [catch] block of [fetchWithRetry]:
    [true] when the loop goes on to wait and retry, [false] when it
    breaks ("For other errors, don't retry"). *)
Definition retryable (error : Thrown) : bool :=
  match error with
  | ThrownApp e => includes "NetworkError" (app_message e)
  | ThrownError name message =>
      if String.eqb name "AbortError" then true
      else includes "NetworkError" message
  | ThrownValue _ => true      (* not instanceof Error: the test is skipped *)
  end.

(** [a || b] on optional strings: the empty string is falsy. *)
Definition or_default (a : option string) (b : string) : string :=
  match a with
  | Some "" | None => b
  | Some s => s
  end.

Definition option_field {A} (o : option TokenRequest)
           (f : TokenRequest -> option A) : option A :=
  match o with
  | Some r => f r
  | None => None
  end.

Section WithEnv.
Variable env : Env.

(** The [for] loop of [fetchWithRetry].  [fuel] bounds the number of
    iterations; [attempt], [delay] and [lastError] are the loop
    variables.  Returns the response, or the [lastError] with which
    the loop was left. *)
Fixpoint fetch_loop (fuel : nat) (userId prov voice : string)
         (attempt delay : Z) (lastError : option Thrown) (w : World)
  : World * (Response + option Thrown) :=
  match fuel with
  | O => (w, inr lastError)
  | S fuel' =>
      if attempt <=? APP_CONFIG.MAX_RETRY_ATTEMPTS then
        let w1 := emit (EFetch userId prov voice) w in
        match fetch env (tick w1) with
        | Resolved response => (step w1, inl response)
        | Rejected error =>
            let w2 := step w1 in
            let lastError :=
              Some match error with
                   | ThrownValue repr => ThrownError "Error" repr
                   | _ => error
                   end in
            if attempt =? APP_CONFIG.MAX_RETRY_ATTEMPTS then
              (w2, inr lastError)
            else if negb (retryable error) then
              (w2, inr lastError)
            else
              let w3 := step (emit (ESleep (delay + random250 env (tick w2))) w2) in
              fetch_loop fuel' userId prov voice (attempt + 1)
                         (Z.min (delay * 2) 8000) lastError w3
        end
      else (w, inr lastError)
  end.

(** [fetchWithRetry(url, options)] *)
Definition fetchWithRetry (userId prov voice : string) (w : World)
  : World * Result Response :=
  match fetch_loop (Z.to_nat APP_CONFIG.MAX_RETRY_ATTEMPTS) userId prov voice
                   1 APP_CONFIG.RETRY_BASE_DELAY None w with
  | (w', inl response) => (w', Ok response)
  | (w', inr _) => (w', Throw (ThrownApp ErrorHandler.handleNetworkError))
  end.

(** [scheduleTokenRefresh(userId, options)] *)
Definition scheduleTokenRefresh (userId : string) (options : option TokenRequest)
           (s : t) (w : World) : t * World :=
  (* clearTimeout(this.refreshTimer) *)
  let s1 := {| currentToken := currentToken s;
               tokenExpiresAt := tokenExpiresAt s;
               refreshTimer := None |} in
  match tokenExpiresAt s1 with
  | None => (s1, w)
  | Some 0 => (s1, w)
  | Some expiresAt =>
      let now := Date_now env (tick w) in
      let refreshTime := expiresAt - APP_CONFIG.TOKEN_REFRESH_BUFFER in
      let delay := Z.max 0 (refreshTime - now) in
      ({| currentToken := currentToken s1;
          tokenExpiresAt := tokenExpiresAt s1;
          refreshTimer := Some (mkRefreshTimer delay userId options) |},
       step w)
  end.

(** [requestToken(userId, options)] *)
Definition requestToken (userId : string) (options : option TokenRequest)
           (s : t) (w : World) : t * World * Result TokenResponse :=
  let prov := or_default (option_field options provider)
                         LIVEKIT_CONFIG.DEFAULT_PROVIDER in
  let voice := or_default (option_field options voice_id)
                          LIVEKIT_CONFIG.DEFAULT_VOICE_ID in
  match fetchWithRetry userId prov voice w with
  | (w1, Throw error) =>
      (s, w1, Throw (ThrownApp (ErrorHandler.handle error)))
  | (w1, Ok response) =>
      if negb (ok response) then
        (s, w1, Throw (ThrownApp (ErrorHandler.handle
                   (ThrownApp (ErrorHandler.handleApiError response)))))
      else
        match body response with
        | None =>
            (* response.json() rejects *)
            (s, w1, Throw (ThrownApp (ErrorHandler.handle
                       (ThrownError "SyntaxError" "Unexpected token"))))
        | Some tokenData =>
            if String.eqb (token tokenData) "" then
              (s, w1, Throw (ThrownApp (ErrorHandler.handle
                 (ThrownApp (ErrorHandler.newAppError "Invalid token response"
                               (Some (CodeStr "INVALID_TOKEN")) None)))))
            else
              let s1 := {| currentToken := Some (token tokenData);
                           tokenExpiresAt := tokenExpiresAt s;
                           refreshTimer := refreshTimer s |} in
              match expires_at tokenData with
              | None | Some 0 => (s1, w1, Ok tokenData)
              | Some e =>
                  let s2 := {| currentToken := currentToken s1;
                               tokenExpiresAt := Some e;
                               refreshTimer := refreshTimer s1 |} in
                  let '(s3, w2) := scheduleTokenRefresh userId options s2 w1 in
                  (s3, w2, Ok tokenData)
              end
        end
  end.

(** [isTokenValid()]; returns the verdict and the world after the
    clock was read (it is not read when the first test fails). *)
Definition isTokenValid (s : t) (w : World) : bool * World :=
  match currentToken s, tokenExpiresAt s with
  | None, _ | Some "", _ => (false, w)
  | _, None | _, Some 0 => (false, w)
  | Some _, Some expiresAt =>
      let now := Date_now env (tick w) in
      (now <? expiresAt - APP_CONFIG.TOKEN_REFRESH_BUFFER, step w)
  end.

(** [getValidToken(userId, options)] *)
Definition getValidToken (userId : string) (options : option TokenRequest)
           (s : t) (w : World) : t * World * Result string :=
  let request w0 :=
    match requestToken userId options s w0 with
    | (s', w', Ok tokenResponse) => (s', w', Ok (token tokenResponse))
    | (s', w', Throw e) => (s', w', Throw e)
    end in
  match currentToken s with
  | None | Some "" => request w
  | Some tok =>
      match isTokenValid s w with
      | (true, w1) => (s, w1, Ok tok)
      | (false, w1) => request w1
      end
  end.

(** [clearToken()] *)
Definition clearToken (s : t) : t :=
  {| currentToken := None; tokenExpiresAt := None; refreshTimer := None |}.

End WithEnv.

(** [getCurrentToken()] *)
Definition getCurrentToken (s : t) : option string := currentToken s.

(** [hasToken()]: [!!this.currentToken] *)
Definition hasToken (s : t) : bool :=
  match currentToken s with
  | None | Some "" => false
  | Some _ => true
  end.

(** *** Reading a log *)

(** The number of [fetch] calls in a log. *)
Fixpoint fetch_count (tr : list Effect) : nat :=
  match tr with
  | [] => O
  | EFetch _ _ _ :: tr' => S (fetch_count tr')
  | _ :: tr' => fetch_count tr'
  end.

(** The waits between attempts, in order. *)
Fixpoint sleeps (tr : list Effect) : list Z :=
  match tr with
  | [] => []
  | ESleep ms :: tr' => ms :: sleeps tr'
  | _ :: tr' => sleeps tr'
  end.

(** The effects the token service can cause. *)
Definition token_effect (e : Effect) : Prop :=
  match e with
  | EFetch _ _ _ | ESleep _ => True
  | _ => False
  end.

(** *** The retry policy in the words of the specification

    "exponential backoff, base 500 ms, factor 2, plus-or-minus 250 ms
    jitter, capped attempts = 5, capped delay 8 s per attempt". *)

Definition spec_max_attempts : nat := 5.

(** The nominal delay before retry number [k] (from 0). *)
Definition spec_backoff (k : nat) : Z := Z.min (500 * 2 ^ Z.of_nat k) 8000.

(** A wait agrees with the specification when it is within the jitter
    of the nominal delay. *)
Definition spec_wait_ok (k : nat) (ms : Z) : Prop :=
  spec_backoff k - 250 <= ms <= spec_backoff k + 250.

(** *** Sample environments *)

Definition AbortError : Thrown := ThrownError "AbortError" "The operation was aborted.".

(** Every request times out; no jitter. *)
Definition env_timeouts : Env :=
  {| fetch := fun _ => Rejected AbortError;
     random250 := fun _ => 0;
     Date_now := fun n => 1700000000000 + Z.of_nat n;
     uuidv4 := fun n => String.append "uuid-" (DecimalString.NilZero.string_of_uint (Nat.to_uint n));
     room_connect := fun _ => None;
     room_disconnect := fun _ => None;
     publishData := fun _ => None |}.

(** The server answers 500 once, then 200 with a token. *)
Definition env_500_then_200 : Env :=
  {| fetch := fun n =>
       match n with
       | O => Resolved {| status := 500; statusText := "Internal Server Error"; body := None |}
       | _ => Resolved {| status := 200; statusText := "OK";
                          body := Some {| token := "jwt"; url := None;
                                          expires_at := None |} |}
       end;
     random250 := fun _ => 0;
     Date_now := fun n => 1700000000000 + Z.of_nat n;
     uuidv4 := fun n => String.append "uuid-" (DecimalString.NilZero.string_of_uint (Nat.to_uint n));
     room_connect := fun _ => None;
     room_disconnect := fun _ => None;
     publishData := fun _ => None |}.

(** The answers of a server that issues a token valid for ten minutes. *)
Definition env_token_with_expiry : Env :=
  {| fetch := fun _ => Resolved {| status := 200; statusText := "OK";
                                   body := Some {| token := "jwt"; url := None;
                                                   expires_at := Some 1700000600000 |} |};
     random250 := fun _ => 0;
     Date_now := fun n => 1700000000000 + Z.of_nat n;
     uuidv4 := uuidv4 env_timeouts;
     room_connect := fun _ => None;
     room_disconnect := fun _ => None;
     publishData := fun _ => None |}.

(** The first request times out; every later one is answered 500. *)
Definition env_timeout_then_500 : Env :=
  {| fetch := fun n =>
       match n with
       | O => Rejected AbortError
       | _ => Resolved {| status := 500; statusText := "Internal Server Error";
                          body := None |}
       end;
     random250 := random250 env_500_then_200;
     Date_now := Date_now env_500_then_200;
     uuidv4 := uuidv4 env_500_then_200;
     room_connect := room_connect env_500_then_200;
     room_disconnect := room_disconnect env_500_then_200;
     publishData := publishData env_500_then_200 |}.

End TokenService.

(* ================================================================== *)
(** ** services/lifecycleManager.ts                                    *)
(* ================================================================== *)

Module LifecycleManager.

(** [interface CleanupFunction].  The closure is known by how a call of
    it ends ([None]: it returns, or its promise resolves); the closures
    registered in the repository do not call back into the manager. *)
Record CleanupFunction : Type := mkCleanup {
  name : string;
  cleanup_outcome : option Thrown;
  priority : Z
}.

(** The fields of the class; [cleanupPromise] is set and reset together
    with [isCleaningUp]. *)
Record t : Type := mk {
  cleanupFunctions : list CleanupFunction;
  isCleaningUp : bool
}.

Fixpoint insert_by_priority (x : CleanupFunction) (l : list CleanupFunction)
  : list CleanupFunction :=
  match l with
  | [] => [x]
  | y :: l' =>
      if priority x <=? priority y then x :: y :: l'
      else y :: insert_by_priority x l'
  end.

(** [.sort((a, b) => a.priority - b.priority)], a stable sort. *)
Fixpoint sort_by_priority (l : list CleanupFunction) : list CleanupFunction :=
  match l with
  | [] => []
  | x :: l' => insert_by_priority x (sort_by_priority l')
  end.

(** [findIndex(fn => fn.name === name)] followed by [splice(index, 1)] *)
Fixpoint remove_first (n : string) (l : list CleanupFunction)
  : list CleanupFunction :=
  match l with
  | [] => []
  | f :: l' => if String.eqb (name f) n then l' else f :: remove_first n l'
  end.

(** [unregister(name)] *)
Definition unregister (n : string) (s : t) : t :=
  {| cleanupFunctions := remove_first n (cleanupFunctions s);
     isCleaningUp := isCleaningUp s |}.

(** [register(name, cleanup, priority)] *)
Definition register (n : string) (c : option Thrown) (p : Z) (s : t) : t :=
  if isCleaningUp s then s
  else
    let s1 := unregister n s in
    {| cleanupFunctions :=
         sort_by_priority (cleanupFunctions s1 ++ [mkCleanup n c p]);
       isCleaningUp := isCleaningUp s1 |}.

(** The default of the [priority] parameter. *)
Definition default_priority : Z := 100.

(** [new LifecycleManager()]: [registerGlobalHandlers] registers the
    removal of the two window listeners. *)
Definition new : t :=
  register "global-handlers" None 1000
           {| cleanupFunctions := []; isCleaningUp := false |}.

(** The loop of [runCleanup] and of [runSyncCleanup]: the names of the
    functions called, in order; an error is caught and counted. *)
Fixpoint run_each (l : list CleanupFunction) : list string * nat :=
  match l with
  | [] => ([], O)
  | f :: l' =>
      let '(ran, errors) := run_each l' in
      (name f :: ran,
       match cleanup_outcome f with Some _ => S errors | None => errors end)
  end.

(** [runCleanup()] *)
Definition runCleanup (s : t) : t * list string :=
  let '(ran, _) := run_each (cleanupFunctions s) in
  ({| cleanupFunctions := []; isCleaningUp := isCleaningUp s |}, ran).

(** [cleanup()] *)
Definition cleanup (s : t) : t * list string :=
  if isCleaningUp s then (s, [])
  else
    let s1 := {| cleanupFunctions := cleanupFunctions s; isCleaningUp := true |} in
    let '(s2, ran) := runCleanup s1 in
    ({| cleanupFunctions := cleanupFunctions s2; isCleaningUp := false |}, ran).

(** [runSyncCleanup()]: the functions are called, the list is kept. *)
Definition runSyncCleanup (s : t) : t * list string :=
  (s, fst (run_each (cleanupFunctions s))).

(** [getCleanupCount()] *)
Definition getCleanupCount (s : t) : nat := List.length (cleanupFunctions s).

(** [getCleanupNames()] *)
Definition getCleanupNames (s : t) : list string := map name (cleanupFunctions s).

(** What a client can ask of the manager. *)
Inductive Request : Type :=
| Register (n : string) (c : option Thrown) (p : Z)
| Unregister (n : string)
| Cleanup
| PageUnload.                 (* the beforeunload listener: runSyncCleanup *)

Definition serve (r : Request) (s : t) : t :=
  match r with
  | Register n c p => register n c p s
  | Unregister n => unregister n s
  | Cleanup => fst (cleanup s)
  | PageUnload => fst (runSyncCleanup s)
  end.

Definition serve_all (rs : list Request) (s : t) : t :=
  fold_left (fun s r => serve r s) rs s.

(** The order of the registry: by priority. *)
Definition before (a b : CleanupFunction) : Prop := priority a <= priority b.

(** The invariant of the registry. *)
Definition registry_ok (s : t) : Prop :=
  NoDup (map name (cleanupFunctions s))
  /\ StronglySorted before (cleanupFunctions s)
  /\ isCleaningUp s = false.

End LifecycleManager.

(* ================================================================== *)
(** ** services/livekitService.ts                                      *)
(* ================================================================== *)

Module LiveKitService.

(** [type AudioState] of types/api.ts ([device] is not modelled;
    [audioLevel] is in thousandths). *)
Record AudioState : Type := mkAudioState {
  isMuted : bool;
  isPublishing : bool;
  hasPermission : bool;
  audioLevel : Z
}.

Definition AudioState_eqb (a b : AudioState) : bool :=
  Bool.eqb (isMuted a) (isMuted b) && Bool.eqb (isPublishing a) (isPublishing b)
  && Bool.eqb (hasPermission a) (hasPermission b) && (audioLevel a =? audioLevel b).

(** The [Room] of livekit-client: an opaque handle. *)
Inductive Room : Type := RoomHandle.

(** The events of [setupRoomEventListeners] that reach the connection
    state. *)
Inductive RoomEvent : Type :=
| Connected | Disconnected | Reconnecting | Reconnected.

Record t : Type := mk {
  room : option Room;
  connectionState : ConnectionState;
  audioState : AudioState;
  audioLevelTimer : bool;         (* an interval is armed *)
  reconnectAttempts : Z;
  maxReconnectAttempts : Z
}.

Definition init : t :=
  {| room := None;
     connectionState := disconnected;
     audioState := {| isMuted := true; isPublishing := false;
                      hasPermission := false; audioLevel := 0 |};
     audioLevelTimer := false;
     reconnectAttempts := 0;
     maxReconnectAttempts := 5 |}.

Definition with_room (r : option Room) (s : t) : t :=
  {| room := r; connectionState := connectionState s;
     audioState := audioState s; audioLevelTimer := audioLevelTimer s;
     reconnectAttempts := reconnectAttempts s;
     maxReconnectAttempts := maxReconnectAttempts s |}.

Definition with_connectionState (c : ConnectionState) (s : t) : t :=
  {| room := room s; connectionState := c;
     audioState := audioState s; audioLevelTimer := audioLevelTimer s;
     reconnectAttempts := reconnectAttempts s;
     maxReconnectAttempts := maxReconnectAttempts s |}.

Definition with_audioState (a : AudioState) (s : t) : t :=
  {| room := room s; connectionState := connectionState s;
     audioState := a; audioLevelTimer := audioLevelTimer s;
     reconnectAttempts := reconnectAttempts s;
     maxReconnectAttempts := maxReconnectAttempts s |}.

Definition with_audioLevelTimer (b : bool) (s : t) : t :=
  {| room := room s; connectionState := connectionState s;
     audioState := audioState s; audioLevelTimer := b;
     reconnectAttempts := reconnectAttempts s;
     maxReconnectAttempts := maxReconnectAttempts s |}.

Definition with_reconnectAttempts (n : Z) (s : t) : t :=
  {| room := room s; connectionState := connectionState s;
     audioState := audioState s; audioLevelTimer := audioLevelTimer s;
     reconnectAttempts := n;
     maxReconnectAttempts := maxReconnectAttempts s |}.

(** [updateConnectionState(state)].  The logged effect is the call
    [this.eventHandlers.onConnectionStateChanged?.(state)]. *)
Definition updateConnectionState (state : ConnectionState) (s : t) (w : World)
  : t * World :=
  if negb (ConnectionState_eqb (connectionState s) state) then
    (with_connectionState state s, emit (EConnectionStateChanged state) w)
  else (s, w).

(** [updateAudioState(newState)], called with all four fields. *)
Definition updateAudioState (newState : AudioState) (s : t) (w : World)
  : t * World :=
  let oldState := audioState s in
  let s1 := with_audioState newState s in
  if negb (AudioState_eqb oldState (audioState s1)) then
    (s1, emit EAudioStateChanged w)
  else (s1, w).

(** [stopAudioLevelMonitoring()] *)
Definition stopAudioLevelMonitoring (s : t) : t :=
  if audioLevelTimer s then with_audioLevelTimer false s else s.

(** The listeners installed by [setupRoomEventListeners]. *)
Definition onRoomEvent (ev : RoomEvent) (s : t) (w : World) : t * World :=
  match ev with
  | Connected => updateConnectionState connected s w
  | Disconnected => updateConnectionState disconnected s w
  | Reconnecting => updateConnectionState reconnecting s w
  | Reconnected =>
      let '(s1, w1) := updateConnectionState connected s w in
      (with_reconnectAttempts 0 s1, w1)
  end.

Section WithEnv.
Variable env : Env.

(** [connect(userId, roomName)]; the token service is the module
    singleton the method reaches through [tokenService]. *)
Definition connect (userId : string) (roomName : option string)
           (tk : TokenService.t) (s : t) (w : World)
  : TokenService.t * t * World * Result unit :=
  let catch error tk0 s0 w0 :=
    let '(s', w') := updateConnectionState failed s0 w0 in
    (tk0, s', w', Throw (ThrownApp (ErrorHandler.handle error))) in
  match TokenService.getValidToken env userId None tk w with
  | (tk1, w1, Throw error) => catch error tk1 s w1
  | (tk1, w1, Ok tok) =>
      let '(s1, w2) :=
        match room s with
        | None => (with_room (Some RoomHandle) s, emit ENewRoom w1)
        | Some _ => (s, w1)
        end in
      let '(s2, w3) := updateConnectionState connecting s1 w2 in
      let w4 := emit (ERoomConnect tok) w3 in
      match room_connect env (tick w4) with
      | Some error => catch error tk1 s2 (step w4)
      | None =>
          let '(s3, w5) := updateConnectionState connected s2 (step w4) in
          (tk1, with_reconnectAttempts 0 s3, w5, Ok tt)
      end
  end.

(** [disconnect()] *)
Definition disconnect (tk : TokenService.t) (s : t) (w : World)
  : TokenService.t * t * World * Result unit :=
  let s1 := stopAudioLevelMonitoring s in
  let finish tk0 s0 w0 :=
    let tk1 := TokenService.clearToken tk0 in
    let '(s2, w1) := updateConnectionState disconnected s0 w0 in
    let '(s3, w2) :=
      updateAudioState {| isMuted := true; isPublishing := false;
                          hasPermission := false; audioLevel := 0 |} s2 w1 in
    (tk1, s3, w2, Ok tt) in
  match room s1 with
  | Some _ =>
      let w1 := emit ERoomDisconnect w in
      match room_disconnect env (tick w1) with
      | Some error =>
          (tk, s1, step w1, Throw (ThrownApp (ErrorHandler.handle error)))
      | None => finish tk (with_room None s1) (step w1)
      end
  | None => finish tk s1 w
  end.

(** The public operations of the service and the events of its room,
    as one alphabet. *)
Inductive Call : Type :=
| CallConnect (userId : string) (roomName : option string)
| CallDisconnect
| CallRoomEvent (ev : RoomEvent).

Definition perform (o : Call) (st : TokenService.t * t * World)
  : TokenService.t * t * World :=
  let '(tk, s, w) := st in
  match o with
  | CallConnect userId roomName =>
      let '(tk', s', w', _) := connect userId roomName tk s w in (tk', s', w')
  | CallDisconnect =>
      let '(tk', s', w', _) := disconnect tk s w in (tk', s', w')
  | CallRoomEvent ev =>
      let '(s', w') := onRoomEvent ev s w in (tk, s', w')
  end.

Definition perform_all (calls : list Call) (st : TokenService.t * t * World)
  : TokenService.t * t * World :=
  fold_left (fun st o => perform o st) calls st.

End WithEnv.

(** The connection states handed to [onConnectionStateChanged], in
    order. *)
Fixpoint notifications (tr : list Effect) : list ConnectionState :=
  match tr with
  | [] => []
  | EConnectionStateChanged c :: tr' => c :: notifications tr'
  | _ :: tr' => notifications tr'
  end.

(** The number of [room.connect] calls in a log. *)
Fixpoint count_room_connect (tr : list Effect) : nat :=
  match tr with
  | [] => O
  | ERoomConnect _ :: tr' => S (count_room_connect tr')
  | _ :: tr' => count_room_connect tr'
  end.

(** No two neighbours of the list are equal. *)
Fixpoint no_repeat (l : list ConnectionState) : Prop :=
  match l with
  | [] => True
  | a :: l' =>
      match l' with
      | [] => True
      | b :: _ => a <> b
      end /\ no_repeat l'
  end.

(** The invariant of the notifications: the log has no repeated
    neighbours and ends with the current state. *)
Definition coherent (c : ConnectionState) (tr : list Effect) : Prop :=
  no_repeat (notifications tr) /\ last (notifications tr) c = c.

(** The last state the log notified is [c]; [disconnected] when it
    notified none. *)
Definition tracks (c : ConnectionState) (tr : list Effect) : Prop :=
  last (notifications tr) disconnected = c.

(** *** Sample environments *)

(** The token endpoint answers 200 with a token and no expiry; the room
    accepts every call. *)
Definition env_ok : Env :=
  {| fetch := fun _ => Resolved {| status := 200; statusText := "OK";
                                   body := Some {| token := "jwt"; url := None;
                                                   expires_at := None |} |};
     random250 := fun _ => 0;
     Date_now := fun n => 1700000000000 + Z.of_nat n;
     uuidv4 := fun n => String.append "uuid-" (DecimalString.NilZero.string_of_uint (Nat.to_uint n));
     room_connect := fun _ => None;
     room_disconnect := fun _ => None;
     publishData := fun _ => None |}.

(** As [env_ok], but [room.disconnect()] rejects. *)
Definition env_disconnect_fails : Env :=
  {| fetch := fetch env_ok;
     random250 := random250 env_ok;
     Date_now := Date_now env_ok;
     uuidv4 := uuidv4 env_ok;
     room_connect := room_connect env_ok;
     room_disconnect := fun _ => Some (ThrownError "Error" "could not close the room");
     publishData := publishData env_ok |}.

End LiveKitService.

(* ================================================================== *)
(** ** JSON.stringify and property access                              *)
(* ================================================================== *)

Module JSON.

Definition dquote : ascii := ascii_of_nat 34.
Definition backslash : ascii := ascii_of_nat 92.

Definition hex_digit (n : nat) : ascii :=
  if (n <? 10)%nat then ascii_of_nat (48 + n) else ascii_of_nat (87 + n).

(** One character of a quoted JSON string (QuoteJSONString). *)
Definition escape (c : ascii) : string :=
  let n := nat_of_ascii c in
  let esc (x : string) := String backslash x in
  if (n =? 34)%nat then esc (String dquote EmptyString)
  else if (n =? 92)%nat then esc (String backslash EmptyString)
  else if (n =? 8)%nat then esc "b"
  else if (n =? 12)%nat then esc "f"
  else if (n =? 10)%nat then esc "n"
  else if (n =? 13)%nat then esc "r"
  else if (n =? 9)%nat then esc "t"
  else if (n <? 32)%nat then
    esc (String "u" (String "0" (String "0"
          (String (hex_digit (n / 16)) (String (hex_digit (n mod 16)) EmptyString)))))
  else String c EmptyString.

Fixpoint escape_all (s : string) : string :=
  match s with
  | EmptyString => EmptyString
  | String c s' => escape c ++ escape_all s'
  end.

Definition quote (s : string) : string :=
  String dquote (escape_all s ++ String dquote EmptyString).

(** [JSON.stringify(v)] *)
Fixpoint stringify (v : json) : string :=
  match v with
  | JNull => "null"
  | JBool true => "true"
  | JBool false => "false"
  | JNum z => string_of_Z z
  | JStr s => quote s
  | JArr items =>
      "[" ++
      (fix elems (l : list json) : string :=
         match l with
         | [] => ""
         | x :: l' =>
             stringify x ++ match l' with [] => "" | _ :: _ => "," ++ elems l' end
         end) items ++ "]"
  | JObj fields =>
      "{" ++
      (fix members (l : list (string * json)) : string :=
         match l with
         | [] => ""
         | (k, x) :: l' =>
             quote k ++ ":" ++ stringify x
               ++ match l' with [] => "" | _ :: _ => "," ++ members l' end
         end) fields ++ "}"
  end.

(** The last binding of [k]: [JSON.parse] keeps the last of two
    members with one name. *)
Fixpoint last_binding (k : string) (fields : list (string * json))
  : option json :=
  match fields with
  | [] => None
  | (k', x) :: rest =>
      match last_binding k rest with
      | Some y => Some y
      | None => if String.eqb k' k then Some x else None
      end
  end.

(** [v.k] for the member names the services read; [None] is
    [undefined].  Reading a member of [null] throws and is handled by
    the caller. *)
Definition get (k : string) (v : json) : option json :=
  match v with
  | JObj fields => last_binding k fields
  | _ => None
  end.

(** Truthiness of [v.k]. *)
Definition truthy (o : option json) : bool :=
  match o with
  | None | Some JNull | Some (JBool false) | Some (JNum 0) | Some (JStr "") => false
  | Some _ => true
  end.

(** [JSON.stringify(message)] for a [ChatMessage], as a document:
    members in the order the object literal lists them, an absent
    [senderName] left out. *)
Definition of_ChatMessage (m : ChatMessage) : json :=
  JObj ([("id", JStr (id m)); ("senderId", JStr (senderId m))]
          ++ match senderName m with
             | Some n => [("senderName", JStr n)]
             | None => []
             end
          ++ [("text", JStr (text m)); ("ts", JNum (ts m))]).

End JSON.

(* ================================================================== *)
(** ** services/livekitService.ts, continued                           *)
(* ================================================================== *)

(** The methods of [LiveKitService] that publish: the data channel and
    the microphone.  How a call into the room settles is an argument of
    the method ([None]: the promise resolves). *)
Module LiveKitServiceIO.
Import LiveKitService.

(** [new AppError('Not connected to room', 'NOT_CONNECTED')] *)
Definition NOT_CONNECTED : AppError :=
  ErrorHandler.newAppError "Not connected to room"
                           (Some (CodeStr "NOT_CONNECTED")) None.

(** [sendChatMessage(message)].  [publish] is the outcome of
    [publishData].  Besides the result, the text handed to
    [publishData], if it was called. *)
Definition sendChatMessage (message : ChatMessage) (publish : option Thrown) (s : t)
  : Result unit * option string :=
  match room s with
  | None => (Throw (ThrownApp (ErrorHandler.handle (ThrownApp NOT_CONNECTED))), None)
  | Some _ =>
      let data := JSON.stringify (JSON.of_ChatMessage message) in
      match publish with
      | None => (Ok tt, Some data)
      | Some error => (Throw (ThrownApp (ErrorHandler.handle error)), Some data)
      end
  end.

(** [startAudioLevelMonitoring(audioTrack)]; the ticks of the interval
    are not modelled. *)
Definition startAudioLevelMonitoring (s : t) : t :=
  with_audioLevelTimer true (stopAudioLevelMonitoring s).

(** The [catch] block of [enableMicrophone]. *)
Definition microphone_error (error : Thrown) : Thrown :=
  match error with
  | ThrownError name _ =>
      if String.eqb name "NotAllowedError"
      then ThrownApp ErrorHandler.handlePermissionError
      else ThrownApp (ErrorHandler.handle error)
  | _ => ThrownApp (ErrorHandler.handle error)
  end.

(** [enableMicrophone()].  [create] and [publish] are the outcomes of
    [createAudioTrack] and [publishTrack]. *)
Definition enableMicrophone (create publish : option Thrown) (s : t) (w : World)
  : t * World * Result unit :=
  match room s with
  | None => (s, w, Throw (microphone_error (ThrownApp NOT_CONNECTED)))
  | Some _ =>
      match create with
      | Some error => (s, w, Throw (microphone_error error))
      | None =>
          match publish with
          | Some error => (s, w, Throw (microphone_error error))
          | None =>
              let '(s1, w1) :=
                updateAudioState {| isMuted := false; isPublishing := true;
                                    hasPermission := true;
                                    audioLevel := audioLevel (audioState s) |} s w in
              (startAudioLevelMonitoring s1, w1, Ok tt)
          end
      end
  end.

(** The loop of [disableMicrophone] over the published audio tracks;
    [unpublish] lists the outcomes of [unpublishTrack], one per track.
    The first rejection leaves the loop. *)
Fixpoint unpublish_each (unpublish : list (option Thrown)) : option Thrown :=
  match unpublish with
  | [] => None
  | Some error :: _ => Some error
  | None :: rest => unpublish_each rest
  end.

(** [disableMicrophone()] *)
Definition disableMicrophone (unpublish : list (option Thrown)) (s : t) (w : World)
  : t * World * Result unit :=
  match room s with
  | None => (s, w, Throw (ThrownApp (ErrorHandler.handle (ThrownApp NOT_CONNECTED))))
  | Some _ =>
      let s1 := stopAudioLevelMonitoring s in
      match unpublish_each unpublish with
      | Some error => (s1, w, Throw (ThrownApp (ErrorHandler.handle error)))
      | None =>
          let '(s2, w1) :=
            updateAudioState {| isMuted := true; isPublishing := false;
                                hasPermission := hasPermission (audioState s1);
                                audioLevel := 0 |} s1 w in
          (s2, w1, Ok tt)
      end
  end.

(** *** The handler slots *)

(** [type LiveKitEventHandlers]: one optional handler per event.  [H]
    stands for the functions. *)
Record LiveKitEventHandlers (H : Type) : Type := mkHandlers {
  onConnectionStateChanged : option H;
  onParticipantConnected : option H;
  onParticipantDisconnected : option H;
  onTrackSubscribed : option H;
  onTrackUnsubscribed : option H;
  onDataReceived : option H;
  onAudioStateChanged : option H;
  onSpeakingChanged : option H;
  onActiveSpeakersChanged : option H;
  onError : option H
}.

(** One member of [{ ...this.eventHandlers, ...handlers }]. *)
Definition spread {H : Type} (current handlers : option H) : option H :=
  match handlers with
  | Some h => Some h
  | None => current
  end.

(** [setEventHandlers(handlers)]: the new value of [this.eventHandlers]. *)
Definition setEventHandlers {H : Type} (handlers current : LiveKitEventHandlers H)
  : LiveKitEventHandlers H :=
  {| onConnectionStateChanged :=
       spread (onConnectionStateChanged current) (onConnectionStateChanged handlers);
     onParticipantConnected :=
       spread (onParticipantConnected current) (onParticipantConnected handlers);
     onParticipantDisconnected :=
       spread (onParticipantDisconnected current) (onParticipantDisconnected handlers);
     onTrackSubscribed := spread (onTrackSubscribed current) (onTrackSubscribed handlers);
     onTrackUnsubscribed :=
       spread (onTrackUnsubscribed current) (onTrackUnsubscribed handlers);
     onDataReceived := spread (onDataReceived current) (onDataReceived handlers);
     onAudioStateChanged :=
       spread (onAudioStateChanged current) (onAudioStateChanged handlers);
     onSpeakingChanged := spread (onSpeakingChanged current) (onSpeakingChanged handlers);
     onActiveSpeakersChanged :=
       spread (onActiveSpeakersChanged current) (onActiveSpeakersChanged handlers);
     onError := spread (onError current) (onError handlers) |}.

(** [private eventHandlers: LiveKitEventHandlers = {}] *)
Definition no_handlers {H : Type} : LiveKitEventHandlers H :=
  mkHandlers None None None None None None None None None None.

(** The services that register handlers with [livekitService]. *)
Inductive Subscriber : Type := ChatServiceHandler | AuthServiceHandler.

(** The object literal of [ChatService.setupLiveKitIntegration]. *)
Definition chat_handlers : LiveKitEventHandlers Subscriber :=
  {| onConnectionStateChanged := Some ChatServiceHandler;
     onParticipantConnected := None;
     onParticipantDisconnected := None;
     onTrackSubscribed := None;
     onTrackUnsubscribed := None;
     onDataReceived := Some ChatServiceHandler;
     onAudioStateChanged := None;
     onSpeakingChanged := None;
     onActiveSpeakersChanged := None;
     onError := Some ChatServiceHandler |}.

(** The object literal of [AuthService.setupLiveKitEventHandlers]. *)
Definition auth_handlers : LiveKitEventHandlers Subscriber :=
  {| onConnectionStateChanged := Some AuthServiceHandler;
     onParticipantConnected := None;
     onParticipantDisconnected := None;
     onTrackSubscribed := None;
     onTrackUnsubscribed := None;
     onDataReceived := Some AuthServiceHandler;
     onAudioStateChanged := Some AuthServiceHandler;
     onSpeakingChanged := None;
     onActiveSpeakersChanged := None;
     onError := Some AuthServiceHandler |}.

(** The handlers installed, slot by slot. *)
Definition slots {H : Type} (e : LiveKitEventHandlers H) : list (option H) :=
  [onConnectionStateChanged e; onParticipantConnected e;
   onParticipantDisconnected e; onTrackSubscribed e; onTrackUnsubscribed e;
   onDataReceived e; onAudioStateChanged e; onSpeakingChanged e;
   onActiveSpeakersChanged e; onError e].

End LiveKitServiceIO.

(* ================================================================== *)
(** ** services/chatService.ts                                         *)
(* ================================================================== *)

Module ChatService.

Inductive MessageStatus : Type := pending | sent | delivered | failed.

Inductive Priority : Type := low | normal | high.

(** [type SendMessageOptions] of types/chat.ts. *)
Record SendMessageOptions : Type := mkOptions {
  retry : option bool;
  timeout : option Z;
  priority : option Priority
}.

Definition no_options : SendMessageOptions :=
  {| retry := None; timeout := None; priority := None |}.

Record QueuedMessage : Type := mkQueued {
  message : ChatMessage;
  status : MessageStatus;
  attempts : Z;
  timestamp : Z;
  options : SendMessageOptions
}.

(** What a [setTimeout] callback of the service does when it runs. *)
Inductive TimerAction : Type :=
| RetryQueue (messageId : string)       (* sendQueuedMessage, retry branch *)
| DeleteFromQueue (messageId : string)  (* the three cleanup callbacks *)
| DeliveryTimeout (messageId : string)  (* scheduleDeliveryTimeout *)
| TypingAutoClear.                      (* sendTypingIndicator(true) *)

Record Timer : Type := mkTimer {
  handle : nat;
  delay : Z;
  action : TimerAction
}.

(** The private fields of the class.  [retryTimer] is never assigned
    and stays [null]; it is left out. *)
Record t : Type := mk {
  messageQueue : list (string * QueuedMessage);   (* Map, in insertion order *)
  messageHistory : list ChatMessage;
  isConnected : bool;
  currentUserId : option string;
  typingTimer : option nat;
  isTyping : bool;
  timers : list Timer;                            (* pending setTimeout callbacks *)
  nextHandle : nat
}.

Definition init : t :=
  {| messageQueue := []; messageHistory := []; isConnected := false;
     currentUserId := None; typingTimer := None; isTyping := false;
     timers := []; nextHandle := O |}.

Definition with_messageQueue q (s : t) : t :=
  {| messageQueue := q; messageHistory := messageHistory s;
     isConnected := isConnected s; currentUserId := currentUserId s;
     typingTimer := typingTimer s; isTyping := isTyping s;
     timers := timers s; nextHandle := nextHandle s |}.

Definition with_messageHistory h (s : t) : t :=
  {| messageQueue := messageQueue s; messageHistory := h;
     isConnected := isConnected s; currentUserId := currentUserId s;
     typingTimer := typingTimer s; isTyping := isTyping s;
     timers := timers s; nextHandle := nextHandle s |}.

Definition with_isConnected b (s : t) : t :=
  {| messageQueue := messageQueue s; messageHistory := messageHistory s;
     isConnected := b; currentUserId := currentUserId s;
     typingTimer := typingTimer s; isTyping := isTyping s;
     timers := timers s; nextHandle := nextHandle s |}.

Definition with_currentUserId u (s : t) : t :=
  {| messageQueue := messageQueue s; messageHistory := messageHistory s;
     isConnected := isConnected s; currentUserId := u;
     typingTimer := typingTimer s; isTyping := isTyping s;
     timers := timers s; nextHandle := nextHandle s |}.

Definition with_typingTimer h (s : t) : t :=
  {| messageQueue := messageQueue s; messageHistory := messageHistory s;
     isConnected := isConnected s; currentUserId := currentUserId s;
     typingTimer := h; isTyping := isTyping s;
     timers := timers s; nextHandle := nextHandle s |}.

Definition with_isTyping b (s : t) : t :=
  {| messageQueue := messageQueue s; messageHistory := messageHistory s;
     isConnected := isConnected s; currentUserId := currentUserId s;
     typingTimer := typingTimer s; isTyping := b;
     timers := timers s; nextHandle := nextHandle s |}.

Definition with_timers l (s : t) : t :=
  {| messageQueue := messageQueue s; messageHistory := messageHistory s;
     isConnected := isConnected s; currentUserId := currentUserId s;
     typingTimer := typingTimer s; isTyping := isTyping s;
     timers := l; nextHandle := nextHandle s |}.

(** *** The [Map] of queued messages *)

(** [map.get(k)] *)
Fixpoint Map_get (k : string) (m : list (string * QueuedMessage))
  : option QueuedMessage :=
  match m with
  | [] => None
  | (k', v) :: m' => if String.eqb k' k then Some v else Map_get k m'
  end.

(** [map.has(k)] *)
Definition Map_has (k : string) (m : list (string * QueuedMessage)) : bool :=
  match Map_get k m with Some _ => true | None => false end.

(** [map.set(k, v)]: an existing key keeps its place. *)
Fixpoint Map_set (k : string) (v : QueuedMessage)
         (m : list (string * QueuedMessage)) : list (string * QueuedMessage) :=
  match m with
  | [] => [(k, v)]
  | (k', v') :: m' =>
      if String.eqb k' k then (k, v) :: m' else (k', v') :: Map_set k v m'
  end.

(** [map.delete(k)] *)
Fixpoint Map_delete (k : string) (m : list (string * QueuedMessage))
  : list (string * QueuedMessage) :=
  match m with
  | [] => []
  | (k', v') :: m' =>
      if String.eqb k' k then m' else (k', v') :: Map_delete k m'
  end.

(** [Array.from(map.values())] *)
Definition Map_values (m : list (string * QueuedMessage)) : list QueuedMessage :=
  map snd m.

(** A write through the reference to a queued message: the object the
    map holds under [k] is changed in place. *)
Fixpoint Map_modify (k : string) (f : QueuedMessage -> QueuedMessage)
         (m : list (string * QueuedMessage)) : list (string * QueuedMessage) :=
  match m with
  | [] => []
  | (k', v') :: m' =>
      if String.eqb k' k then (k', f v') :: m' else (k', v') :: Map_modify k f m'
  end.

Definition set_status (st : MessageStatus) (qm : QueuedMessage) : QueuedMessage :=
  {| message := message qm; status := st; attempts := attempts qm;
     timestamp := timestamp qm; options := options qm |}.

Definition set_attempts (n : Z) (qm : QueuedMessage) : QueuedMessage :=
  {| message := message qm; status := status qm; attempts := n;
     timestamp := timestamp qm; options := options qm |}.

(** *** Sorting the pending messages *)

(** [qm.status === 'pending' || qm.status === 'failed'] *)
Definition awaiting (qm : QueuedMessage) : bool :=
  match status qm with
  | pending | failed => true
  | sent | delivered => false
  end.

Fixpoint insert_by_timestamp (x : QueuedMessage) (l : list QueuedMessage)
  : list QueuedMessage :=
  match l with
  | [] => [x]
  | y :: l' =>
      if timestamp x <=? timestamp y then x :: y :: l'
      else y :: insert_by_timestamp x l'
  end.

(** [.sort((a, b) => a.timestamp - b.timestamp)].  [Array.prototype.sort]
    is stable; the result is therefore the one stable arrangement by
    timestamp, computed here by insertion from the right. *)
Fixpoint sort_by_timestamp (l : list QueuedMessage) : list QueuedMessage :=
  match l with
  | [] => []
  | x :: l' => insert_by_timestamp x (sort_by_timestamp l')
  end.

(** *** Strings *)

(** Strings are held as the UTF-8 bytes of the text.  The white space
    of [String.prototype.trim] is WhiteSpace and LineTerminator of
    ECMAScript: TAB, LF, VT, FF, CR and SP in one byte; U+00A0 in two;
    U+1680, U+2000 to U+200A, U+2028, U+2029, U+202F, U+205F, U+3000
    and U+FEFF in three. *)
Definition is_space (c : ascii) : bool :=
  let n := nat_of_ascii c in
  ((9 <=? n) && (n <=? 13))%nat || (n =? 32)%nat.

Definition is_space2 (c1 c2 : ascii) : bool :=
  ((nat_of_ascii c1 =? 194) && (nat_of_ascii c2 =? 160))%nat.

Definition is_space3 (c1 c2 c3 : ascii) : bool :=
  let n1 := nat_of_ascii c1 in
  let n2 := nat_of_ascii c2 in
  let n3 := nat_of_ascii c3 in
  ((n1 =? 225) && (n2 =? 154) && (n3 =? 128)
   || (n1 =? 226) && (n2 =? 128)
      && ((128 <=? n3) && (n3 <=? 138) || (n3 =? 168) || (n3 =? 169) || (n3 =? 175))
   || (n1 =? 226) && (n2 =? 129) && (n3 =? 159)
   || (n1 =? 227) && (n2 =? 128) && (n3 =? 128)
   || (n1 =? 239) && (n2 =? 187) && (n3 =? 191))%nat.

(** [s.trimStart()] *)
Fixpoint trim_start (s : string) : string :=
  match s with
  | EmptyString => EmptyString
  | String c1 s1 =>
      if is_space c1 then trim_start s1
      else
        match s1 with
        | EmptyString => s
        | String c2 s2 =>
            if is_space2 c1 c2 then trim_start s2
            else
              match s2 with
              | EmptyString => s
              | String c3 s3 => if is_space3 c1 c2 c3 then trim_start s3 else s
              end
        end
  end.

(** Nothing but white space. *)
Definition blank (s : string) : bool :=
  match trim_start s with
  | EmptyString => true
  | String _ _ => false
  end.

(** [s.trimEnd()]: what follows the last character that is not white
    space is dropped. *)
Fixpoint trim_end (s : string) : string :=
  match s with
  | EmptyString => EmptyString
  | String c s' => if blank s then EmptyString else String c (trim_end s')
  end.

(** [text.trim()] *)
Definition trim (s : string) : string := trim_end (trim_start s).

(** [this.currentUserId || 'unknown'] *)
Definition user_or_unknown (u : option string) : string :=
  match u with
  | None | Some "" => "unknown"
  | Some s => s
  end.

(** [v !== this.currentUserId] is [negb (same_user v u)]. *)
Definition same_user (v : option json) (u : option string) : bool :=
  match v, u with
  | Some (JStr a), Some b => String.eqb a b
  | Some JNull, None => true
  | _, _ => false
  end.

(** *** Timers *)

(** [setTimeout(callback, delay)]; returns the handle. *)
Definition setTimeout (a : TimerAction) (d : Z) (s : t) : t * nat :=
  let h := nextHandle s in
  ({| messageQueue := messageQueue s; messageHistory := messageHistory s;
      isConnected := isConnected s; currentUserId := currentUserId s;
      typingTimer := typingTimer s; isTyping := isTyping s;
      timers := timers s ++ [mkTimer h d a]; nextHandle := S h |}, h).

(** [clearTimeout(handle)] *)
Definition clearTimeout (h : nat) (s : t) : t :=
  with_timers (filter (fun tm => negb (Nat.eqb (handle tm) h)) (timers s)) s.

Definition find_timer (h : nat) (s : t) : option Timer :=
  find (fun tm => Nat.eqb (handle tm) h) (timers s).

(** *** Inbound validation *)

Definition nonempty_string (o : option json) : bool :=
  match o with
  | Some (JStr s) => negb (String.eqb s "")
  | _ => false
  end.

(** [isValidChatMessage(message)].  [typeof message === 'object'] holds
    of objects and arrays; [null] never reaches the test. *)
Definition isValidChatMessage (v : json) : bool :=
  match v with
  | JObj _ | JArr _ =>
      nonempty_string (JSON.get "id" v)
      && nonempty_string (JSON.get "senderId" v)
      && nonempty_string (JSON.get "text" v)
      && match JSON.get "ts" v with
         | Some (JNum n) => n >? 0
         | _ => false
         end
  | _ => false
  end.

Definition string_member (k : string) (v : json) : string :=
  match JSON.get k v with
  | Some (JStr s) => s
  | _ => ""
  end.

(** [parsed as ChatMessage], read through the members of the type. *)
Definition as_ChatMessage (v : json) : ChatMessage :=
  {| id := string_member "id" v;
     senderId := string_member "senderId" v;
     senderName := match JSON.get "senderName" v with
                   | Some (JStr s) => Some s
                   | _ => None
                   end;
     text := string_member "text" v;
     ts := match JSON.get "ts" v with Some (JNum n) => n | _ => 0 end |}.

(** The two control documents the service builds. *)
Definition DeliveryReceipt (messageId : string) (now : Z) : json :=
  JObj [("type", JStr "delivery_receipt"); ("messageId", JStr messageId);
        ("timestamp", JNum now)].

Definition TypingIndicator (sender : string) (typing : bool) (now : Z) : json :=
  JObj [("type", JStr "typing_indicator"); ("senderId", JStr sender);
        ("isTyping", JBool typing); ("timestamp", JNum now)].

Section WithEnv.
Variable env : Env.
Variable CHAT_CONFIG : ChatConfig.

(** [livekitService.sendChatMessage(message)] as the chat service
    sees it: the call, and how its promise settles.  [race] is the
    delay of the timeout it is raced against, if any. *)
Definition sendChatMessage (m : ChatMessage) (race : option Z) (w : World)
  : World * option Thrown :=
  let w1 := emit (ESendChatMessage m race) w in
  (step w1, publishData env (tick w1)).

(** [addToHistory(message)] *)
Definition addToHistory (m : ChatMessage) (s : t) : t :=
  let exists_ :=
    existsb (fun msg => String.eqb (id msg) (id m)) (messageHistory s) in
  if exists_ then s
  else
    let h := (messageHistory s ++ [m])%list in
    if Z.of_nat (List.length h) >? MAX_HISTORY_SIZE CHAT_CONFIG then
      with_messageHistory
        (skipn (Z.to_nat (Z.of_nat (List.length h) - MAX_HISTORY_SIZE CHAT_CONFIG)) h) s
    else with_messageHistory h s.

(** [scheduleDeliveryTimeout(messageId)] *)
Definition scheduleDeliveryTimeout (messageId : string) (s : t) : t :=
  fst (setTimeout (DeliveryTimeout messageId)
                  (DELIVERY_CONFIRMATION_TIMEOUT CHAT_CONFIG) s).

(** [sendQueuedMessage(queuedMessage)].  [queuedMessage] is the
    object the map holds under its message id; the writes to it go
    through [Map_modify]. *)
Definition sendQueuedMessage (queuedMessage : QueuedMessage) (s : t) (w : World)
  : t * World * Result unit :=
  let message := message queuedMessage in
  let maxAttempts := MAX_RETRY_ATTEMPTS CHAT_CONFIG in
  let timeout :=
    match timeout (options queuedMessage) with
    | None | Some 0 => MESSAGE_TIMEOUT CHAT_CONFIG
    | Some ms => ms
    end in
  let write f s0 :=
    with_messageQueue (Map_modify (id message) f (messageQueue s0)) s0 in
  let attempts' := attempts queuedMessage + 1 in
  let s1 := write (set_attempts attempts') s in
  match sendChatMessage message (Some timeout) w with
  | (w1, None) =>
      let s2 := write (set_status sent) s1 in
      let s3 := addToHistory message s2 in
      let w2 := emit (EMessageSent message) w1 in
      (scheduleDeliveryTimeout (id message) s3, w2, Ok tt)
  | (w1, Some error) =>
      if attempts' >=? maxAttempts then
        let s2 := write (set_status failed) s1 in
        let w2 := emit (EMessageFailed (id message)) w1 in
        let s3 := fst (setTimeout (DeleteFromQueue (id message))
                                  (FAILED_MESSAGE_CLEANUP_DELAY CHAT_CONFIG) s2) in
        (s3, w2, Throw error)
      else
        let s2 := write (set_status failed) s1 in
        let retryDelay :=
          Z.min (RETRY_BASE_DELAY CHAT_CONFIG * 2 ^ (attempts' - 1))
                (MAX_RETRY_DELAY CHAT_CONFIG) in
        let s3 := fst (setTimeout (RetryQueue (id message)) retryDelay s2) in
        (s3, w1, Throw error)
  end.

(** The messages a pass of [processMessageQueue] works through. *)
Definition pendingMessages (s : t) : list QueuedMessage :=
  sort_by_timestamp (filter awaiting (Map_values (messageQueue s))).

(** The [for ... of] loop of [processMessageQueue]; an error of
    [sendQueuedMessage] is caught and logged. *)
Fixpoint process_each (l : list QueuedMessage) (s : t) (w : World) : t * World :=
  match l with
  | [] => (s, w)
  | queuedMessage :: rest =>
      let '(s1, w1, _) := sendQueuedMessage queuedMessage s w in
      process_each rest s1 w1
  end.

(** [processMessageQueue()] *)
Definition processMessageQueue (s : t) (w : World) : t * World :=
  if negb (isConnected s) then (s, w)
  else process_each (pendingMessages s) s w.

(** The statements of [sendMessage] before [await
    this.processMessageQueue()]: the message and its queue entry. *)
Definition enqueue (text : string) (opts : SendMessageOptions) (s : t) (w : World)
  : t * World * string :=
  let messageId := uuidv4 env (tick w) in
  let w1 := step w in
  let message := {| id := messageId;
                    senderId := user_or_unknown (currentUserId s);
                    senderName := None;
                    text := trim text;
                    ts := Date_now env (tick w1) |} in
  let w2 := step w1 in
  let queuedMessage := {| message := message; status := pending; attempts := 0;
                          timestamp := Date_now env (tick w2);
                          options := opts |} in
  let w3 := step w2 in
  (with_messageQueue (Map_set messageId queuedMessage (messageQueue s)) s,
   w3, messageId).

(** [sendMessage(text, options)]: the value is the one the returned
    promise resolves with, the state and the log are those at that
    moment. *)
Definition sendMessage (text : string) (opts : SendMessageOptions) (s : t) (w : World)
  : t * World * string :=
  let '(s1, w1, messageId) := enqueue text opts s w in
  let '(s2, w2) := processMessageQueue s1 w1 in
  (s2, w2, messageId).

(** A control or receipt message is wrapped and handed to
    [livekitService.sendChatMessage]. *)
Definition send_wrapped (document : Z -> json) (s : t) (w : World)
  : World * option Thrown :=
  let body := document (Date_now env (tick w)) in
  let w1 := step w in
  let messageId := uuidv4 env (tick w1) in
  let w2 := step w1 in
  let now := Date_now env (tick w2) in
  let w3 := step w2 in
  sendChatMessage {| id := messageId;
                     senderId := user_or_unknown (currentUserId s);
                     senderName := None;
                     text := JSON.stringify body;
                     ts := now |} None w3.

(** [sendDeliveryReceipt(messageId)]; a failure is caught and logged. *)
Definition sendDeliveryReceipt (messageId : string) (s : t) (w : World) : World :=
  fst (send_wrapped (DeliveryReceipt messageId) s w).

(** [sendTypingIndicator(isTyping)] *)
Definition sendTypingIndicator (typing : bool) (s : t) (w : World) : t * World :=
  if Bool.eqb (isTyping s) typing then (s, w)
  else
    let s1 := with_isTyping typing s in
    match send_wrapped
            (TypingIndicator (user_or_unknown (currentUserId s1)) typing) s1 w with
    | (w1, Some _) => (s1, w1)
    | (w1, None) =>
        if typing then
          let s2 := match typingTimer s1 with
                    | Some h => clearTimeout h s1
                    | None => s1
                    end in
          let '(s3, h) := setTimeout TypingAutoClear
                                     (TYPING_INDICATOR_TIMEOUT CHAT_CONFIG) s2 in
          (with_typingTimer (Some h) s3, w1)
        else (s1, w1)
    end.

(** The callback that deletes a queue entry. *)
Definition deleteFromQueue (messageId : string) (s : t) : t :=
  with_messageQueue (Map_delete messageId (messageQueue s)) s.

(** Promotion of a sent message to [delivered], shared by
    [handleDeliveryReceipt] and the callback of
    [scheduleDeliveryTimeout]. *)
Definition markDelivered (messageId : string) (s : t) (w : World) : t * World :=
  match Map_get messageId (messageQueue s) with
  | Some queuedMessage =>
      match status queuedMessage with
      | sent =>
          let s1 := with_messageQueue
                      (Map_modify messageId (set_status delivered) (messageQueue s)) s in
          let w1 := emit (EMessageDelivered messageId) w in
          (fst (setTimeout (DeleteFromQueue messageId)
                           (DELIVERED_MESSAGE_CLEANUP_DELAY CHAT_CONFIG) s1), w1)
      | _ => (s, w)
      end
  | None => (s, w)
  end.

(** [handleDeliveryReceipt(receipt)]: a [messageId] that is not a
    string is no key of the map. *)
Definition handleDeliveryReceipt (receipt : json) (s : t) (w : World) : t * World :=
  match JSON.get "messageId" receipt with
  | Some (JStr messageId) => markDelivered messageId s w
  | _ => (s, w)
  end.

(** [handleTypingIndicator(indicator)] *)
Definition handleTypingIndicator (indicator : json) (s : t) (w : World) : t * World :=
  if negb (same_user (JSON.get "senderId" indicator) (currentUserId s)) then
    (s, emit (ETypingIndicator (JSON.get "senderId" indicator)
                               (JSON.get "isTyping" indicator)) w)
  else (s, w).

(** [handleSystemMessage(systemMessage)] *)
Definition handleSystemMessage (systemMessage : json) (s : t) (w : World) : t * World :=
  match JSON.get "type" systemMessage with
  | Some (JStr type) =>
      if String.eqb type "delivery_receipt" then
        handleDeliveryReceipt systemMessage s w
      else if String.eqb type "typing_indicator" then
        handleTypingIndicator systemMessage s w
      else (s, w)                        (* default: unknown type, logged *)
  | _ => (s, w)
  end.

(** [handleIncomingData(data)] *)
Definition handleIncomingData (data : Payload) (s : t) (w : World) : t * World :=
  match data with
  | Unparsable => (s, w)                 (* JSON.parse throws *)
  | Parsed JNull => (s, w)               (* parsed.type throws *)
  | Parsed parsed =>
      if JSON.truthy (JSON.get "type" parsed) then
        handleSystemMessage parsed s w
      else if negb (isValidChatMessage parsed) then (s, w)
      else
        let message := as_ChatMessage parsed in
        let w1 :=
          if negb (same_user (JSON.get "senderId" parsed) (currentUserId s))
          then sendDeliveryReceipt (id message) s w
          else w in
        let s1 := addToHistory message s in
        (s1, emit (EMessageReceived message) w1)
  end.

(** The [onConnectionStateChanged] handler installed by
    [setupLiveKitIntegration].  The pass it starts is run to its end
    here; the notification that follows does not depend on it. *)
Definition onConnectionStateChanged (state : ConnectionState) (s : t) (w : World)
  : t * World :=
  let wasConnected := isConnected s in
  let s1 := with_isConnected (ConnectionState_eqb state connected) s in
  let '(s2, w1) :=
    if isConnected s1 && negb wasConnected then processMessageQueue s1 w
    else (s1, w) in
  (s2, emit (EChatConnectionChanged (isConnected s2)) w1).

(** A pending [setTimeout] callback runs. *)
Definition fireTimer (h : nat) (s : t) (w : World) : t * World :=
  match find_timer h s with
  | None => (s, w)
  | Some tm =>
      let s1 := clearTimeout h s in
      match action tm with
      | RetryQueue messageId =>
          if Map_has messageId (messageQueue s1) then processMessageQueue s1 w
          else (s1, w)
      | DeleteFromQueue messageId => (deleteFromQueue messageId s1, w)
      | DeliveryTimeout messageId => markDelivered messageId s1 w
      | TypingAutoClear => sendTypingIndicator false s1 w
      end
  end.

(** [cleanup()] *)
Definition cleanup (s : t) : t :=
  let s1 := match typingTimer s with
            | Some h => with_typingTimer None (clearTimeout h s)
            | None => s
            end in
  with_isTyping false
    (with_currentUserId None
       (with_isConnected false (with_messageQueue [] s1))).

(** Everything that can happen to the service. *)
Inductive Op : Type :=
| OpInitialize (userId : string)
| OpSendMessage (text : string) (opts : SendMessageOptions)
| OpSendTypingIndicator (typing : bool)
| OpConnectionState (state : ConnectionState)
| OpDataReceived (data : Payload)
| OpTimer (h : nat)
| OpClearHistory
| OpClearQueue
| OpCleanup.

Definition run_op (o : Op) (st : t * World) : t * World :=
  let '(s, w) := st in
  match o with
  | OpInitialize userId => (with_currentUserId (Some userId) s, w)
  | OpSendMessage text opts =>
      let '(s', w', _) := sendMessage text opts s w in (s', w')
  | OpSendTypingIndicator typing => sendTypingIndicator typing s w
  | OpConnectionState state => onConnectionStateChanged state s w
  | OpDataReceived data => handleIncomingData data s w
  | OpTimer h => fireTimer h s w
  | OpClearHistory => (with_messageHistory [] s, w)
  | OpClearQueue => (with_messageQueue [] s, w)
  | OpCleanup => (cleanup s, w)
  end.

Definition run (ops : list Op) (st : t * World) : t * World :=
  fold_left (fun st o => run_op o st) ops st.

End WithEnv.

(** *** Reading a log *)

(** The messages handed to [livekitService.sendChatMessage] by delivery
    attempts (the calls raced against a timeout), in order. *)
Fixpoint delivery_attempts (tr : list Effect) : list ChatMessage :=
  match tr with
  | [] => []
  | ESendChatMessage m (Some _) :: tr' => m :: delivery_attempts tr'
  | _ :: tr' => delivery_attempts tr'
  end.

(** The messages surfaced through [onMessageReceived]. *)
Fixpoint surfaced (tr : list Effect) : list ChatMessage :=
  match tr with
  | [] => []
  | EMessageReceived m :: tr' => m :: surfaced tr'
  | _ :: tr' => surfaced tr'
  end.

(** The message ids reported through [onMessageFailed]. *)
Fixpoint failures (tr : list Effect) : list string :=
  match tr with
  | [] => []
  | EMessageFailed k :: tr' => k :: failures tr'
  | _ :: tr' => failures tr'
  end.

(** Every message handed to [livekitService.sendChatMessage]. *)
Fixpoint published (tr : list Effect) : list ChatMessage :=
  match tr with
  | [] => []
  | ESendChatMessage m _ :: tr' => m :: published tr'
  | _ :: tr' => published tr'
  end.

(** How many entries of a history carry the id [k]. *)
Definition count_id (k : string) (h : list ChatMessage) : nat :=
  List.length (filter (fun m => String.eqb (id m) k) h).

(** *** Queries *)

(** [getMessageById(messageId)] *)
Definition getMessageById (messageId : string) (s : t) : option ChatMessage :=
  find (fun msg => String.eqb (id msg) messageId) (messageHistory s).

(** [getMessagesBySender(senderId)] *)
Definition getMessagesBySender (sender : string) (s : t) : list ChatMessage :=
  filter (fun msg => String.eqb (senderId msg) sender) (messageHistory s).

(** [getMessageStatus(messageId)] *)
Definition getMessageStatus (messageId : string) (s : t) : option MessageStatus :=
  option_map status (Map_get messageId (messageQueue s)).

(** [getPendingMessageCount()] *)
Definition getPendingMessageCount (s : t) : nat :=
  List.length (filter awaiting (Map_values (messageQueue s))).

(** [type ChatState] of types/chat.ts, as [getChatState] fills it. *)
Record ChatState : Type := mkChatState {
  messages : list ChatMessage;
  state_isConnected : bool;
  state_isTyping : bool;
  lastMessageId : option string
}.

(** [getChatState()] *)
Definition getChatState (s : t) : ChatState :=
  {| messages := messageHistory s;
     state_isConnected := isConnected s;
     state_isTyping := isTyping s;
     lastMessageId :=
       match messageHistory s with
       | [] => None
       | m :: rest => Some (id (last rest m))
       end |}.

(** [clearHistory()] *)
Definition clearHistory (s : t) : t := with_messageHistory [] s.

(** [clearQueue()] *)
Definition clearQueue (s : t) : t := with_messageQueue [] s.

(** [initialize(userId)] *)
Definition initialize (userId : string) (s : t) : t :=
  with_currentUserId (Some userId) s.

(** *** Invariants and orders *)

(** The keys of the queue are pairwise distinct, and each entry sits
    under the id of its message. *)
Definition keys_ok (s : t) : Prop :=
  NoDup (map fst (messageQueue s))
  /\ Forall (fun p => id (message (snd p)) = fst p) (messageQueue s).

(** The handles of the pending timers are pairwise distinct and were
    all handed out already. *)
Definition timers_ok (s : t) : Prop :=
  NoDup (map handle (timers s))
  /\ Forall (fun tm => (handle tm < nextHandle s)%nat) (timers s).

(** The only auto-clear timer that can be pending is the one
    [typingTimer] names. *)
Definition typing_ok (s : t) : Prop :=
  Forall (fun tm => action tm = TypingAutoClear -> typingTimer s = Some (handle tm))
         (timers s).

(** The history holds at most [MAX_HISTORY_SIZE] messages. *)
Definition bounded (cfg : ChatConfig) (s : t) : Prop :=
  Z.of_nat (List.length (messageHistory s)) <= Z.max 0 (MAX_HISTORY_SIZE cfg).

(** The pending auto-clear timers. *)
Definition typing_timers (s : t) : list Timer :=
  filter (fun tm => match action tm with TypingAutoClear => true | _ => false end)
         (timers s).

(** The handler of [setupLiveKitIntegration] fed with a sequence of
    notifications of the connection service. *)
Definition notify_all (env : Env) (cfg : ChatConfig) (states : list ConnectionState)
           (st : t * World) : t * World :=
  fold_left (fun st state => onConnectionStateChanged env cfg state (fst st) (snd st))
            states st.


(** The order of the queue processor: by enqueue time. *)
Definition earlier (a b : QueuedMessage) : Prop := timestamp a <= timestamp b.

(** The invariant of the data model: the ids of the history are
    pairwise distinct. *)
Definition hist_ok (s : t) : Prop := NoDup (map id (messageHistory s)).

(** Everything the chat service keeps true of its state. *)
Definition sound (cfg : ChatConfig) (s : t) : Prop :=
  keys_ok s /\ timers_ok s /\ typing_ok s /\ bounded cfg s /\ hist_ok s.

(** The queue holds, under [k], a pending entry for the message [k]. *)
Definition queued_pending (k : string) (s : t) : Prop :=
  exists qm, Map_get k (messageQueue s) = Some qm
             /\ status qm = pending /\ id (message qm) = k.

(** A caller that sends several messages, one after the other; the ids
    it was given, in order. *)
Fixpoint send_all (env : Env) (cfg : ChatConfig)
         (sends : list (string * SendMessageOptions)) (s : t) (w : World)
  : t * World * list string :=
  match sends with
  | [] => (s, w, [])
  | (text, opts) :: rest =>
      let '(s1, w1, k) := sendMessage env cfg text opts s w in
      let '(s2, w2, ks) := send_all env cfg rest s1 w1 in
      (s2, w2, k :: ks)
  end.

(** *** Sample configuration, environments and payloads *)

(** A configuration with [MAX_RETRY_ATTEMPTS] = 3. *)
Definition cfg3 : ChatConfig :=
  {| MAX_RETRY_ATTEMPTS := 3;
     MESSAGE_TIMEOUT := 5000;
     RETRY_BASE_DELAY := 1000;
     MAX_RETRY_DELAY := 10000;
     FAILED_MESSAGE_CLEANUP_DELAY := 30000;
     DELIVERY_CONFIRMATION_TIMEOUT := 5000;
     DELIVERED_MESSAGE_CLEANUP_DELAY := 60000;
     TYPING_INDICATOR_TIMEOUT := 3000;
     MAX_HISTORY_SIZE := 1000 |}.

(** Every send over the data channel fails. *)
Definition env_send_fails : Env :=
  {| fetch := fetch LiveKitService.env_ok;
     random250 := random250 LiveKitService.env_ok;
     Date_now := Date_now LiveKitService.env_ok;
     uuidv4 := uuidv4 LiveKitService.env_ok;
     room_connect := room_connect LiveKitService.env_ok;
     room_disconnect := room_disconnect LiveKitService.env_ok;
     publishData := fun _ => Some (ThrownError "Error" "Message send timeout") |}.

(** A text of white space only: a space, U+00A0 and a TAB. *)
Definition blank_text : string :=
  String " " (String (ascii_of_nat 194) (String (ascii_of_nat 160)
    (String (ascii_of_nat 9) EmptyString))).

(** A chat message of bob, as it arrives. *)
Definition hello : json :=
  JObj [("id", JStr "m1"); ("senderId", JStr "bob");
        ("text", JStr "hello"); ("ts", JNum 1700000000000)].

End ChatService.

(* ------------------------------------------------------------------ *)
(** ** The services assembled                                          *)
(* ------------------------------------------------------------------ *)

Module Application.
Import LiveKitServiceIO.

(** [livekitService.eventHandlers] once the modules are loaded.
    services/authService.ts imports services/chatService.ts, so the
    chat service is constructed first and registers the handlers of
    [setupLiveKitIntegration]; the session service is constructed after
    it and registers those of [setupLiveKitEventHandlers]. *)
Definition installed : LiveKitEventHandlers Subscriber :=
  setEventHandlers auth_handlers (setEventHandlers chat_handlers no_handlers).

(** What is asked of the assembled services. *)
Inductive Event : Type :=
| Initialize (userId : string)                  (* chatService.initialize *)
| SendMessage (text : string) (opts : ChatService.SendMessageOptions)
                                                (* chatService.sendMessage *)
| Connection (call : LiveKitService.Call).      (* connect, disconnect, a room event *)

(** The connection service with its token service and log, and the
    chat service with its log. *)
Record State : Type := mkState {
  tokens : TokenService.t;
  livekit : LiveKitService.t;
  network : World;
  chat : ChatService.t;
  channel : World
}.

Definition start : State :=
  {| tokens := TokenService.init; livekit := LiveKitService.init; network := world0;
     chat := ChatService.init; channel := world0 |}.

Section WithEnv.
Variable env : Env.
Variable CHAT_CONFIG : ChatConfig.
Variable handlers : LiveKitEventHandlers Subscriber.

(** [this.eventHandlers.onConnectionStateChanged?.(state)] in
    [updateConnectionState], as far as the chat service is concerned:
    the handler of the session service updates the session and calls
    its own subscribers, not the chat service. *)
Definition notify (state : ConnectionState) (st : ChatService.t * World)
  : ChatService.t * World :=
  match onConnectionStateChanged handlers with
  | Some ChatServiceHandler =>
      ChatService.onConnectionStateChanged env CHAT_CONFIG state (fst st) (snd st)
  | Some AuthServiceHandler => st
  | None => st
  end.

Definition deliver (states : list ConnectionState) (st : ChatService.t * World)
  : ChatService.t * World :=
  fold_left (fun st state => notify state st) states st.

(** One event.  The notifications a call of the connection service
    issues are those its log gained; they go to the registered
    handler. *)
Definition react (e : Event) (st : State) : State :=
  match e with
  | Initialize userId =>
      {| tokens := tokens st; livekit := livekit st; network := network st;
         chat := ChatService.initialize userId (chat st); channel := channel st |}
  | SendMessage text opts =>
      let '(c, w, _) :=
        ChatService.sendMessage env CHAT_CONFIG text opts (chat st) (channel st) in
      {| tokens := tokens st; livekit := livekit st; network := network st;
         chat := c; channel := w |}
  | Connection call =>
      let '(tk, lk, w) :=
        LiveKitService.perform env call (tokens st, livekit st, network st) in
      let issued :=
        skipn (List.length (LiveKitService.notifications (trace (network st))))
              (LiveKitService.notifications (trace w)) in
      let '(c, cw) := deliver issued (chat st, channel st) in
      {| tokens := tk; livekit := lk; network := w; chat := c; channel := cw |}
  end.

Definition play (events : list Event) (st : State) : State :=
  fold_left (fun st e => react e st) events st.

End WithEnv.

End Application.

(* ================================================================== *)
(** * Properties                                                       *)
(* ================================================================== *)

(** ** Logs *)

Lemma trace_emit e w : trace (emit e w) = (trace w ++ [e])%list.
Proof. reflexivity. Qed.

Lemma trace_step w : trace (step w) = trace w.
Proof. reflexivity. Qed.


Lemma tick_step w : tick (step w) = S (tick w).
Proof. reflexivity. Qed.

Lemma extends_refl w : extends w w [].
Proof. unfold extends. now rewrite app_nil_r. Qed.

Lemma extends_emit e w : extends w (emit e w) [e].
Proof. reflexivity. Qed.

Lemma extends_step w w' ext : extends w w' ext -> extends w (step w') ext.
Proof. unfold extends. now rewrite trace_step. Qed.

Lemma extends_trans w1 w2 w3 e1 e2 :
  extends w1 w2 e1 -> extends w2 w3 e2 -> extends w1 w3 (e1 ++ e2)%list.
Proof. unfold extends. intros H1 H2. now rewrite H2, H1, app_assoc. Qed.

(** ** The token service *)

Module TokenServiceFacts.
Import TokenService.

Lemma fetch_count_app l1 l2 :
  fetch_count (l1 ++ l2) = (fetch_count l1 + fetch_count l2)%nat.
Proof.
  induction l1 as [|e l1 IH]; [reflexivity|].
  destruct e; simpl; rewrite IH; reflexivity.
Qed.

Lemma sleeps_app l1 l2 : sleeps (l1 ++ l2) = (sleeps l1 ++ sleeps l2)%list.
Proof.
  induction l1 as [|e l1 IH]; [reflexivity|].
  destruct e; simpl; rewrite IH; reflexivity.
Qed.

Section WithEnv.
Variable env : Env.

(** The loop only fetches and sleeps. *)
Lemma fetch_loop_effects fuel u p v attempt delay lastError w w' r :
  fetch_loop env fuel u p v attempt delay lastError w = (w', r) ->
  exists ext, extends w w' ext /\ Forall token_effect ext.
Proof.
  revert attempt delay lastError w.
  induction fuel as [|fuel IH]; intros attempt delay lastError w H; simpl in H.
  - inversion H; subst. exists []. split; [apply extends_refl | constructor].
  - destruct (attempt <=? APP_CONFIG.MAX_RETRY_ATTEMPTS).
    2:{ inversion H; subst. exists []. split; [apply extends_refl | constructor]. }
    assert (Hone : exists ext, extends w (step (emit (EFetch u p v) w)) ext
                               /\ Forall token_effect ext).
    { exists [EFetch u p v]. split; [reflexivity | repeat constructor]. }
    destruct (fetch env (tick w)) as [resp|error].
    + inversion H; subst. exact Hone.
    + destruct (attempt =? APP_CONFIG.MAX_RETRY_ATTEMPTS).
      { inversion H; subst. exact Hone. }
      destruct (negb (retryable error)).
      { inversion H; subst. exact Hone. }
      apply IH in H. destruct H as (ext & Hext & Hall).
      eexists. split.
      * eapply extends_trans; [|exact Hext].
        apply extends_step.
        eapply extends_trans; [apply extends_step, extends_emit | apply extends_emit].
      * simpl. repeat constructor; simpl; auto.
Qed.

Lemma fetchWithRetry_effects u p v w w' r :
  fetchWithRetry env u p v w = (w', r) ->
  exists ext, extends w w' ext /\ Forall token_effect ext.
Proof.
  unfold fetchWithRetry. intros H.
  destruct (fetch_loop env _ u p v 1 APP_CONFIG.RETRY_BASE_DELAY None w)
    as [w1 [resp|e]] eqn:E;
    inversion H; subst; eapply fetch_loop_effects; exact E.
Qed.

Lemma requestToken_effects u opts s w s' w' r :
  requestToken env u opts s w = (s', w', r) ->
  exists ext, extends w w' ext /\ Forall token_effect ext.
Proof.
  unfold requestToken. intros H.
  destruct (fetchWithRetry env u _ _ w) as [w1 [resp|e]] eqn:E.
  2:{ inversion H; subst. eapply fetchWithRetry_effects; exact E. }
  apply fetchWithRetry_effects in E.
  destruct (negb (ok resp)); [inversion H; subst; exact E|].
  destruct (body resp) as [tokenData|]; [|inversion H; subst; exact E].
  destruct (String.eqb (token tokenData) ""); [inversion H; subst; exact E|].
  destruct (expires_at tokenData) as [[|e|e]|];
    try (inversion H; subst; exact E);
    unfold scheduleTokenRefresh in H; simpl in H;
    inversion H; subst;
    destruct E as (ext & Hext & Hall); exists ext; split; auto;
    apply extends_step; exact Hext.
Qed.

Lemma getValidToken_effects u opts s w s' w' r :
  getValidToken env u opts s w = (s', w', r) ->
  exists ext, extends w w' ext /\ Forall token_effect ext.
Proof.
  unfold getValidToken. intros H.
  assert (Hreq : forall w0 s1 w1 r1,
             match requestToken env u opts s w0 with
             | (s'0, w'0, Ok tokenResponse) => (s'0, w'0, Ok (token tokenResponse))
             | (s'0, w'0, Throw e) => (s'0, w'0, Throw e)
             end = (s1, w1, r1) ->
             exists ext, extends w0 w1 ext /\ Forall token_effect ext).
  { intros w0 s1 w1 r1 H0.
    destruct (requestToken env u opts s w0) as [[s2 w2] [tr|e]] eqn:E;
      inversion H0; subst; eapply requestToken_effects; exact E. }
  destruct (currentToken s) as [tok|]; [|eapply Hreq; exact H].
  destruct tok as [|c tok]; [eapply Hreq; exact H|].
  destruct (isTokenValid env s w) as [valid w1] eqn:Ev.
  assert (Hw1 : extends w w1 []).
  { unfold isTokenValid in Ev.
    destruct (currentToken s) as [[|c' t']|]; try (inversion Ev; subst; apply extends_refl);
    destruct (tokenExpiresAt s) as [[|e|e]|];
      inversion Ev; subst; try apply extends_refl; apply extends_step, extends_refl. }
  destruct valid.
  - inversion H; subst. exists []. split; [exact Hw1 | constructor].
  - apply Hreq in H. destruct H as (ext & Hext & Hall).
    exists ext. split; [|exact Hall].
    change ext with ([] ++ ext)%list. eapply extends_trans; eauto.
Qed.

End WithEnv.

(** C3, as the specification states it, fails: when every request times
    out the service makes 3 attempts, not 5, and its first wait is
    1000 ms, outside 500 ms plus-or-minus 250 ms. *)
Lemma fetchWithRetry_not_spec_policy :
  let w' := fst (fetchWithRetry env_timeouts "alice" "elevenlabs" "voice" world0) in
  fetch_count (trace w') = 3%nat
  /\ fetch_count (trace w') <> spec_max_attempts
  /\ sleeps (trace w') = [1000; 2000]
  /\ ~ spec_wait_ok 0 1000.
Proof.
  cbv zeta. repeat split; try reflexivity.
  - vm_compute. discriminate.
  - unfold spec_wait_ok, spec_backoff. vm_compute. intros [_ H]. apply H. reflexivity.
Qed.

(** C3 (amended): [fetchWithRetry] makes at most
    [APP_CONFIG.MAX_RETRY_ATTEMPTS] = 3 attempts; it waits
    [RETRY_BASE_DELAY] = 1000 ms plus a jitter in [0, 250) between the
    first and the second, and twice that base (below the 8000 ms cap)
    plus a jitter in [0, 250) between the second and the third.  When
    every attempt fails with an error the loop retries (a timeout, a
    NetworkError), it makes all three attempts and then throws the
    NETWORK_ERROR [AppError]. *)
Theorem fetchWithRetry_policy (env : Env) (u p v : string) (w : World)
  (Hjitter : forall n, 0 <= random250 env n < 250) :
  exists j1 j2,
    0 <= j1 < 250 /\ 0 <= j2 < 250
    /\ Z.min (APP_CONFIG.RETRY_BASE_DELAY * 2) 8000 = 2 * APP_CONFIG.RETRY_BASE_DELAY
    /\ (let ext1 := [EFetch u p v] in
        let ext2 := [EFetch u p v; ESleep (APP_CONFIG.RETRY_BASE_DELAY + j1);
                     EFetch u p v] in
        let ext3 := [EFetch u p v; ESleep (APP_CONFIG.RETRY_BASE_DELAY + j1);
                     EFetch u p v; ESleep (2 * APP_CONFIG.RETRY_BASE_DELAY + j2);
                     EFetch u p v] in
        let w' := fst (fetchWithRetry env u p v w) in
        (extends w w' ext1 \/ extends w w' ext2 \/ extends w w' ext3)
        /\ ((forall n, exists e, fetch env n = Rejected e /\ retryable e = true) ->
            extends w w' ext3
            /\ snd (fetchWithRetry env u p v w)
               = Throw (ThrownApp ErrorHandler.handleNetworkError))).
Proof.
  exists (random250 env (S (tick w))), (random250 env (S (S (S (tick w))))).
  split; [apply Hjitter|]. split; [apply Hjitter|]. split; [reflexivity|].
  cbv zeta. split.
  - unfold fetchWithRetry. simpl.
    destruct (fetch env (tick w)) as [r1|e1]; simpl; [left; reflexivity|].
    destruct (retryable e1); simpl; [|left; reflexivity].
    destruct (fetch env (S (S (tick w)))) as [r2|e2]; simpl.
    { right; left. unfold extends. simpl. now rewrite <- !app_assoc. }
    destruct (retryable e2); simpl.
    2:{ right; left. unfold extends. simpl. now rewrite <- !app_assoc. }
    right; right.
    destruct (fetch env (S (S (S (S (tick w)))))) as [r3|e3]; simpl;
      unfold extends; simpl; now rewrite <- !app_assoc.
  - intros Htransient.
    destruct (Htransient (tick w)) as (e1 & F1 & R1).
    destruct (Htransient (S (S (tick w)))) as (e2 & F2 & R2).
    destruct (Htransient (S (S (S (S (tick w)))))) as (e3 & F3 & R3).
    unfold fetchWithRetry. simpl.
    rewrite F1. simpl. rewrite R1. simpl.
    rewrite F2. simpl. rewrite R2. simpl.
    rewrite F3. simpl.
    split; [|reflexivity].
    unfold extends. simpl. now rewrite <- !app_assoc.
Qed.

Lemma fetchWithRetry_policy_witness :
  (forall n, 0 <= random250 env_timeouts n < 250)
  /\ (forall n, exists e, fetch env_timeouts n = Rejected e /\ retryable e = true)
  /\ exists j1 j2,
       0 <= j1 < 250 /\ 0 <= j2 < 250
       /\ extends world0
            (fst (fetchWithRetry env_timeouts "alice" "elevenlabs" "voice" world0))
            [EFetch "alice" "elevenlabs" "voice";
             ESleep (APP_CONFIG.RETRY_BASE_DELAY + j1);
             EFetch "alice" "elevenlabs" "voice";
             ESleep (2 * APP_CONFIG.RETRY_BASE_DELAY + j2);
             EFetch "alice" "elevenlabs" "voice"]
       /\ snd (fetchWithRetry env_timeouts "alice" "elevenlabs" "voice" world0)
          = Throw (ThrownApp ErrorHandler.handleNetworkError).
Proof.
  assert (Hj : forall n, 0 <= random250 env_timeouts n < 250)
    by (intros n; simpl; lia).
  assert (Ht : forall n, exists e,
               fetch env_timeouts n = Rejected e /\ retryable e = true)
    by (intros n; exists AbortError; split; reflexivity).
  split; [exact Hj|]. split; [exact Ht|].
  destruct (@fetchWithRetry_policy env_timeouts "alice" "elevenlabs" "voice" world0 Hj)
    as (j1 & j2 & H1 & H2 & _ & _ & H).
  exists j1, j2.
  split; [exact H1|]. split; [exact H2|]. exact (H Ht).
Defined.

(** The run on [env_timeouts], in full. *)
Example fetchWithRetry_three_timeouts :
  fetchWithRetry env_timeouts "alice" "elevenlabs" "voice" world0
  = ({| tick := 5;
        trace := [EFetch "alice" "elevenlabs" "voice"; ESleep 1000;
                  EFetch "alice" "elevenlabs" "voice"; ESleep 2000;
                  EFetch "alice" "elevenlabs" "voice"] |},
     Throw (ThrownApp ErrorHandler.handleNetworkError)).
Proof. reflexivity. Qed.

(** C4, as the specification states it, fails: a 500 answer is not
    retried.  The request fails after one [fetch] and no wait, although
    the next answer of the server would have been a 200 with a token. *)
Lemma requestToken_500_not_retried :
  let '(_, w', r) := requestToken env_500_then_200 "alice" None init world0 in
  fetch_count (trace w') = 1%nat
  /\ sleeps (trace w') = []
  /\ r = Throw (ThrownApp (ErrorHandler.handleApiError {| status := 500; statusText := "Internal Server Error"; body := None |}))
  /\ (exists resp, fetch env_500_then_200 1 = Resolved resp /\ ok resp = true).
Proof.
  simpl. repeat split; try reflexivity.
  eexists. split; reflexivity.
Qed.

(** A response is handed back by the loop as soon as [fetch] resolves:
    it is the answer to the last request made. *)
Lemma fetch_loop_response (env : Env) fuel u p v attempt delay lastError w w' r :
  fetch_loop env fuel u p v attempt delay lastError w = (w', inl r) ->
  exists w0, fetch env (tick w0) = Resolved r
             /\ w' = step (emit (EFetch u p v) w0).
Proof.
  revert attempt delay lastError w.
  induction fuel as [|fuel IH]; intros attempt delay lastError w H; simpl in H.
  - discriminate.
  - destruct (attempt <=? APP_CONFIG.MAX_RETRY_ATTEMPTS); [|discriminate].
    destruct (fetch env (tick w)) as [resp|error] eqn:F.
    + inversion H; subst. exists w. split; [exact F | reflexivity].
    + destruct (attempt =? APP_CONFIG.MAX_RETRY_ATTEMPTS); [discriminate|].
      destruct (negb (retryable error)); [discriminate|].
      apply IH in H. exact H.
Qed.

(** C4 (amended): a non-2xx response is never retried, whatever its
    status, 401 and 403 as well as any other.  Whether it answers the
    first request or a request made after earlier ones threw and were
    retried, the call ends there: the request it answers is the last
    effect of the call, which has made one request and one wait per
    failure before it and none after, and [requestToken] throws the
    [AppError] that carries the status, leaving the cached token as it
    was. *)
Theorem requestToken_non2xx_fails_at_once (env : Env) (u : string)
  (opts : option TokenRequest) (s : t) (w : World) (r : Response) (k : nat)
  (Hk : Z.of_nat k < APP_CONFIG.MAX_RETRY_ATTEMPTS)
  (Hrej : forall i, (i < k)%nat ->
            exists error, fetch env (2 * i + tick w) = Rejected error
                          /\ retryable error = true)
  (Hres : fetch env (2 * k + tick w) = Resolved r)
  (Hnok : ok r = false) :
  let request :=
    EFetch u (or_default (option_field opts provider) LIVEKIT_CONFIG.DEFAULT_PROVIDER)
             (or_default (option_field opts voice_id) LIVEKIT_CONFIG.DEFAULT_VOICE_ID) in
  exists w1 before,
    requestToken env u opts s w
    = (s, w1, Throw (ThrownApp (ErrorHandler.handleApiError r)))
    /\ app_code (ErrorHandler.handleApiError r) = Some (CodeNum (status r))
    /\ trace w1 = (trace w ++ before ++ [request])%list
    /\ fetch_count before = k
    /\ List.length (sleeps before) = k.
Proof.
  cbv zeta. unfold requestToken, fetchWithRetry.
  destruct k as [|[|[|k]]].
  - simpl in Hres. simpl. rewrite Hres, Hnok. simpl.
    eexists _, []. repeat split.
  - destruct (Hrej 0%nat ltac:(lia)) as (e0 & He0 & Hr0).
    simpl in He0, Hres. simpl. rewrite He0, Hr0. simpl. rewrite Hres, Hnok. simpl.
    eexists _, [_; _]. split; [reflexivity|]. split; [reflexivity|].
    split; [repeat (rewrite trace_step || rewrite trace_emit); now rewrite <- !app_assoc|].
    split; reflexivity.
  - destruct (Hrej 0%nat ltac:(lia)) as (e0 & He0 & Hr0).
    destruct (Hrej 1%nat ltac:(lia)) as (e1 & He1 & Hr1).
    simpl in He0, He1, Hres. simpl. rewrite He0, Hr0. simpl. rewrite He1, Hr1. simpl.
    rewrite Hres, Hnok. simpl.
    eexists _, [_; _; _; _]. split; [reflexivity|]. split; [reflexivity|].
    split; [repeat (rewrite trace_step || rewrite trace_emit); now rewrite <- !app_assoc|].
    split; reflexivity.
  - unfold APP_CONFIG.MAX_RETRY_ATTEMPTS in Hk. lia.
Qed.

Lemma requestToken_non2xx_fails_at_once_witness :
  let r := {| status := 500; statusText := "Internal Server Error"; body := None |} in
  let request := EFetch "alice" LIVEKIT_CONFIG.DEFAULT_PROVIDER
                        LIVEKIT_CONFIG.DEFAULT_VOICE_ID in
  exists w1 before,
    requestToken env_timeout_then_500 "alice" None init world0
    = (init, w1, Throw (ThrownApp (ErrorHandler.handleApiError r)))
    /\ app_code (ErrorHandler.handleApiError r) = Some (CodeNum (status r))
    /\ trace w1 = (trace world0 ++ before ++ [request])%list
    /\ fetch_count before = 1%nat
    /\ List.length (sleeps before) = 1%nat.
Proof.
  cbv zeta.
  apply (@requestToken_non2xx_fails_at_once env_timeout_then_500 "alice" None init world0
           {| status := 500; statusText := "Internal Server Error"; body := None |} 1%nat).
  - reflexivity.
  - intros [|i] Hi; [|exfalso; lia].
    exists AbortError. split; reflexivity.
  - reflexivity.
  - reflexivity.
Defined.

End TokenServiceFacts.

(** ** The connection service *)

Module LiveKitServiceFacts.
Import LiveKitService.

Lemma ConnectionState_eqb_eq a b : ConnectionState_eqb a b = true <-> a = b.
Proof. destruct a, b; simpl; split; intros H; try reflexivity; discriminate. Qed.

Lemma ConnectionState_eqb_refl a : ConnectionState_eqb a a = true.
Proof. now apply ConnectionState_eqb_eq. Qed.

Lemma notifications_app l1 l2 :
  notifications (l1 ++ l2) = (notifications l1 ++ notifications l2)%list.
Proof.
  induction l1 as [|e l1 IH]; [reflexivity|].
  destruct e; simpl; rewrite IH; reflexivity.
Qed.

Lemma count_room_connect_app l1 l2 :
  count_room_connect (l1 ++ l2) = (count_room_connect l1 + count_room_connect l2)%nat.
Proof.
  induction l1 as [|e l1 IH]; [reflexivity|].
  destruct e; simpl; rewrite IH; reflexivity.
Qed.

Lemma token_effects_silent ext :
  Forall TokenService.token_effect ext ->
  notifications ext = [] /\ count_room_connect ext = O.
Proof.
  induction 1 as [|e ext He _ [IH1 IH2]]; [split; reflexivity|].
  destruct e; simpl in *; try contradiction; split; assumption.
Qed.

Lemma no_repeat_snoc l c d :
  no_repeat l -> last l d = d -> d <> c -> no_repeat (l ++ [c]).
Proof.
  induction l as [|a l IH]; intros Hl Hlast Hneq.
  - simpl. auto.
  - destruct l as [|b l'].
    + simpl in *. subst. auto.
    + destruct Hl as [Hab Hl]. split; [exact Hab|].
      apply IH; assumption.
Qed.

Lemma coherent_silent c tr ext :
  coherent c tr -> notifications ext = [] -> coherent c (tr ++ ext).
Proof.
  unfold coherent. intros H He. now rewrite notifications_app, He, app_nil_r.
Qed.

Lemma coherent_extends c w w' ext :
  coherent c (trace w) -> extends w w' ext -> notifications ext = [] ->
  coherent c (trace w').
Proof. intros H He Hn. rewrite He. now apply coherent_silent. Qed.

Lemma updateConnectionState_same s w :
  updateConnectionState (connectionState s) s w = (s, w).
Proof.
  unfold updateConnectionState. now rewrite ConnectionState_eqb_refl.
Qed.

Lemma updateConnectionState_spec c s w :
  let '(s', w') := updateConnectionState c s w in
  connectionState s' = c /\ room s' = room s /\ tick w' = tick w
  /\ count_room_connect (trace w') = count_room_connect (trace w)
  /\ (coherent (connectionState s) (trace w) -> coherent c (trace w')).
Proof.
  unfold updateConnectionState.
  destruct (ConnectionState_eqb (connectionState s) c) eqn:E; simpl.
  - apply ConnectionState_eqb_eq in E. subst. auto.
  - repeat split.
    + rewrite count_room_connect_app. simpl. lia.
    + destruct H as [H1 H2]. rewrite notifications_app. simpl.
      eapply no_repeat_snoc; eauto.
      intros Heq. subst. rewrite ConnectionState_eqb_refl in E. discriminate.
    + rewrite notifications_app. simpl. now rewrite last_last.
Qed.

Lemma updateAudioState_spec a s w :
  let '(s', w') := updateAudioState a s w in
  connectionState s' = connectionState s /\ room s' = room s
  /\ exists ext, extends w w' ext /\ notifications ext = [].
Proof.
  unfold updateAudioState.
  destruct (negb _); simpl; repeat split.
  - exists [EAudioStateChanged]. split; reflexivity.
  - exists []. split; [apply extends_refl | reflexivity].
Qed.

Lemma stopAudioLevelMonitoring_spec s :
  connectionState (stopAudioLevelMonitoring s) = connectionState s
  /\ room (stopAudioLevelMonitoring s) = room s.
Proof. unfold stopAudioLevelMonitoring. destruct (audioLevelTimer s); auto. Qed.

(** Name the result of a call of [updateConnectionState] and record
    what [updateConnectionState_spec] says of it. *)
Ltac update_state c s w s' w' :=
  let H := fresh "Hupd" in
  pose proof (updateConnectionState_spec c s w) as H;
  destruct (updateConnectionState c s w) as [s' w'];
  destruct H as (? & ? & ? & ? & ?).

Lemma onRoomEvent_coherent ev s w :
  coherent (connectionState s) (trace w) ->
  let '(s', w') := onRoomEvent ev s w in coherent (connectionState s') (trace w').
Proof.
  intros Hc. destruct ev; simpl.
  - update_state connected s w s' w'. rewrite H. auto.
  - update_state disconnected s w s' w'. rewrite H. auto.
  - update_state reconnecting s w s' w'. rewrite H. auto.
  - update_state connected s w s' w'. simpl. rewrite H. auto.
Qed.

Section WithEnv.
Variable env : Env.

Lemma connect_coherent u rn tk s w :
  coherent (connectionState s) (trace w) ->
  let '(_, s', w', _) := connect env u rn tk s w in
  coherent (connectionState s') (trace w').
Proof.
  intros Hc. unfold connect.
  destruct (TokenService.getValidToken env u None tk w) as [[tk1 w1] [tok|e]] eqn:E;
    apply TokenServiceFacts.getValidToken_effects in E;
    destruct E as (ext & Hext & Hall);
    apply token_effects_silent in Hall; destruct Hall as [Hn _];
    pose proof (coherent_extends Hc Hext Hn) as Hc1.
  2:{ update_state failed s w1 s' w'. rewrite H. auto. }
  assert (Hroom : exists s1 w2,
             match room s with
             | Some _ => (s, w1)
             | None => (with_room (Some RoomHandle) s, emit ENewRoom w1)
             end = (s1, w2)
             /\ coherent (connectionState s1) (trace w2)).
  { destruct (room s); do 2 eexists; split; try reflexivity; auto.
    simpl. apply coherent_silent; auto. }
  destruct Hroom as (s1 & w2 & -> & Hc2).
  update_state connecting s1 w2 s2 w3.
  assert (Hc4 : coherent (connectionState s2) (trace (step (emit (ERoomConnect tok) w3)))).
  { rewrite H. simpl. apply coherent_silent; auto. }
  destruct (room_connect env (tick (emit (ERoomConnect tok) w3))) as [error|].
  - update_state failed s2 (step (emit (ERoomConnect tok) w3)) s' w'. rewrite H4. auto.
  - update_state connected s2 (step (emit (ERoomConnect tok) w3)) s' w'.
    simpl. rewrite H4. auto.
Qed.

Lemma disconnect_coherent tk s w :
  coherent (connectionState s) (trace w) ->
  let '(_, s', w', _) := disconnect env tk s w in
  coherent (connectionState s') (trace w').
Proof.
  intros Hc. unfold disconnect.
  destruct (stopAudioLevelMonitoring_spec s) as [Hcs Hrs].
  set (s1 := stopAudioLevelMonitoring s) in *.
  assert (Hfin : forall tk0 s0 w0,
             coherent (connectionState s0) (trace w0) ->
             let '(_, s', w', _) :=
               (let tk1 := TokenService.clearToken tk0 in
                let '(s2, w1) := updateConnectionState disconnected s0 w0 in
                let '(s3, w2) :=
                  updateAudioState {| isMuted := true; isPublishing := false;
                                      hasPermission := false; audioLevel := 0 |} s2 w1 in
                (tk1, s3, w2, @Ok unit tt)) in
             coherent (connectionState s') (trace w')).
  { intros tk0 s0 w0 Hc0. cbv zeta.
    update_state disconnected s0 w0 s2 w1.
    match goal with |- context [updateAudioState ?a s2 w1] =>
      pose proof (updateAudioState_spec a s2 w1) as Ha;
      destruct (updateAudioState a s2 w1) as [s3 w2] end.
    destruct Ha as (Ha1 & _ & ext & Hext & Hn).
    rewrite Ha1, H. eapply coherent_extends; eauto. }
  destruct (room s1).
  - destruct (room_disconnect env (tick (emit ERoomDisconnect w))).
    + rewrite Hcs. simpl. apply coherent_silent; auto.
    + apply Hfin. simpl. rewrite Hcs. apply coherent_silent; auto.
  - apply Hfin. rewrite Hcs. exact Hc.
Qed.

Lemma perform_coherent o tk s w :
  coherent (connectionState s) (trace w) ->
  let '(_, s', w') := perform env o (tk, s, w) in
  coherent (connectionState s') (trace w').
Proof.
  intros Hc. destruct o as [u rn| |ev]; simpl.
  - pose proof (@connect_coherent u rn tk s w Hc) as H.
    destruct (connect env u rn tk s w) as [[[tk' s'] w'] r]. exact H.
  - pose proof (@disconnect_coherent tk s w Hc) as H.
    destruct (disconnect env tk s w) as [[[tk' s'] w'] r]. exact H.
  - pose proof (@onRoomEvent_coherent ev s w Hc) as H.
    destruct (onRoomEvent ev s w) as [s' w']. exact H.
Qed.

Lemma perform_all_coherent calls tk s w :
  coherent (connectionState s) (trace w) ->
  let '(_, s', w') := perform_all env calls (tk, s, w) in
  coherent (connectionState s') (trace w').
Proof.
  revert tk s w. induction calls as [|o calls IH]; intros tk s w Hc.
  - exact Hc.
  - change (perform_all env (o :: calls) (tk, s, w))
      with (perform_all env calls (perform env o (tk, s, w))).
    pose proof (@perform_coherent o tk s w Hc) as H.
    destruct (perform env o (tk, s, w)) as [[tk1 s1] w1].
    apply (IH tk1 s1 w1 H).
Qed.

End WithEnv.

(** C10: [updateConnectionState] called with the current state changes
    nothing and notifies nobody; hence, whatever the service is asked to
    do from the moment its log starts (connects, disconnects, room
    events, under any behaviour of the network), the states handed to
    [onConnectionStateChanged] never repeat from one notification to
    the next. *)
Theorem updateConnectionState_no_repeat :
  (forall s w, updateConnectionState (connectionState s) s w = (s, w))
  /\ (forall env calls tk s0,
        let '(_, _, w') := perform_all env calls (tk, s0, world0) in
        no_repeat (notifications (trace w'))).
Proof.
  split; [exact updateConnectionState_same|].
  intros env calls tk s0.
  assert (Hc : coherent (connectionState s0) (trace world0)) by (split; simpl; auto).
  pose proof (@perform_all_coherent env calls tk s0 world0 Hc) as H.
  destruct (perform_all env calls (tk, s0, world0)) as [[tk' s'] w'].
  exact (proj1 H).
Qed.



(** C6, as the specification states it, fails: when [room.disconnect()]
    rejects, [disconnect] throws to its caller, the state stays
    [connected] and the room is kept. *)
Lemma disconnect_throws_when_room_fails :
  let '(tk1, s1, w1, _) :=
    connect env_disconnect_fails "alice" None TokenService.init init world0 in
  let '(_, s2, _, r) := disconnect env_disconnect_fails tk1 s1 w1 in
  connectionState s1 = connected
  /\ connectionState s2 = connected
  /\ room s2 = Some RoomHandle
  /\ r = Throw (ThrownApp (ErrorHandler.handle
                             (ThrownError "Error" "could not close the room"))).
Proof.
  vm_compute. repeat split.
Qed.

(** C6 (amended): from every state, when there is no room or
    [room.disconnect()] resolves, [disconnect] returns normally with the
    state [disconnected], the room released and the token cleared; when
    [room.disconnect()] rejects, [disconnect] throws the error as an
    [AppError] and leaves the connection state, the room and the token
    as they were. *)
Theorem disconnect_outcome (env : Env) (tk : TokenService.t) (s : t) (w : World) :
  let '(tk', s', _, r) := disconnect env tk s w in
  match room s, room_disconnect env (tick w) with
  | Some _, Some error =>
      r = Throw (ThrownApp (ErrorHandler.handle error))
      /\ connectionState s' = connectionState s
      /\ room s' = room s
      /\ tk' = tk
  | _, _ =>
      r = Ok tt
      /\ connectionState s' = disconnected
      /\ room s' = None
      /\ tk' = TokenService.init
  end.
Proof.
  unfold disconnect.
  destruct (stopAudioLevelMonitoring_spec s) as [Hcs Hrs].
  set (s1 := stopAudioLevelMonitoring s) in *.
  assert (Hfin : forall tk0 s0 w0, room s0 = None ->
             let '(tk', s', _, r) :=
               (let tk1 := TokenService.clearToken tk0 in
                let '(s2, w1) := updateConnectionState disconnected s0 w0 in
                let '(s3, w2) :=
                  updateAudioState {| isMuted := true; isPublishing := false;
                                      hasPermission := false; audioLevel := 0 |} s2 w1 in
                (tk1, s3, w2, @Ok unit tt)) in
             r = Ok tt /\ connectionState s' = disconnected
             /\ room s' = None /\ tk' = TokenService.init).
  { intros tk0 s0 w0 Hr0. cbv zeta.
    update_state disconnected s0 w0 s2 w1.
    match goal with |- context [updateAudioState ?a s2 w1] =>
      pose proof (updateAudioState_spec a s2 w1) as Ha;
      destruct (updateAudioState a s2 w1) as [s3 w2] end.
    destruct Ha as (Ha1 & Ha2 & _).
    repeat split; congruence. }
  rewrite <- Hrs.
  destruct (room s1) as [r0|] eqn:Er.
  - change (tick (emit ERoomDisconnect w)) with (tick w).
    destruct (room_disconnect env (tick w)) as [error|].
    + repeat split; auto.
    + apply Hfin. reflexivity.
  - pose proof (Hfin tk s1 w Er) as H.
    destruct (room_disconnect env (tick w)); exact H.
Qed.

End LiveKitServiceFacts.

(** ** The chat service *)

Module ChatServiceFacts.
Import ChatService.

(** *** Logs *)

Lemma delivery_attempts_app l1 l2 :
  delivery_attempts (l1 ++ l2) = (delivery_attempts l1 ++ delivery_attempts l2)%list.
Proof.
  induction l1 as [|e l1 IH]; [reflexivity|].
  destruct e; simpl; try (rewrite IH; reflexivity).
  destruct race; simpl; rewrite IH; reflexivity.
Qed.

Lemma surfaced_app l1 l2 : surfaced (l1 ++ l2) = (surfaced l1 ++ surfaced l2)%list.
Proof.
  induction l1 as [|e l1 IH]; [reflexivity|].
  destruct e; simpl; rewrite IH; reflexivity.
Qed.

Lemma published_app l1 l2 : published (l1 ++ l2) = (published l1 ++ published l2)%list.
Proof.
  induction l1 as [|e l1 IH]; [reflexivity|].
  destruct e; simpl; rewrite IH; reflexivity.
Qed.

(** *** The sort *)

Lemma insert_by_timestamp_perm x l :
  Permutation (insert_by_timestamp x l) (x :: l).
Proof.
  induction l as [|y l IH]; simpl; [reflexivity|].
  destruct (timestamp x <=? timestamp y); [reflexivity|].
  rewrite IH. apply perm_swap.
Qed.

Lemma sort_by_timestamp_perm l : Permutation (sort_by_timestamp l) l.
Proof.
  induction l as [|x l IH]; simpl; [reflexivity|].
  rewrite insert_by_timestamp_perm. now constructor.
Qed.

Lemma insert_by_timestamp_sorted x l :
  StronglySorted earlier l -> StronglySorted earlier (insert_by_timestamp x l).
Proof.
  induction 1 as [|y l Hs IH Hy]; simpl.
  - repeat constructor.
  - destruct (Z.leb_spec (timestamp x) (timestamp y)) as [Hle|Hgt].
    + constructor; [constructor; assumption|].
      constructor; [exact Hle|].
      eapply Forall_impl; [|exact Hy]. unfold earlier. intros; lia.
    + constructor; [exact IH|].
      rewrite Forall_forall. intros z Hz.
      apply (Permutation_in _ (insert_by_timestamp_perm x l)) in Hz.
      destruct Hz as [<-|Hz].
      * unfold earlier. lia.
      * rewrite Forall_forall in Hy. now apply Hy.
Qed.

Lemma sort_by_timestamp_sorted l : StronglySorted earlier (sort_by_timestamp l).
Proof.
  induction l as [|x l IH]; simpl; [constructor|].
  now apply insert_by_timestamp_sorted.
Qed.

(** The sort is stable: messages of one timestamp keep their order. *)
Lemma insert_by_timestamp_stable ts0 x l :
  filter (fun qm => timestamp qm =? ts0) (insert_by_timestamp x l)
  = filter (fun qm => timestamp qm =? ts0) (x :: l).
Proof.
  induction l as [|y l IH]; [reflexivity|].
  simpl insert_by_timestamp.
  destruct (Z.leb_spec (timestamp x) (timestamp y)) as [Hle|Hgt]; [reflexivity|].
  simpl in *. rewrite IH.
  destruct (Z.eqb_spec (timestamp x) ts0), (Z.eqb_spec (timestamp y) ts0);
    try reflexivity; lia.
Qed.

Lemma sort_by_timestamp_stable ts0 l :
  filter (fun qm => timestamp qm =? ts0) (sort_by_timestamp l)
  = filter (fun qm => timestamp qm =? ts0) l.
Proof.
  induction l as [|x l IH]; [reflexivity|].
  simpl sort_by_timestamp. rewrite insert_by_timestamp_stable.
  simpl. now rewrite IH.
Qed.

(** *** The map *)

Lemma Map_get_set_same k v m : Map_get k (Map_set k v m) = Some v.
Proof.
  induction m as [|[k' v'] m IH]; simpl.
  - now rewrite String.eqb_refl.
  - destruct (String.eqb k' k) eqn:E; simpl.
    + now rewrite String.eqb_refl.
    + now rewrite E.
Qed.

Lemma Map_get_set_other k k' v m :
  k' <> k -> Map_get k' (Map_set k v m) = Map_get k' m.
Proof.
  intros Hne. induction m as [|[k0 v0] m IH]; simpl.
  - destruct (String.eqb_spec k k'); [congruence | reflexivity].
  - destruct (String.eqb_spec k0 k) as [->|Hk0]; simpl.
    + destruct (String.eqb_spec k k'); [congruence|].
      reflexivity.
    + destruct (String.eqb_spec k0 k'); [reflexivity | exact IH].
Qed.

Lemma Map_get_In k v m : Map_get k m = Some v -> In v (Map_values m).
Proof.
  induction m as [|[k' v'] m IH]; simpl; [discriminate|].
  destruct (String.eqb k' k).
  - intros [= ->]. now left.
  - intros H. right. now apply IH.
Qed.

Lemma In_pendingMessages qm s :
  In qm (Map_values (messageQueue s)) -> awaiting qm = true ->
  In qm (pendingMessages s).
Proof.
  intros Hin Haw. unfold pendingMessages.
  apply (Permutation_in _ (Permutation_sym (sort_by_timestamp_perm _))).
  apply filter_In. now split.
Qed.

(** *** The history *)

Lemma NoDup_skipn (A : Type) n (l : list A) : NoDup l -> NoDup (skipn n l).
Proof.
  intros H. rewrite <- (firstn_skipn n l) in H.
  now apply NoDup_app_remove_l in H.
Qed.

Lemma existsb_id_In k h :
  existsb (fun msg => String.eqb (id msg) k) h = true <-> In k (map id h).
Proof.
  rewrite existsb_exists, in_map_iff. split.
  - intros (m & Hin & Heq). apply String.eqb_eq in Heq. eauto.
  - intros (m & Heq & Hin). exists m. split; [exact Hin|]. now apply String.eqb_eq.
Qed.

Lemma count_id_notin k h : ~ In k (map id h) -> count_id k h = O.
Proof.
  unfold count_id. induction h as [|m h IH]; simpl; [reflexivity|].
  intros Hn. destruct (String.eqb_spec (id m) k) as [E|E].
  - exfalso. apply Hn. now left.
  - apply IH. intros Hin. apply Hn. now right.
Qed.

Lemma count_id_NoDup k h :
  NoDup (map id h) -> In k (map id h) -> count_id k h = 1%nat.
Proof.
  unfold count_id. induction h as [|m h IH]; simpl; [contradiction|].
  intros Hnd Hin. inversion Hnd as [|x l Hx Hl]; subst.
  destruct (String.eqb_spec (id m) k) as [E|E].
  - subst. simpl. f_equal. now apply count_id_notin.
  - destruct Hin as [Hin|Hin]; [contradiction|]. now apply IH.
Qed.

Section WithEnv.
Variable env : Env.
Variable CHAT_CONFIG : ChatConfig.

Lemma addToHistory_ok m s : hist_ok s -> hist_ok (addToHistory CHAT_CONFIG m s).
Proof.
  unfold hist_ok, addToHistory. intros H.
  destruct (existsb _ (messageHistory s)) eqn:E; [exact H|].
  assert (Hnd : NoDup (map id (messageHistory s ++ [m]))).
  { rewrite map_app. simpl. apply NoDup_app; [exact H | repeat constructor; auto |].
    intros k Hin [<-|[]].
    apply existsb_id_In in Hin. congruence. }
  destruct (_ >? _); simpl; [|exact Hnd].
  rewrite <- skipn_map. now apply NoDup_skipn.
Qed.

Lemma addToHistory_known m s :
  existsb (fun msg => String.eqb (id msg) (id m)) (messageHistory s) = true ->
  addToHistory CHAT_CONFIG m s = s.
Proof. unfold addToHistory. now intros ->. Qed.

(** One delivery attempt: the call is logged, nothing is surfaced, the
    connection flag and the identity are untouched, the history stays
    well formed. *)
Lemma sendQueuedMessage_effects qm s w :
  let '(s', w', _) := sendQueuedMessage env CHAT_CONFIG qm s w in
  exists ext,
    extends w w' ext
    /\ delivery_attempts ext = [message qm]
    /\ surfaced ext = []
    /\ (hist_ok s -> hist_ok s').
Proof.
  unfold sendQueuedMessage, sendChatMessage.
  set (timeout := match timeout (options qm) with
                  | Some 0 | None => MESSAGE_TIMEOUT CHAT_CONFIG
                  | Some ms => ms
                  end).
  destruct (publishData env _) as [error|].
  - destruct (_ >=? _).
    + exists [ESendChatMessage (message qm) (Some timeout); EMessageFailed (id (message qm))].
      repeat split; auto.
      unfold extends. simpl. now rewrite <- app_assoc.
    + exists [ESendChatMessage (message qm) (Some timeout)].
      repeat split; auto.
  - exists [ESendChatMessage (message qm) (Some timeout); EMessageSent (message qm)].
    repeat split; auto.
    + unfold extends. simpl. now rewrite <- app_assoc.
    + intros H. unfold scheduleDeliveryTimeout, setTimeout. simpl.
      apply addToHistory_ok. exact H.
Qed.

Lemma process_each_effects l s w :
  let '(s', w') := process_each env CHAT_CONFIG l s w in
  exists ext,
    extends w w' ext
    /\ delivery_attempts ext = map message l
    /\ surfaced ext = []
    /\ (hist_ok s -> hist_ok s').
Proof.
  revert s w. induction l as [|qm l IH]; intros s w; simpl.
  - exists []. repeat split; auto. apply extends_refl.
  - pose proof (sendQueuedMessage_effects qm s w) as H1.
    destruct (sendQueuedMessage env CHAT_CONFIG qm s w) as [[s1 w1] r].
    destruct H1 as (e1 & X1 & A1 & S1 & K1).
    specialize (IH s1 w1).
    destruct (process_each env CHAT_CONFIG l s1 w1) as [s' w'].
    destruct IH as (e2 & X2 & A2 & S2 & K2).
    exists (e1 ++ e2)%list. repeat split.
    + eapply extends_trans; eauto.
    + now rewrite delivery_attempts_app, A1, A2.
    + now rewrite surfaced_app, S1, S2.
    + auto.
Qed.

Lemma processMessageQueue_effects s w :
  let '(s', w') := processMessageQueue env CHAT_CONFIG s w in
  exists ext,
    extends w w' ext
    /\ delivery_attempts ext
       = (if isConnected s then map message (pendingMessages s) else [])
    /\ surfaced ext = []
    /\ (hist_ok s -> hist_ok s').
Proof.
  unfold processMessageQueue. destruct (isConnected s); simpl.
  - apply process_each_effects.
  - exists []. repeat split; auto. apply extends_refl.
Qed.

Lemma sendMessage_ok text opts s w :
  hist_ok s -> hist_ok (fst (fst (sendMessage env CHAT_CONFIG text opts s w))).
Proof.
  intros H. unfold sendMessage, enqueue.
  match goal with |- context [processMessageQueue env CHAT_CONFIG ?a ?b] =>
    pose proof (processMessageQueue_effects a b) as Hp;
    destruct (processMessageQueue env CHAT_CONFIG a b) as [s' w'] end.
  destruct Hp as (ext & _ & _ & _ & K). simpl. apply K. exact H.
Qed.

Lemma sendTypingIndicator_history typing s w :
  messageHistory (fst (sendTypingIndicator env CHAT_CONFIG typing s w))
  = messageHistory s.
Proof.
  unfold sendTypingIndicator.
  destruct (Bool.eqb (isTyping s) typing); [reflexivity|].
  destruct (send_wrapped env _ _ w) as [w1 [e|]]; [reflexivity|].
  destruct typing; [|reflexivity].
  simpl. destruct (typingTimer s); reflexivity.
Qed.

Lemma markDelivered_history k s w :
  messageHistory (fst (markDelivered CHAT_CONFIG k s w)) = messageHistory s.
Proof.
  unfold markDelivered.
  destruct (Map_get k (messageQueue s)) as [qm|]; [|reflexivity].
  destruct (status qm); reflexivity.
Qed.

Lemma handleSystemMessage_history v s w :
  messageHistory (fst (handleSystemMessage CHAT_CONFIG v s w)) = messageHistory s.
Proof.
  unfold handleSystemMessage.
  destruct (JSON.get "type" v) as [[| | |ty| |]|]; try reflexivity.
  destruct (String.eqb ty "delivery_receipt").
  - unfold handleDeliveryReceipt.
    destruct (JSON.get "messageId" v) as [[| | |k| |]|]; try reflexivity.
    apply markDelivered_history.
  - destruct (String.eqb ty "typing_indicator"); [|reflexivity].
    unfold handleTypingIndicator. destruct (negb _); reflexivity.
Qed.

Lemma handleIncomingData_ok data s w :
  hist_ok s -> hist_ok (fst (handleIncomingData env CHAT_CONFIG data s w)).
Proof.
  intros H. unfold handleIncomingData.
  destruct data as [parsed|]; [|exact H].
  assert (Hgen :
    hist_ok (fst (if JSON.truthy (JSON.get "type" parsed)
                  then handleSystemMessage CHAT_CONFIG parsed s w
                  else if negb (isValidChatMessage parsed) then (s, w)
                  else
                    (addToHistory CHAT_CONFIG (as_ChatMessage parsed) s,
                     emit (EMessageReceived (as_ChatMessage parsed))
                       (if negb (same_user (JSON.get "senderId" parsed) (currentUserId s))
                        then sendDeliveryReceipt env (id (as_ChatMessage parsed)) s w
                        else w))))).
  { destruct (JSON.truthy _).
    - unfold hist_ok. now rewrite handleSystemMessage_history.
    - destruct (negb (isValidChatMessage parsed)); [exact H|].
      simpl. now apply addToHistory_ok. }
  destruct parsed; try exact Hgen.
Qed.

Lemma onConnectionStateChanged_ok state s w :
  hist_ok s -> hist_ok (fst (onConnectionStateChanged env CHAT_CONFIG state s w)).
Proof.
  intros H. unfold onConnectionStateChanged.
  destruct (isConnected _ && negb (isConnected s)); [|exact H].
  match goal with |- context [processMessageQueue env CHAT_CONFIG ?a ?b] =>
    pose proof (processMessageQueue_effects a b) as Hp;
    destruct (processMessageQueue env CHAT_CONFIG a b) as [s' w'] end.
  destruct Hp as (ext & _ & _ & _ & K). simpl. apply K. exact H.
Qed.

Lemma fireTimer_ok h s w :
  hist_ok s -> hist_ok (fst (fireTimer env CHAT_CONFIG h s w)).
Proof.
  intros H. unfold fireTimer.
  destruct (find_timer h s) as [tm|]; [|exact H].
  destruct (action tm) as [k|k|k|].
  - destruct (Map_has k _); [|exact H].
    match goal with |- context [processMessageQueue env CHAT_CONFIG ?a ?b] =>
      pose proof (processMessageQueue_effects a b) as Hp;
      destruct (processMessageQueue env CHAT_CONFIG a b) as [s' w'] end.
    destruct Hp as (ext & _ & _ & _ & K). simpl. apply K. exact H.
  - exact H.
  - unfold hist_ok. rewrite markDelivered_history. exact H.
  - unfold hist_ok. rewrite sendTypingIndicator_history. exact H.
Qed.

Lemma run_op_ok o s w :
  hist_ok s -> hist_ok (fst (run_op env CHAT_CONFIG o (s, w))).
Proof.
  intros H. destruct o as [u|txt opts|typing|state|data|h| | |]; simpl.
  - exact H.
  - pose proof (sendMessage_ok txt opts w H) as K.
    destruct (sendMessage env CHAT_CONFIG txt opts s w) as [[s' w'] k]. exact K.
  - unfold hist_ok. rewrite sendTypingIndicator_history. exact H.
  - now apply onConnectionStateChanged_ok.
  - now apply handleIncomingData_ok.
  - now apply fireTimer_ok.
  - constructor.
  - exact H.
  - unfold cleanup. destruct (typingTimer s); exact H.
Qed.

Lemma run_ok ops s w :
  hist_ok s -> hist_ok (fst (run env CHAT_CONFIG ops (s, w))).
Proof.
  revert s w. induction ops as [|o ops IH]; intros s w H; [exact H|].
  change (run env CHAT_CONFIG (o :: ops) (s, w))
    with (run env CHAT_CONFIG ops (run_op env CHAT_CONFIG o (s, w))).
  pose proof (run_op_ok o w H) as K.
  destruct (run_op env CHAT_CONFIG o (s, w)) as [s1 w1]. now apply IH.
Qed.

Lemma send_wrapped_quiet document s w :
  exists m,
    extends w (fst (send_wrapped env document s w)) [ESendChatMessage m None].
Proof. unfold send_wrapped, sendChatMessage. eexists. reflexivity. Qed.

Lemma sendDeliveryReceipt_surfaced k s w :
  surfaced (trace (sendDeliveryReceipt env k s w)) = surfaced (trace w).
Proof.
  unfold sendDeliveryReceipt.
  destruct (send_wrapped_quiet (DeliveryReceipt k) s w) as (m & ->).
  rewrite surfaced_app. simpl. now rewrite app_nil_r.
Qed.

End WithEnv.

(** What [handleIncomingData] does with a valid chat payload. *)
Lemma handleIncomingData_valid (env : Env) (cfg : ChatConfig) (parsed : json)
  (s : t) (w : World) :
  JSON.truthy (JSON.get "type" parsed) = false ->
  isValidChatMessage parsed = true ->
  handleIncomingData env cfg (Parsed parsed) s w
  = (addToHistory cfg (as_ChatMessage parsed) s,
     emit (EMessageReceived (as_ChatMessage parsed))
       (if negb (same_user (JSON.get "senderId" parsed) (currentUserId s))
        then sendDeliveryReceipt env (id (as_ChatMessage parsed)) s w
        else w)).
Proof.
  intros Hchat Hvalid. unfold handleIncomingData.
  destruct parsed; try discriminate Hvalid; now rewrite Hchat, Hvalid.
Qed.

(** *** Inbound duplicates *)

(** C1, as the specification states it, fails: the same payload handed
    in twice leaves one entry in the history, but [onMessageReceived] is
    called twice. *)
Lemma duplicate_is_surfaced_again :
  let '(s, w) := run LiveKitService.env_ok cfg3
                     [OpInitialize "alice"; OpDataReceived (Parsed hello);
                      OpDataReceived (Parsed hello)] (init, world0) in
  count_id "m1" (messageHistory s) = 1%nat
  /\ surfaced (trace w) = [as_ChatMessage hello; as_ChatMessage hello]
  /\ List.length (surfaced (trace w)) <> 1%nat.
Proof.
  vm_compute. repeat split. discriminate.
Qed.

(** C1 (amended): in every state the service can reach, a valid chat
    payload whose id already occurs in the history is not appended (the
    history is unchanged and holds exactly one entry with that id), and
    it is handed to [onMessageReceived] once more: the history is
    deduplicated, the surfaced events are not. *)
Theorem duplicate_not_appended (env : Env) (cfg : ChatConfig) (ops : list Op)
  (parsed : json) (s : t) (w : World)
  (Hrun : run env cfg ops (init, world0) = (s, w))
  (Hchat : JSON.truthy (JSON.get "type" parsed) = false)
  (Hvalid : isValidChatMessage parsed = true)
  (Hdup : In (id (as_ChatMessage parsed)) (map id (messageHistory s))) :
  let '(s', w') := handleIncomingData env cfg (Parsed parsed) s w in
  messageHistory s' = messageHistory s
  /\ count_id (id (as_ChatMessage parsed)) (messageHistory s') = 1%nat
  /\ surfaced (trace w') = (surfaced (trace w) ++ [as_ChatMessage parsed])%list.
Proof.
  assert (Hok : hist_ok s).
  { pose proof (@run_ok env cfg ops init world0) as K. rewrite Hrun in K.
    apply K. constructor. }
  rewrite handleIncomingData_valid by assumption.
  rewrite addToHistory_known by (now apply existsb_id_In).
  split; [reflexivity|]. split; [now apply count_id_NoDup|].
  rewrite trace_emit, surfaced_app. simpl. f_equal.
  destruct (negb _); [apply sendDeliveryReceipt_surfaced | reflexivity].
Qed.

Lemma duplicate_not_appended_witness :
  let s := fst (run LiveKitService.env_ok cfg3
                    [OpInitialize "alice"; OpDataReceived (Parsed hello)] (init, world0)) in
  let w := snd (run LiveKitService.env_ok cfg3
                    [OpInitialize "alice"; OpDataReceived (Parsed hello)] (init, world0)) in
  let '(s', w') := handleIncomingData LiveKitService.env_ok cfg3 (Parsed hello) s w in
  messageHistory s' = messageHistory s
  /\ count_id (id (as_ChatMessage hello)) (messageHistory s') = 1%nat
  /\ surfaced (trace w') = (surfaced (trace w) ++ [as_ChatMessage hello])%list.
Proof.
  cbv zeta.
  apply (@duplicate_not_appended LiveKitService.env_ok cfg3
           [OpInitialize "alice"; OpDataReceived (Parsed hello)] hello).
  - reflexivity.
  - reflexivity.
  - reflexivity.
  - simpl. left. reflexivity.
Defined.

(** *** Sending *)

(** C2, as the specification states it, fails: on a connected service
    the promise of [sendMessage] resolves only after the delivery
    attempt has been made and has settled.  At that moment the queue
    entry is no longer pending with 0 attempts: it is [sent], with 1
    attempt, and the attempt is in the log. *)
Lemma sendMessage_waits_for_the_attempt :
  let '(s0, w0) := run LiveKitService.env_ok cfg3
                       [OpInitialize "alice"; OpConnectionState connected]
                       (init, world0) in
  let '(s', w', k) := sendMessage LiveKitService.env_ok cfg3 "hi" no_options s0 w0 in
  exists qm,
    Map_get k (messageQueue s') = Some qm
    /\ status qm = sent /\ status qm <> pending
    /\ attempts qm = 1 /\ attempts qm <> 0
    /\ delivery_attempts (trace w') = [message qm].
Proof.
  vm_compute. eexists. split; [reflexivity|].
  repeat split; discriminate.
Qed.

(** C2 (amended): for every text, [sendMessage] builds a [ChatMessage]
    with the id just drawn from [uuidv4] and the current time, puts a
    queue entry with status [pending] and 0 attempts under that id, runs
    the queue processor, and resolves with the id once that pass is
    over.  When the service is not connected the pass does nothing, so
    the state at that moment is the one after the insertion; when it is
    connected the pass has by then made its delivery attempts, the one
    of the new message among them. *)
Theorem sendMessage_enqueues_then_processes (env : Env) (cfg : ChatConfig)
  (text : string) (opts : SendMessageOptions) (s : t) (w : World) :
  let '(s1, w1, k) := enqueue env text opts s w in
  let '(s', w', k') := sendMessage env cfg text opts s w in
  let message := {| id := k;
                    senderId := user_or_unknown (currentUserId s);
                    senderName := None;
                    text := trim text;
                    ts := Date_now env (S (tick w)) |} in
  k' = k
  /\ k = uuidv4 env (tick w)
  /\ Map_get k (messageQueue s1)
     = Some {| message := message; status := pending; attempts := 0;
               timestamp := Date_now env (S (S (tick w))); options := opts |}
  /\ trace w1 = trace w
  /\ (s', w') = processMessageQueue env cfg s1 w1
  /\ if isConnected s
     then In message (map ChatService.message (pendingMessages s1))
          /\ delivery_attempts (trace w')
             = (delivery_attempts (trace w)
                  ++ map ChatService.message (pendingMessages s1))%list
     else (s', w') = (s1, w1).
Proof.
  unfold sendMessage, enqueue. cbv zeta.
  set (k := uuidv4 env (tick w)).
  set (qm := {| message := _; status := pending |}).
  set (s1 := with_messageQueue (Map_set k qm (messageQueue s)) s).
  set (w1 := step (step (step w))).
  pose proof (processMessageQueue_effects env cfg s1 w1) as Hp.
  destruct (processMessageQueue env cfg s1 w1) as [s' w'] eqn:E.
  destruct Hp as (ext & Hext & Hatt & _).
  split; [reflexivity|]. split; [reflexivity|].
  split; [apply Map_get_set_same|].
  split; [reflexivity|]. split; [reflexivity|].
  change (isConnected s1) with (isConnected s) in Hatt.
  destruct (isConnected s) eqn:Ec.
  - split.
    + apply (in_map ChatService.message _ qm).
      apply In_pendingMessages; [|reflexivity].
      eapply Map_get_In. apply Map_get_set_same.
    + rewrite Hext, delivery_attempts_app, Hatt. reflexivity.
  - unfold processMessageQueue in E.
    change (isConnected s1) with (isConnected s) in E. rewrite Ec in E.
    simpl in E. now inversion E.
Qed.

(** *** Sending while disconnected, and the flush *)

Section Offline.
Variable env : Env.
Variable cfg : ChatConfig.

Lemma sendMessage_disconnected text opts s w :
  isConnected s = false ->
  sendMessage env cfg text opts s w = enqueue env text opts s w.
Proof.
  intros Hoff. unfold sendMessage, enqueue, processMessageQueue. cbv zeta.
  change (isConnected (with_messageQueue _ s)) with (isConnected s).
  now rewrite Hoff.
Qed.

Lemma enqueue_spec text opts s w :
  let '(s1, w1, k) := enqueue env text opts s w in
  isConnected s1 = isConnected s
  /\ trace w1 = trace w
  /\ queued_pending k s1
  /\ (forall k', queued_pending k' s -> queued_pending k' s1).
Proof.
  unfold enqueue. cbv zeta.
  set (k := uuidv4 env (tick w)).
  set (qm := {| message := _; status := pending |}).
  assert (Hk : queued_pending k (with_messageQueue (Map_set k qm (messageQueue s)) s)).
  { exists qm. split; [apply Map_get_set_same|]. split; reflexivity. }
  repeat split; auto.
  intros k' Hk'. destruct (String.eqb_spec k' k) as [->|Hne]; [exact Hk|].
  destruct Hk' as (qm' & Hg & Hs & Hi).
  exists qm'. split; [|split; assumption].
  simpl. now rewrite Map_get_set_other.
Qed.

Lemma send_all_keeps sends k s w :
  isConnected s = false -> queued_pending k s ->
  queued_pending k (fst (fst (send_all env cfg sends s w))).
Proof.
  revert s w. induction sends as [|[text opts] rest IH]; intros s w Hoff Hk; [exact Hk|].
  simpl. rewrite sendMessage_disconnected by exact Hoff.
  pose proof (enqueue_spec text opts s w) as He.
  destruct (enqueue env text opts s w) as [[s1 w1] k1].
  destruct He as (Hc & _ & _ & Hkeep).
  specialize (IH s1 w1 (eq_trans Hc Hoff) (Hkeep k Hk)).
  destruct (send_all env cfg rest s1 w1) as [[s2 w2] ks]. exact IH.
Qed.

Lemma send_all_disconnected sends s w :
  isConnected s = false ->
  let '(s1, w1, ids) := send_all env cfg sends s w in
  isConnected s1 = false
  /\ trace w1 = trace w
  /\ Forall (fun k => queued_pending k s1) ids.
Proof.
  revert s w. induction sends as [|[text opts] rest IH]; intros s w Hoff.
  - simpl. auto.
  - simpl. rewrite sendMessage_disconnected by exact Hoff.
    pose proof (enqueue_spec text opts s w) as He.
    destruct (enqueue env text opts s w) as [[s1 w1] k1].
    destruct He as (Hc & Ht & Hk1 & _).
    assert (Hoff1 : isConnected s1 = false) by congruence.
    pose proof (@send_all_keeps rest k1 s1 w1 Hoff1 Hk1) as Hkept.
    specialize (IH s1 w1 Hoff1).
    destruct (send_all env cfg rest s1 w1) as [[s2 w2] ks].
    destruct IH as (Hc2 & Ht2 & Hall).
    repeat split; [exact Hc2 | congruence | constructor; assumption].
Qed.

Lemma queued_pending_attempted k s :
  queued_pending k s ->
  exists qm, In qm (pendingMessages s) /\ id (message qm) = k.
Proof.
  intros (qm & Hg & Hs & Hi). exists qm. split; [|exact Hi].
  apply In_pendingMessages; [eapply Map_get_In; exact Hg|].
  unfold awaiting. now rewrite Hs.
Qed.

End Offline.

(** The handler of [setupLiveKitIntegration], taken alone: messages
    sent while the service is not connected cause no delivery attempt;
    when the handler is then called with [connected], the processor runs
    and attempts to deliver the queued messages that await delivery,
    each of the messages just sent among them, in the order of their
    enqueue timestamps, oldest first, and in queue order among equal
    timestamps. *)
Theorem queued_messages_flushed_oldest_first (env : Env) (cfg : ChatConfig)
  (sends : list (string * SendMessageOptions)) (s : t) (w : World)
  (Hoff : isConnected s = false) :
  let '(s1, w1, ids) := send_all env cfg sends s w in
  let '(_, w2) := onConnectionStateChanged env cfg connected s1 w1 in
  delivery_attempts (trace w1) = delivery_attempts (trace w)
  /\ delivery_attempts (trace w2)
     = (delivery_attempts (trace w1) ++ map message (pendingMessages s1))%list
  /\ StronglySorted earlier (pendingMessages s1)
  /\ Permutation (pendingMessages s1) (filter awaiting (Map_values (messageQueue s1)))
  /\ (forall ts0,
        filter (fun qm => timestamp qm =? ts0) (pendingMessages s1)
        = filter (fun qm => timestamp qm =? ts0)
                 (filter awaiting (Map_values (messageQueue s1))))
  /\ Forall (fun k => exists qm, In qm (pendingMessages s1) /\ id (message qm) = k) ids.
Proof.
  pose proof (@send_all_disconnected env cfg sends s w Hoff) as H.
  destruct (send_all env cfg sends s w) as [[s1 w1] ids].
  destruct H as (Hoff1 & Htr & Hall).
  unfold onConnectionStateChanged. cbv zeta.
  change (isConnected (with_isConnected (ConnectionState_eqb connected connected) s1))
    with true.
  rewrite Hoff1. simpl andb. cbv iota.
  pose proof (processMessageQueue_effects env cfg (with_isConnected true s1) w1) as Hp.
  change (with_isConnected (ConnectionState_eqb connected connected) s1)
    with (with_isConnected true s1).
  destruct (processMessageQueue env cfg (with_isConnected true s1) w1) as [s2 w2'].
  destruct Hp as (ext & Hext & Hatt & _).
  change (isConnected (with_isConnected true s1)) with true in Hatt.
  change (pendingMessages (with_isConnected true s1)) with (pendingMessages s1) in Hatt.
  split; [now rewrite Htr|].
  split.
  { rewrite trace_emit, delivery_attempts_app, Hext, delivery_attempts_app, Hatt.
    simpl. now rewrite app_nil_r. }
  split; [apply sort_by_timestamp_sorted|].
  split; [apply sort_by_timestamp_perm|].
  split; [intros ts0; apply sort_by_timestamp_stable|].
  eapply Forall_impl; [|exact Hall].
  intros k Hk. now apply queued_pending_attempted.
Qed.

(** The scenario of the specification: A, then B, sent while
    disconnected; on connection both are attempted, A before B. *)
Lemma queued_messages_flushed_oldest_first_witness :
  let '(s1, w1, ids) :=
    send_all LiveKitService.env_ok cfg3 [("A", no_options); ("B", no_options)]
             init world0 in
  let '(_, w2) := onConnectionStateChanged LiveKitService.env_ok cfg3 connected s1 w1 in
  delivery_attempts (trace w1) = delivery_attempts (trace world0)
  /\ delivery_attempts (trace w2)
     = (delivery_attempts (trace w1) ++ map message (pendingMessages s1))%list
  /\ StronglySorted earlier (pendingMessages s1)
  /\ Permutation (pendingMessages s1) (filter awaiting (Map_values (messageQueue s1)))
  /\ (forall ts0,
        filter (fun qm => timestamp qm =? ts0) (pendingMessages s1)
        = filter (fun qm => timestamp qm =? ts0)
                 (filter awaiting (Map_values (messageQueue s1))))
  /\ Forall (fun k => exists qm, In qm (pendingMessages s1) /\ id (message qm) = k) ids.
Proof.
  apply (@queued_messages_flushed_oldest_first LiveKitService.env_ok cfg3
           [("A", no_options); ("B", no_options)] init world0).
  reflexivity.
Defined.

Example flush_A_then_B :
  let '(s1, w1, _) :=
    send_all LiveKitService.env_ok cfg3 [("A", no_options); ("B", no_options)]
             init world0 in
  let '(_, w2) := onConnectionStateChanged LiveKitService.env_ok cfg3 connected s1 w1 in
  map text (delivery_attempts (trace w1)) = []
  /\ map text (delivery_attempts (trace w2)) = ["A"; "B"].
Proof. vm_compute. split; reflexivity. Qed.

(** *** Control traffic on the wire *)

Lemma user_or_unknown_nonempty u : user_or_unknown u <> "".
Proof. destruct u as [[|c u]|]; discriminate. Qed.

Lemma stringify_object_nonempty fields : JSON.stringify (JObj fields) <> "".
Proof. simpl. discriminate. Qed.

(** A well-formed chat message without sender name reads back from its
    document, passes the validation, and has no [type] member. *)
Lemma of_ChatMessage_valid m :
  senderName m = None -> id m <> "" -> senderId m <> "" -> text m <> "" -> ts m > 0 ->
  JSON.truthy (JSON.get "type" (JSON.of_ChatMessage m)) = false
  /\ isValidChatMessage (JSON.of_ChatMessage m) = true
  /\ as_ChatMessage (JSON.of_ChatMessage m) = m.
Proof.
  destruct m as [i sd sn tx t]. simpl. intros -> Hi Hs Ht Hts.
  unfold JSON.of_ChatMessage, isValidChatMessage, as_ChatMessage, string_member. simpl.
  apply String.eqb_neq in Hi, Hs, Ht. rewrite Hi, Hs, Ht.
  assert (Hgt : (t >? 0) = true) by (apply Z.gtb_lt; lia).
  rewrite Hgt. repeat split.
Qed.

(** Whatever control document is handed to [send_wrapped], what goes to
    [livekitService.sendChatMessage], and from there on the wire, is a
    chat message that carries the document as its text; a peer that
    receives it surfaces it through [onMessageReceived]. *)
Lemma wrapped_document_is_surfaced (env : Env) (cfg : ChatConfig)
  (document : Z -> json) (s : t) (w : World)
  (env' : Env) (s' : t) (w' : World) :
  (forall now, exists fields, document now = JObj fields) ->
  uuidv4 env (S (tick w)) <> "" ->
  Date_now env (S (S (tick w))) > 0 ->
  exists m,
    extends w (fst (send_wrapped env document s w)) [ESendChatMessage m None]
    /\ text m = JSON.stringify (document (Date_now env (tick w)))
    /\ JSON.get "type" (JSON.of_ChatMessage m) = None
    /\ surfaced (trace (snd (handleIncomingData env' cfg
                               (Parsed (JSON.of_ChatMessage m)) s' w')))
       = (surfaced (trace w') ++ [m])%list.
Proof.
  intros Hdoc Hid Hts.
  unfold send_wrapped, sendChatMessage. cbv zeta. simpl fst.
  match goal with
  | |- context [ESendChatMessage ?x None] => set (m := x)
  end.
  exists m. split; [reflexivity|]. split; [reflexivity|].
  destruct (Hdoc (Date_now env (tick w))) as (fields & Hfields).
  destruct (@of_ChatMessage_valid m) as (Htype & Hvalid & Hback);
    try reflexivity; try assumption.
  { apply user_or_unknown_nonempty. }
  { simpl. rewrite Hfields. apply stringify_object_nonempty. }
  split; [reflexivity|].
  rewrite handleIncomingData_valid by assumption.
  simpl snd. rewrite trace_emit, surfaced_app, Hback. simpl. f_equal.
  destruct (negb _); [apply sendDeliveryReceipt_surfaced | reflexivity].
Qed.

(** C7 fails on the code: alice acknowledges the message m1 and starts
    typing.  Both control documents are built with their [type] member,
    but what is handed to [livekitService.sendChatMessage] is a chat
    message whose [text] is the serialised document.  The document on
    the wire has no [type] member at its top level, and bob's service
    hands both to [onMessageReceived] as chat messages. *)
Theorem control_documents_travel_as_chat_messages :
  let alice := with_currentUserId (Some "alice") init in
  let bob := with_currentUserId (Some "bob") init in
  let env := LiveKitService.env_ok in
  exists r i,
    published (trace (sendDeliveryReceipt env "m1" alice world0)) = [r]
    /\ published (trace (snd (sendTypingIndicator env cfg3 true alice world0))) = [i]
    /\ text r = JSON.stringify (DeliveryReceipt "m1" (Date_now env 0))
    /\ text i = JSON.stringify (TypingIndicator "alice" true (Date_now env 0))
    /\ JSON.get "type" (DeliveryReceipt "m1" (Date_now env 0))
       = Some (JStr "delivery_receipt")
    /\ JSON.get "type" (JSON.of_ChatMessage r) = None
    /\ JSON.get "type" (JSON.of_ChatMessage i) = None
    /\ surfaced (trace (snd (handleIncomingData env cfg3
                               (Parsed (JSON.of_ChatMessage r)) bob world0))) = [r]
    /\ surfaced (trace (snd (handleIncomingData env cfg3
                               (Parsed (JSON.of_ChatMessage i)) bob world0))) = [i].
Proof.
  cbv zeta. do 2 eexists.
  split; [vm_compute; reflexivity|].
  split; [vm_compute; reflexivity|].
  repeat split; vm_compute; reflexivity.
Qed.

(** *** Giving up *)

Lemma Map_get_modify_same k f m :
  Map_get k (Map_modify k f m) = option_map f (Map_get k m).
Proof.
  induction m as [|[k' v'] m IH]; simpl; [reflexivity|].
  destruct (String.eqb k' k) eqn:E; simpl; rewrite E; [reflexivity | exact IH].
Qed.

(** The root of it, in general: the branch that gives a message up
    reports the failure and leaves its entry, with status [failed],
    among the messages the next pass of the processor works through. *)
Lemma given_up_entry_stays_eligible (env : Env) (cfg : ChatConfig)
  (qm : QueuedMessage) (s : t) (w : World) (error : Thrown) :
  Map_get (id (message qm)) (messageQueue s) = Some qm ->
  publishData env (tick w) = Some error ->
  (attempts qm + 1 >=? MAX_RETRY_ATTEMPTS cfg) = true ->
  let '(s', w', _) := sendQueuedMessage env cfg qm s w in
  failures (trace w') = (failures (trace w) ++ [id (message qm)])%list
  /\ In (set_status failed (set_attempts (attempts qm + 1) qm)) (pendingMessages s').
Proof.
  intros Hget Hfail Hmax. unfold sendQueuedMessage, sendChatMessage.
  change (tick (emit _ w)) with (tick w). rewrite Hfail, Hmax. split.
  - simpl. rewrite <- app_assoc.
    assert (Happ : forall l1 l2, failures (l1 ++ l2) = (failures l1 ++ failures l2)%list).
    { induction l1 as [|e l1 IH]; intros l2; [reflexivity|].
      destruct e; simpl; rewrite IH; reflexivity. }
    rewrite Happ. reflexivity.
  - apply In_pendingMessages; [|reflexivity].
    eapply Map_get_In. simpl.
    rewrite !Map_get_modify_same, Hget. reflexivity.
Qed.

(** C8 fails on the code: with [MAX_RETRY_ATTEMPTS] = 3 and a channel on
    which every send fails, message A is attempted three times (the send
    and the two retry timers) and reported through [onMessageFailed];
    its entry stays in the queue with status [failed] until the cleanup
    timer runs.  A pass of the processor before that, here the one
    started by sending B, attempts A a fourth time and reports its
    failure a second time. *)
Theorem terminal_failure_is_attempted_again :
  let '(s, w) := run env_send_fails cfg3
                     [OpInitialize "alice"; OpConnectionState connected;
                      OpSendMessage "A" no_options; OpTimer 0; OpTimer 1]
                     (init, world0) in
  let '(s', w') := run env_send_fails cfg3 [OpSendMessage "B" no_options] (s, w) in
  let A := uuidv4 env_send_fails 0 in
  MAX_RETRY_ATTEMPTS cfg3 = 3
  /\ map id (delivery_attempts (trace w)) = [A; A; A]
  /\ failures (trace w) = [A]
  /\ option_map attempts (Map_get A (messageQueue s)) = Some 3
  /\ option_map status (Map_get A (messageQueue s)) = Some failed
  /\ map action (timers s) = [DeleteFromQueue A]
  /\ map text (delivery_attempts (trace w')) = ["A"; "A"; "A"; "A"; "B"]
  /\ failures (trace w') = [A; A]
  /\ option_map attempts (Map_get A (messageQueue s')) = Some 4.
Proof.
  vm_compute. repeat split.
Qed.

End ChatServiceFacts.

(* ================================================================== *)
(** ** The services assembled *)

Module ApplicationFacts.
Import LiveKitServiceIO Application.
Import ChatService ChatServiceFacts.

Lemma deliver_installed env cfg states st :
  deliver env cfg installed states st = st.
Proof.
  revert st. induction states as [|c l IH]; intros st; [reflexivity|].
  unfold deliver in *. simpl. apply IH.
Qed.

Lemma react_installed env cfg e st :
  isConnected (chat st) = false ->
  isConnected (chat (react env cfg installed e st)) = false
  /\ delivery_attempts (trace (channel (react env cfg installed e st)))
     = delivery_attempts (trace (channel st)).
Proof.
  intros Hoff. destruct e as [u|text opts|call]; unfold react.
  - split; [exact Hoff | reflexivity].
  - rewrite (@sendMessage_disconnected env cfg text opts _ (channel st) Hoff).
    pose proof (enqueue_spec env text opts (chat st) (channel st)) as He.
    destruct (enqueue env text opts (chat st) (channel st)) as [[c w] k].
    destruct He as (Hc & Ht & _). simpl. split; congruence.
  - destruct (LiveKitService.perform env call (tokens st, livekit st, network st))
      as [[tk lk] w].
    rewrite deliver_installed. simpl. split; [exact Hoff | reflexivity].
Qed.

(** C9: in the assembled services the flush is never reached.  The
    session service registers its handlers with the connection service
    after the chat service did, so the connection state is handed to the
    session service and the chat service is never told: whatever is
    asked of the services, the chat service stays disconnected and makes
    no delivery attempt.  In the scenario of the specification (A, then
    B, sent before the connection is made) the connection service ends
    connected while A and B stay pending; with the chat service's own
    handler in the slot both are attempted, A before B. *)
Theorem queued_messages_are_never_flushed_when_assembled :
  (forall env cfg events,
      let st := play env cfg installed events start in
      isConnected (chat st) = false
      /\ delivery_attempts (trace (channel st)) = [])
  /\ (let env := LiveKitService.env_ok in
      let events := [Initialize "alice"; SendMessage "A" no_options;
                     SendMessage "B" no_options;
                     Connection (LiveKitService.CallConnect "alice" None)] in
      let st := play env cfg3 installed events start in
      let st' := play env cfg3 (setEventHandlers chat_handlers no_handlers) events start in
      LiveKitService.connectionState (livekit st) = connected
      /\ LiveKitService.notifications (trace (network st)) = [connecting; connected]
      /\ getPendingMessageCount (chat st) = 2%nat
      /\ map text (delivery_attempts (trace (channel st))) = []
      /\ map text (delivery_attempts (trace (channel st'))) = ["A"; "B"]).
Proof.
  split.
  - intros env cfg events. cbv zeta.
    assert (H : forall st,
               isConnected (chat st) = false ->
               isConnected (chat (play env cfg installed events st)) = false
               /\ delivery_attempts (trace (channel (play env cfg installed events st)))
                  = delivery_attempts (trace (channel st))).
    { induction events as [|e l IH]; intros st Hoff; [split; [exact Hoff | reflexivity]|].
      change (play env cfg installed (e :: l) st)
        with (play env cfg installed l (react env cfg installed e st)).
      destruct (@react_installed env cfg e st Hoff) as [H1 H2].
      destruct (IH _ H1) as [H3 H4]. split; [exact H3 | congruence]. }
    apply (H start). reflexivity.
  - vm_compute. repeat split.
Qed.

End ApplicationFacts.

(* ================================================================== *)
(** * Further properties of the code                                   *)
(* ================================================================== *)

(** ** Errors *)

Module ErrorHandlerFacts.
Import ErrorHandler.

Lemma getDefaultUserMessage_nonempty code : getDefaultUserMessage code <> "".
Proof.
  unfold getDefaultUserMessage.
  repeat match goal with
         | |- context [match ?x with _ => _ end] => destruct x
         end; discriminate.
Qed.

(** X1: Every [AppError] the constructor builds carries a user message that
    is not empty, whatever message, code and user message it is given;
    [ErrorHandler.handle] hands an [AppError] back as it is, turns
    everything else into an UNKNOWN_ERROR, and is idempotent. *)
Theorem errors_are_presentable :
  (forall message code userMessage,
      app_userMessage (newAppError message code userMessage) <> "")
  /\ (forall e, handle (ThrownApp e) = e)
  /\ (forall error, handle (ThrownApp (handle error)) = handle error)
  /\ (forall error,
        match error with
        | ThrownApp _ => True
        | _ => app_code (handle error) = Some (CodeStr "UNKNOWN_ERROR")
               /\ app_userMessage (handle error) <> ""
        end).
Proof.
  split; [|split; [|split]].
  - intros message code [[|c u]|]; simpl;
      try apply getDefaultUserMessage_nonempty; discriminate.
  - reflexivity.
  - reflexivity.
  - intros [e|n m|r]; simpl; auto; split; try reflexivity; discriminate.
Qed.

End ErrorHandlerFacts.

(** ** The token service, continued *)

Module TokenServiceMore.
Import TokenService.

(** X2: The cache of [getValidToken]: with a token and an expiry, a call
    before [expiresAt - TOKEN_REFRESH_BUFFER] hands the cached token
    back without any request and without touching the state; a call at
    that instant or later requests a new token. *)
Theorem getValidToken_cache (env : Env) (u : string) (opts : option TokenRequest)
  (s : t) (w : World) (tok : string) (expiresAt : Z)
  (Htok : currentToken s = Some tok) (Hne : tok <> "")
  (Hexp : tokenExpiresAt s = Some expiresAt) (Hnz : expiresAt <> 0) :
  if Date_now env (tick w) <? expiresAt - 60000
  then getValidToken env u opts s w = (s, step w, Ok tok)
       /\ fetch_count (trace (step w)) = fetch_count (trace w)
  else getValidToken env u opts s w
       = match requestToken env u opts s (step w) with
         | (s', w', Ok tokenResponse) => (s', w', Ok (token tokenResponse))
         | (s', w', Throw e) => (s', w', Throw e)
         end.
Proof.
  unfold getValidToken, isTokenValid. rewrite Htok, Hexp.
  destruct tok as [|c tok]; [congruence|].
  destruct expiresAt as [|e|e]; [congruence| |];
    change (APP_CONFIG.TOKEN_REFRESH_BUFFER) with 60000;
    destruct (Date_now env (tick w) <? _); auto.
Qed.

Lemma getValidToken_cache_witness :
  let s := {| currentToken := Some "jwt"; tokenExpiresAt := Some 1700000100000;
              refreshTimer := None |} in
  if Date_now env_timeouts (tick world0) <? 1700000100000 - 60000
  then getValidToken env_timeouts "alice" None s world0 = (s, step world0, Ok "jwt")
       /\ fetch_count (trace (step world0)) = fetch_count (trace world0)
  else getValidToken env_timeouts "alice" None s world0
       = match requestToken env_timeouts "alice" None s (step world0) with
         | (s', w', Ok tokenResponse) => (s', w', Ok (token tokenResponse))
         | (s', w', Throw e) => (s', w', Throw e)
         end.
Proof.
  cbv zeta.
  apply (@getValidToken_cache env_timeouts "alice" None
           {| currentToken := Some "jwt"; tokenExpiresAt := Some 1700000100000;
              refreshTimer := None |} world0 "jwt" 1700000100000).
  - reflexivity.
  - discriminate.
  - reflexivity.
  - discriminate.
Defined.

(** X3: Without a token, or without an expiry for it, nothing is cached:
    [getValidToken] goes straight to [requestToken], without reading the
    clock.  This is the case after [clearToken], and after a response
    that carried no [expires_at] when none was known before. *)
Theorem getValidToken_without_expiry (env : Env) (u : string)
  (opts : option TokenRequest) (s : t) (w : World)
  (Hnone : hasToken s = false \/ tokenExpiresAt s = None \/ tokenExpiresAt s = Some 0) :
  getValidToken env u opts s w
  = match requestToken env u opts s w with
    | (s', w', Ok tokenResponse) => (s', w', Ok (token tokenResponse))
    | (s', w', Throw e) => (s', w', Throw e)
    end
  /\ hasToken (clearToken s) = false.
Proof.
  split; [|reflexivity].
  unfold getValidToken, isTokenValid, hasToken in *.
  destruct (currentToken s) as [[|c tok]|]; try reflexivity.
  destruct Hnone as [H|[H|H]]; [discriminate| |]; rewrite H; reflexivity.
Qed.

Lemma getValidToken_without_expiry_witness :
  getValidToken env_timeouts "alice" None (clearToken init) world0
  = match requestToken env_timeouts "alice" None (clearToken init) world0 with
    | (s', w', Ok tokenResponse) => (s', w', Ok (token tokenResponse))
    | (s', w', Throw e) => (s', w', Throw e)
    end
  /\ hasToken (clearToken (clearToken init)) = false.
Proof.
  apply (@getValidToken_without_expiry env_timeouts "alice" None (clearToken init) world0).
  left. reflexivity.
Defined.


(** X4: What [requestToken] does to the cache.  A failed request leaves the
    service exactly as it was and throws an [AppError].  A successful
    one stores the (non-empty) token; when the response carries an
    expiry it stores it too and arms the refresh timer with the time
    left, on the clock read once the response is in, until [expires_at -
    TOKEN_REFRESH_BUFFER], and with 0 when that moment has passed; when
    it carries none, the expiry and the timer known before are kept. *)
Theorem requestToken_cache_effect (env : Env) (u : string)
  (opts : option TokenRequest) (s : t) (w : World) :
  let '(w1, _) :=
    fetchWithRetry env u
      (or_default (option_field opts provider) LIVEKIT_CONFIG.DEFAULT_PROVIDER)
      (or_default (option_field opts voice_id) LIVEKIT_CONFIG.DEFAULT_VOICE_ID) w in
  let '(s', w', r) := requestToken env u opts s w in
  match r with
  | Throw error => s' = s /\ w' = w1 /\ exists e, error = ThrownApp e
  | Ok tokenData =>
      token tokenData <> ""
      /\ currentToken s' = Some (token tokenData)
      /\ match expires_at tokenData with
         | None | Some 0 =>
             tokenExpiresAt s' = tokenExpiresAt s /\ refreshTimer s' = refreshTimer s
             /\ w' = w1
         | Some e =>
             let now := Date_now env (tick w1) in
             tokenExpiresAt s' = Some e
             /\ refreshTimer s'
                = Some (mkRefreshTimer
                          (Z.max 0 (e - APP_CONFIG.TOKEN_REFRESH_BUFFER - now)) u opts)
             /\ (if now <? e - APP_CONFIG.TOKEN_REFRESH_BUFFER
                 then option_map refresh_delay (refreshTimer s')
                      = Some (e - APP_CONFIG.TOKEN_REFRESH_BUFFER - now)
                 else option_map refresh_delay (refreshTimer s') = Some 0)
             /\ w' = step w1
         end
  end.
Proof.
  unfold requestToken.
  destruct (fetchWithRetry env u _ _ w) as [w1 [resp|e]] eqn:E.
  2:{ split; [reflexivity | split; [reflexivity | eexists; reflexivity]]. }
  destruct (negb (ok resp));
    [split; [reflexivity | split; [reflexivity | eexists; reflexivity]]|].
  destruct (body resp) as [tokenData|];
    [|split; [reflexivity | split; [reflexivity | eexists; reflexivity]]].
  destruct (String.eqb_spec (token tokenData) "") as [He|He];
    [split; [reflexivity | split; [reflexivity | eexists; reflexivity]]|].
  destruct (expires_at tokenData) as [[|e|e]|] eqn:Ee;
    cbn -[Z.sub Z.max Z.ltb]; rewrite ?Ee; repeat split; auto.
  - destruct (Z.ltb_spec (Date_now env (tick w1)) (Z.pos e - APP_CONFIG.TOKEN_REFRESH_BUFFER));
      cbn -[Z.sub Z.max Z.ltb]; f_equal; lia.
  - destruct (Z.ltb_spec (Date_now env (tick w1)) (Z.neg e - APP_CONFIG.TOKEN_REFRESH_BUFFER));
      cbn -[Z.sub Z.max Z.ltb]; f_equal; lia.
Qed.

Lemma requestToken_stored (env : Env) (u : string) (opts : option TokenRequest)
  (s s1 : t) (w w1 : World) (tokenData : TokenResponse) :
  requestToken env u opts s w = (s1, w1, Ok tokenData) ->
  token tokenData <> ""
  /\ currentToken s1 = Some (token tokenData)
  /\ forall e, expires_at tokenData = Some e -> e <> 0 -> tokenExpiresAt s1 = Some e.
Proof.
  unfold requestToken.
  destruct (fetchWithRetry env u _ _ w) as [w2 [resp|e]]; [|discriminate].
  destruct (negb (ok resp)); [discriminate|].
  destruct (body resp) as [td|]; [|discriminate].
  destruct (String.eqb_spec (token td) "") as [He|He]; [discriminate|].
  destruct (expires_at td) as [[|e|e]|] eqn:Ee; cbn -[Z.sub Z.max];
    intros H; inversion H; subst; clear H; rewrite ?Ee;
    (split; [exact He|]); (split; [reflexivity|]);
    intros e0 H0 Hnz; inversion H0; subst; try congruence; reflexivity.
Qed.

(** X5: Request, then ask: after a successful [requestToken] whose response
    carries an expiry, [getValidToken] hands that token back, without a
    request, as long as the clock is before the expiry minus the
    refresh buffer. *)
Theorem requestToken_then_getValidToken (env : Env) (u u' : string)
  (opts opts' : option TokenRequest) (s s1 : t) (w w1 : World)
  (tokenData : TokenResponse) (expiresAt : Z)
  (Hreq : requestToken env u opts s w = (s1, w1, Ok tokenData))
  (Hexp : expires_at tokenData = Some expiresAt) (Hnz : expiresAt <> 0)
  (Hclock : Date_now env (tick w1) < expiresAt - APP_CONFIG.TOKEN_REFRESH_BUFFER) :
  getValidToken env u' opts' s1 w1 = (s1, step w1, Ok (token tokenData))
  /\ getCurrentToken s1 = Some (token tokenData)
  /\ hasToken s1 = true.
Proof.
  destruct (@requestToken_stored env u opts s s1 w w1 tokenData Hreq) as (Hne & Htok & H).
  assert (Hs1 : tokenExpiresAt s1 = Some expiresAt) by (now apply H).
  unfold getValidToken, isTokenValid, getCurrentToken, hasToken.
  rewrite Htok, Hs1.
  destruct (token tokenData) as [|c tok]; [congruence|].
  apply Z.ltb_lt in Hclock.
  destruct expiresAt as [|e|e]; [congruence| |]; rewrite Hclock; auto.
Qed.

Lemma requestToken_then_getValidToken_witness :
  let r := requestToken env_token_with_expiry "alice" None init world0 in
  let s1 := fst (fst r) in
  let w1 := snd (fst r) in
  getValidToken env_token_with_expiry "alice" None s1 w1 = (s1, step w1, Ok "jwt")
  /\ getCurrentToken s1 = Some "jwt"
  /\ hasToken s1 = true.
Proof.
  cbv zeta.
  apply (@requestToken_then_getValidToken env_token_with_expiry "alice" "alice"
           None None init _ world0 _
           {| token := "jwt"; url := None; expires_at := Some 1700000600000 |}
           1700000600000).
  - reflexivity.
  - reflexivity.
  - discriminate.
  - vm_compute. reflexivity.
Defined.

(** X6: An error that is neither a timeout nor a NetworkError ends the loop
    at once: one [fetch], no wait, and the caller gets the NETWORK_ERROR
    [AppError] whatever the error was. *)
Theorem fetchWithRetry_gives_up_on_other_errors (env : Env) (u p v : string)
  (w : World) (error : Thrown)
  (Hrej : fetch env (tick w) = Rejected error)
  (Hother : retryable error = false) :
  fetchWithRetry env u p v w
  = (step (emit (EFetch u p v) w), Throw (ThrownApp ErrorHandler.handleNetworkError)).
Proof.
  unfold fetchWithRetry. simpl. rewrite Hrej, Hother. reflexivity.
Qed.

Lemma fetchWithRetry_gives_up_on_other_errors_witness :
  let env := {| fetch := fun _ => Rejected (ThrownError "TypeError" "Failed to fetch");
                random250 := random250 env_timeouts;
                Date_now := Date_now env_timeouts;
                uuidv4 := uuidv4 env_timeouts;
                room_connect := room_connect env_timeouts;
                room_disconnect := room_disconnect env_timeouts;
                publishData := publishData env_timeouts |} in
  fetchWithRetry env "alice" "elevenlabs" "voice" world0
  = (step (emit (EFetch "alice" "elevenlabs" "voice") world0),
     Throw (ThrownApp ErrorHandler.handleNetworkError)).
Proof.
  cbv zeta.
  apply (@fetchWithRetry_gives_up_on_other_errors _ "alice" "elevenlabs" "voice" world0
           (ThrownError "TypeError" "Failed to fetch")); reflexivity.
Defined.

(** X7: A response ends the loop whenever it comes: after one retried
    failure, the answer to the second request is handed back, of
    whatever status, after one wait of the base delay plus jitter. *)
Theorem fetchWithRetry_recovers (env : Env) (u p v : string) (w : World)
  (error : Thrown) (r : Response)
  (Hrej : fetch env (tick w) = Rejected error)
  (Hretry : retryable error = true)
  (Hres : fetch env (S (S (tick w))) = Resolved r) :
  exists w',
    fetchWithRetry env u p v w = (w', Ok r)
    /\ extends w w' [EFetch u p v;
                     ESleep (APP_CONFIG.RETRY_BASE_DELAY + random250 env (S (tick w)));
                     EFetch u p v].
Proof.
  eexists. unfold fetchWithRetry. simpl. rewrite Hrej. simpl.
  rewrite Hretry. simpl. rewrite Hres. split; [reflexivity|].
  unfold extends. simpl. now rewrite <- !app_assoc.
Qed.

Lemma fetchWithRetry_recovers_witness :
  let env := {| fetch := fun n => match n with
                                  | O => Rejected AbortError
                                  | _ => fetch env_token_with_expiry n
                                  end;
                random250 := random250 env_timeouts;
                Date_now := Date_now env_timeouts;
                uuidv4 := uuidv4 env_timeouts;
                room_connect := room_connect env_timeouts;
                room_disconnect := room_disconnect env_timeouts;
                publishData := publishData env_timeouts |} in
  exists w',
    fetchWithRetry env "alice" "elevenlabs" "voice" world0
    = (w', Ok {| status := 200; statusText := "OK";
                 body := Some {| token := "jwt"; url := None;
                                 expires_at := Some 1700000600000 |} |})
    /\ extends world0 w'
         [EFetch "alice" "elevenlabs" "voice";
          ESleep (APP_CONFIG.RETRY_BASE_DELAY + random250 env 1%nat);
          EFetch "alice" "elevenlabs" "voice"].
Proof.
  cbv zeta.
  apply (@fetchWithRetry_recovers _ "alice" "elevenlabs" "voice" world0 AbortError);
    reflexivity.
Defined.

End TokenServiceMore.

(** ** The cleanup registry *)

Module LifecycleManagerFacts.
Import LifecycleManager.

Lemma insert_by_priority_perm x l : Permutation (insert_by_priority x l) (x :: l).
Proof.
  induction l as [|y l IH]; simpl; [reflexivity|].
  destruct (priority x <=? priority y); [reflexivity|].
  rewrite IH. apply perm_swap.
Qed.

Lemma sort_by_priority_perm l : Permutation (sort_by_priority l) l.
Proof.
  induction l as [|x l IH]; simpl; [reflexivity|].
  rewrite insert_by_priority_perm. now constructor.
Qed.

Lemma insert_by_priority_sorted x l :
  StronglySorted before l -> StronglySorted before (insert_by_priority x l).
Proof.
  induction 1 as [|y l Hs IH Hy]; simpl.
  - repeat constructor.
  - destruct (Z.leb_spec (priority x) (priority y)) as [Hle|Hgt].
    + constructor; [constructor; assumption|].
      constructor; [exact Hle|].
      eapply Forall_impl; [|exact Hy]. unfold before. intros; lia.
    + constructor; [exact IH|].
      rewrite Forall_forall. intros z Hz.
      apply (Permutation_in _ (insert_by_priority_perm x l)) in Hz.
      destruct Hz as [<-|Hz].
      * unfold before. lia.
      * rewrite Forall_forall in Hy. now apply Hy.
Qed.

Lemma sort_by_priority_sorted l : StronglySorted before (sort_by_priority l).
Proof.
  induction l as [|x l IH]; simpl; [constructor|].
  now apply insert_by_priority_sorted.
Qed.

(** Where the sort puts a function appended to a sorted list: behind
    the functions of lower or equal priority, before the others. *)
Lemma sort_appended x l :
  StronglySorted before l ->
  sort_by_priority (l ++ [x])
  = (filter (fun f => priority f <=? priority x) l
       ++ x :: filter (fun f => negb (priority f <=? priority x)) l)%list.
Proof.
  induction 1 as [|a l Hs IH Ha]; [reflexivity|].
  simpl. rewrite IH. clear IH.
  rewrite Forall_forall in Ha. unfold before in Ha.
  destruct (Z.leb_spec (priority a) (priority x)) as [Hle|Hgt]; simpl.
  - (* a goes to the front *)
    destruct (filter (fun f => priority f <=? priority x) l) as [|b lo] eqn:Elo; simpl.
    + destruct (Z.leb_spec (priority a) (priority x)); [reflexivity | lia].
    + assert (Hb : In b l).
      { assert (In b (filter (fun f => priority f <=? priority x) l))
          by (rewrite Elo; now left).
        apply filter_In in H. tauto. }
      specialize (Ha b Hb).
      destruct (Z.leb_spec (priority a) (priority b)); [reflexivity | lia].
  - (* every function of [l] has a priority above that of [x] *)
    assert (Hlo : filter (fun f => priority f <=? priority x) l = []).
    { induction l as [|b l IHl]; [reflexivity|]. simpl.
      assert (priority a <= priority b) by (apply Ha; now left).
      destruct (Z.leb_spec (priority b) (priority x)); [lia|].
      apply IHl; [now inversion Hs|]. intros z Hz. apply Ha. now right. }
    assert (Hhi : filter (fun f => negb (priority f <=? priority x)) l = l).
    { clear Hlo. induction l as [|b l IHl]; [reflexivity|]. simpl.
      assert (priority a <= priority b) by (apply Ha; now left).
      destruct (Z.leb_spec (priority b) (priority x)); [lia|]. simpl.
      f_equal. apply IHl; [now inversion Hs|]. intros z Hz. apply Ha. now right. }
    rewrite Hlo, Hhi. simpl.
    destruct (Z.leb_spec (priority a) (priority x)); [lia|].
    f_equal. destruct l as [|b l]; [reflexivity|]. simpl.
    assert (priority a <= priority b) by (apply Ha; now left).
    destruct (Z.leb_spec (priority a) (priority b)); [reflexivity | lia].
Qed.

Lemma remove_first_In f n l : In f (remove_first n l) -> In f l.
Proof.
  induction l as [|g l IH]; simpl; [auto|].
  destruct (String.eqb (name g) n); [now right|].
  intros [<-|H]; [now left | right; now apply IH].
Qed.

Lemma remove_first_other f n l :
  name f <> n -> In f l -> In f (remove_first n l).
Proof.
  intros Hne. induction l as [|g l IH]; simpl; [auto|].
  destruct (String.eqb_spec (name g) n) as [E|E].
  - intros [<-|H]; [congruence | exact H].
  - intros [<-|H]; [now left | right; now apply IH].
Qed.

Lemma remove_first_absent n l : ~ In n (map name l) -> remove_first n l = l.
Proof.
  induction l as [|g l IH]; simpl; [reflexivity|].
  intros Hn. destruct (String.eqb_spec (name g) n) as [E|E].
  - exfalso. apply Hn. now left.
  - f_equal. apply IH. intros H. apply Hn. now right.
Qed.

Lemma remove_first_names n l :
  NoDup (map name l) ->
  NoDup (map name (remove_first n l)) /\ ~ In n (map name (remove_first n l)).
Proof.
  induction l as [|g l IH]; simpl; intros Hnd.
  - split; [constructor | auto].
  - inversion Hnd as [|x xs Hx Hl]; subst.
    destruct (String.eqb_spec (name g) n) as [E|E].
    + subst. split; assumption.
    + destruct (IH Hl) as [IH1 IH2]. simpl. split.
      * constructor; [|exact IH1].
        intros Hin. apply Hx. apply in_map_iff in Hin.
        destruct Hin as (f & Hf & Hin). apply remove_first_In in Hin.
        apply in_map_iff. eauto.
      * intros [H|H]; [congruence | contradiction].
Qed.

Lemma remove_first_sorted n l :
  StronglySorted before l -> StronglySorted before (remove_first n l).
Proof.
  induction 1 as [|g l Hs IH Hg]; simpl; [constructor|].
  destruct (String.eqb (name g) n); [exact Hs|].
  constructor; [exact IH|].
  rewrite Forall_forall in *. intros z Hz. apply Hg. eapply remove_first_In; eauto.
Qed.

Lemma register_ok n c p s : registry_ok s -> registry_ok (register n c p s).
Proof.
  intros (Hnd & Hs & Hf). unfold register. rewrite Hf. simpl.
  destruct (@remove_first_names n _ Hnd) as [H1 H2].
  split; [|split; [apply sort_by_priority_sorted | exact Hf]].
  eapply Permutation_NoDup.
  - apply Permutation_map. symmetry. apply sort_by_priority_perm.
  - rewrite map_app. simpl. apply NoDup_app; [exact H1 | repeat constructor; auto |].
    intros a Ha [<-|[]]. contradiction.
Qed.

Lemma serve_ok r s : registry_ok s -> registry_ok (serve r s).
Proof.
  intros H. destruct r as [n c p|n| |]; simpl.
  - now apply register_ok.
  - destruct H as (Hnd & Hs & Hf). split; [|split; [|exact Hf]]; simpl.
    + apply (@remove_first_names n _ Hnd).
    + now apply remove_first_sorted.
  - destruct H as (Hnd & Hs & Hf). unfold cleanup. rewrite Hf.
    unfold runCleanup. simpl. destruct (run_each (cleanupFunctions s)). simpl.
    repeat split; constructor.
  - exact H.
Qed.

Lemma new_ok : registry_ok new.
Proof. apply register_ok. repeat split; constructor. Qed.

Lemma serve_all_ok rs s : registry_ok s -> registry_ok (serve_all rs s).
Proof.
  revert s. induction rs as [|r rs IH]; intros s H; [exact H|].
  apply IH. now apply serve_ok.
Qed.

Lemma run_each_names l : fst (run_each l) = map name l.
Proof.
  induction l as [|f l IH]; [reflexivity|].
  simpl. destruct (run_each l). simpl in *. now rewrite IH.
Qed.

(** X8: Whatever was registered and unregistered before, the registry holds
    each name once, in the order of the priorities, and [cleanup] calls
    every registered function exactly once, in that order, those behind
    a function that throws included; it leaves the registry empty, so
    that a second [cleanup] calls nothing. *)
Theorem cleanup_runs_each_function_once (rs : list Request) :
  let s := serve_all rs new in
  let '(s1, ran) := cleanup s in
  let '(s2, ran') := cleanup s1 in
  ran = getCleanupNames s
  /\ NoDup ran
  /\ StronglySorted before (cleanupFunctions s)
  /\ getCleanupCount s1 = O
  /\ isCleaningUp s1 = false
  /\ ran' = []
  /\ s2 = s1.
Proof.
  cbv zeta.
  destruct (serve_all_ok rs new_ok) as (Hnd & Hs & Hf).
  set (s := serve_all rs new) in *.
  assert (Hc : cleanup s = ({| cleanupFunctions := []; isCleaningUp := false |},
                            map name (cleanupFunctions s))).
  { unfold cleanup. rewrite Hf. unfold runCleanup. simpl.
    pose proof (run_each_names (cleanupFunctions s)) as Hn.
    destruct (run_each (cleanupFunctions s)) as [ran errors]. simpl in *.
    now subst ran. }
  rewrite Hc. simpl. repeat split; auto.
Qed.

(** X9: Registration under a name replaces what was registered under it:
    afterwards the name is held once, by the new function, which stands
    behind every other function of lower or equal priority and before
    those of higher priority; the other functions keep their order. *)
Theorem register_replaces_and_places (rs : list Request) (n : string)
  (c : option Thrown) (p : Z) :
  let s := serve_all rs new in
  let others := remove_first n (cleanupFunctions s) in
  cleanupFunctions (register n c p s)
  = (filter (fun f => priority f <=? p) others
       ++ mkCleanup n c p :: filter (fun f => negb (priority f <=? p)) others)%list
  /\ ~ In n (map name others)
  /\ (forall f, name f <> n -> (In f others <-> In f (cleanupFunctions s))).
Proof.
  cbv zeta.
  destruct (serve_all_ok rs new_ok) as (Hnd & Hs & Hf).
  set (s := serve_all rs new) in *.
  split; [|split].
  - unfold register. rewrite Hf. simpl.
    apply (@sort_appended (mkCleanup n c p)). now apply remove_first_sorted.
  - apply (@remove_first_names n _ Hnd).
  - intros f Hne. split; [apply remove_first_In | now apply remove_first_other].
Qed.

(** X10: [unregister] of a name that is not registered changes nothing; of a
    registered name, it removes the function of that name and no other. *)
Theorem unregister_removes_the_name (rs : list Request) (n : string) :
  let s := serve_all rs new in
  ~ In n (getCleanupNames (unregister n s))
  /\ (forall f, name f <> n ->
                (In f (cleanupFunctions (unregister n s)) <-> In f (cleanupFunctions s)))
  /\ (if existsb (String.eqb n) (getCleanupNames s)
      then getCleanupCount s = S (getCleanupCount (unregister n s))
      else unregister n s = s).
Proof.
  cbv zeta.
  destruct (serve_all_ok rs new_ok) as (Hnd & Hs & Hf).
  set (s := serve_all rs new) in *. clearbody s.
  split; [apply (@remove_first_names n _ Hnd)|]. split.
  - intros f Hne. split; [apply remove_first_In | now apply remove_first_other].
  - destruct (existsb (String.eqb n) (getCleanupNames s)) eqn:E.
    + apply existsb_exists in E. destruct E as (x & Hx & Heq).
      apply String.eqb_eq in Heq. subst x.
      unfold getCleanupCount, getCleanupNames, unregister in *. simpl.
      clear Hnd Hs Hf. induction (cleanupFunctions s) as [|g l IH]; [contradiction|].
      simpl in *. destruct (String.eqb_spec (name g) n) as [E|E]; [reflexivity|].
      simpl. f_equal. apply IH. destruct Hx; [congruence | assumption].
    + unfold unregister. rewrite remove_first_absent; [now destruct s|].
      intros Hin.
      assert (existsb (String.eqb n) (getCleanupNames s) = true).
      { apply existsb_exists. exists n. split; [exact Hin | apply String.eqb_refl]. }
      congruence.
Qed.

(** X11: The page-unload path calls every registered function and keeps the
    registry as it is: a [cleanup] that follows calls each of them a
    second time. *)
Theorem page_unload_keeps_the_registry (rs : list Request) :
  let s := serve_all rs new in
  let '(s1, ran) := runSyncCleanup s in
  let '(_, ran') := cleanup s1 in
  s1 = s /\ ran = getCleanupNames s /\ ran' = ran.
Proof.
  cbv zeta.
  destruct (serve_all_ok rs new_ok) as (Hnd & Hs & Hf).
  set (s := serve_all rs new) in *.
  unfold runSyncCleanup, cleanup. rewrite Hf. unfold runCleanup. simpl.
  pose proof (run_each_names (cleanupFunctions s)) as Hn.
  destruct (run_each (cleanupFunctions s)) as [ran errors]. simpl in *.
  subst ran. auto.
Qed.

End LifecycleManagerFacts.

(** ** The connection service, continued *)

Module LiveKitServiceIOFacts.
Import LiveKitService LiveKitServiceIO.
Import LiveKitServiceFacts.

Section WithEnv.
Variable env : Env.

Lemma disconnect_releases tk s w :
  let '(_, s', _, r) := disconnect env tk s w in
  match r with
  | Ok _ => room s' = None
  | Throw _ => room s' = room s
  end.
Proof.
  unfold disconnect.
  destruct (stopAudioLevelMonitoring_spec s) as [Hcs Hrs].
  set (s1 := stopAudioLevelMonitoring s) in *.
  assert (Hfin : forall tk0 s0 w0, room s0 = None ->
             let '(_, s', _, r) :=
               (let tk1 := TokenService.clearToken tk0 in
                let '(s2, w1) := updateConnectionState disconnected s0 w0 in
                let '(s3, w2) :=
                  updateAudioState {| isMuted := true; isPublishing := false;
                                      hasPermission := false; audioLevel := 0 |} s2 w1 in
                (tk1, s3, w2, @Ok unit tt)) in
             match r with Ok _ => room s' = None | Throw _ => room s' = room s end).
  { intros tk0 s0 w0 Hr0. cbv zeta.
    update_state disconnected s0 w0 s2 w1.
    match goal with |- context [updateAudioState ?a s2 w1] =>
      pose proof (updateAudioState_spec a s2 w1) as Ha;
      destruct (updateAudioState a s2 w1) as [s3 w2] end.
    destruct Ha as (Ha1 & Ha2 & _). congruence. }
  destruct (room s1) as [r0|] eqn:Er.
  - destruct (room_disconnect env _) as [error|].
    + congruence.
    + apply Hfin. reflexivity.
  - apply Hfin. exact Er.
Qed.

Lemma connect_keeps_room u rn tk s w :
  let '(_, s', _, _) := connect env u rn tk s w in
  match TokenService.getValidToken env u None tk w with
  | (_, _, Ok _) => room s' <> None
  | (_, _, Throw _) => room s' = room s
  end.
Proof.
  unfold connect.
  destruct (TokenService.getValidToken env u None tk w) as [[tk1 w1] [tok|e]].
  2:{ update_state failed s w1 s' w'. assumption. }
  assert (Hroom : exists s1 w2,
             match room s with
             | Some _ => (s, w1)
             | None => (with_room (Some RoomHandle) s, emit ENewRoom w1)
             end = (s1, w2) /\ room s1 <> None).
  { destruct (room s) eqn:Er; do 2 eexists; (split; [reflexivity|]).
    - congruence.
    - discriminate. }
  destruct Hroom as (s1 & w2 & -> & Hr1).
  update_state connecting s1 w2 s2 w3.
  destruct (room_connect env _) as [error|].
  - update_state failed s2 (step (emit (ERoomConnect tok) w3)) s' w'. congruence.
  - update_state connected s2 (step (emit (ERoomConnect tok) w3)) s' w'.
    simpl. congruence.
Qed.

End WithEnv.

(** X12: The data channel is guarded by the room object, not by the
    connection state.  Without a room ([init], or after a [disconnect]
    that returned) [sendChatMessage] throws NOT_CONNECTED and hands
    nothing to [publishData].  After a [connect] that obtained a token,
    whether the room accepted the connection or the state is [failed],
    the room object exists and the message is handed to [publishData] as
    the JSON text of the chat message. *)
Theorem sendChatMessage_needs_the_room (env : Env) (u : string) (rn : option string)
  (tk : TokenService.t) (s : t) (w : World) (m : ChatMessage) (publish : option Thrown) :
  sendChatMessage m publish init = (Throw (ThrownApp NOT_CONNECTED), None)
  /\ (let '(_, s', _, r) := disconnect env tk s w in
      match r with
      | Ok _ => sendChatMessage m publish s' = (Throw (ThrownApp NOT_CONNECTED), None)
      | Throw _ => True
      end)
  /\ (let '(_, s', _, _) := connect env u rn tk s w in
      match TokenService.getValidToken env u None tk w with
      | (_, _, Ok _) =>
          snd (sendChatMessage m publish s')
          = Some (JSON.stringify (JSON.of_ChatMessage m))
      | (_, _, Throw _) => True
      end).
Proof.
  split; [reflexivity|]. split.
  - pose proof (disconnect_releases env tk s w) as H.
    destruct (disconnect env tk s w) as [[[tk' s'] w'] [[]|e]]; [|exact I].
    unfold sendChatMessage. now rewrite H.
  - pose proof (connect_keeps_room env u rn tk s w) as H.
    destruct (connect env u rn tk s w) as [[[tk' s'] w'] r].
    destruct (TokenService.getValidToken env u None tk w) as [[tk1 w1] [tok|e]]; [|exact I].
    unfold sendChatMessage. destruct (room s'); [|congruence].
    destruct publish; reflexivity.
Qed.

(** X13: [enableMicrophone] either fails and changes nothing (no state, no
    notification), throwing an [AppError], or succeeds: then there was a
    room, the track was created and published, the microphone is
    unmuted, publishing and permitted, the level it reported is kept,
    level monitoring runs, and the connection state is as before. *)
Theorem enableMicrophone_all_or_nothing (create publish : option Thrown)
  (s : t) (w : World) :
  let '(s', w', r) := enableMicrophone create publish s w in
  match r with
  | Throw error => s' = s /\ w' = w /\ exists e, error = ThrownApp e
  | Ok _ =>
      room s <> None /\ create = None /\ publish = None
      /\ audioState s' = {| isMuted := false; isPublishing := true;
                            hasPermission := true;
                            audioLevel := audioLevel (audioState s) |}
      /\ audioLevelTimer s' = true
      /\ connectionState s' = connectionState s
      /\ room s' = room s
  end.
Proof.
  unfold enableMicrophone, microphone_error.
  destruct (room s) eqn:Er.
  2:{ repeat split. eexists; reflexivity. }
  destruct create as [e|].
  { repeat split. destruct e as [a|n msg|v]; try (eexists; reflexivity).
    destruct (String.eqb n "NotAllowedError"); eexists; reflexivity. }
  destruct publish as [e|].
  { repeat split. destruct e as [a|n msg|v]; try (eexists; reflexivity).
    destruct (String.eqb n "NotAllowedError"); eexists; reflexivity. }
  unfold updateAudioState, startAudioLevelMonitoring, stopAudioLevelMonitoring.
  destruct (negb _); simpl; destruct (audioLevelTimer s); simpl;
    repeat split; auto; congruence.
Qed.

(** X14: [disableMicrophone] stops level monitoring as soon as there is a
    room.  When every track is unpublished it ends muted, not
    publishing, with level 0 and the permission it had; when a track
    cannot be unpublished it throws and the audio state is left as it
    was (still publishing), with monitoring already stopped. *)
Theorem disableMicrophone_outcome (unpublish : list (option Thrown)) (s : t) (w : World) :
  let '(s', w', r) := disableMicrophone unpublish s w in
  match room s, r with
  | None, _ => r = Throw (ThrownApp NOT_CONNECTED) /\ s' = s /\ w' = w
  | Some _, Ok _ =>
      Forall (fun o => o = None) unpublish
      /\ audioLevelTimer s' = false
      /\ audioState s' = {| isMuted := true; isPublishing := false;
                            hasPermission := hasPermission (audioState s);
                            audioLevel := 0 |}
  | Some _, Throw _ =>
      Exists (fun o => o <> None) unpublish
      /\ audioLevelTimer s' = false
      /\ audioState s' = audioState s
      /\ w' = w
  end.
Proof.
  unfold disableMicrophone.
  destruct (room s) eqn:Er; [|auto].
  assert (Hst : audioLevelTimer (stopAudioLevelMonitoring s) = false
                /\ audioState (stopAudioLevelMonitoring s) = audioState s).
  { unfold stopAudioLevelMonitoring. destruct (audioLevelTimer s) eqn:E; auto. }
  destruct Hst as [Ht Ha].
  destruct (unpublish_each unpublish) as [error|] eqn:Eu.
  - repeat split; auto.
    clear - Eu. induction unpublish as [|[e|] l IH]; simpl in Eu; try discriminate.
    + left. discriminate.
    + right. auto.
  - unfold updateAudioState. rewrite Ha.
    assert (Hall : Forall (fun o : option Thrown => o = None) unpublish).
    { clear - Eu. induction unpublish as [|[e|] l IH]; simpl in Eu; try discriminate;
        constructor; auto. }
    destruct (negb _); simpl; repeat split; auto.
Qed.

(** X15: One handler per event: a registration replaces the handler of every
    event it names and keeps the others, so registrations compose as one
    right-biased merge.  When the chat service registers first and the
    session service after it, the three events the chat service
    subscribed to (connection state, data, error) are all held by the
    session service, and the chat service holds no slot. *)
Theorem setEventHandlers_last_wins :
  (forall (H : Type) (a b c : LiveKitEventHandlers H),
      setEventHandlers c (setEventHandlers b a)
      = setEventHandlers (setEventHandlers c b) a)
  /\ (forall (H : Type) (a : LiveKitEventHandlers H),
        setEventHandlers no_handlers a = a /\ setEventHandlers a no_handlers = a)
  /\ (let installed :=
        setEventHandlers auth_handlers (setEventHandlers chat_handlers no_handlers) in
      onConnectionStateChanged installed = Some AuthServiceHandler
      /\ onDataReceived installed = Some AuthServiceHandler
      /\ onError installed = Some AuthServiceHandler
      /\ ~ In (Some ChatServiceHandler) (slots installed)).
Proof.
  split; [|split].
  - intros H [a1 a2 a3 a4 a5 a6 a7 a8 a9 a10] [b1 b2 b3 b4 b5 b6 b7 b8 b9 b10]
           [c1 c2 c3 c4 c5 c6 c7 c8 c9 c10].
    unfold setEventHandlers, spread. simpl.
    destruct c1, c2, c3, c4, c5, c6, c7, c8, c9, c10; reflexivity.
  - intros H [a1 a2 a3 a4 a5 a6 a7 a8 a9 a10]. split.
    + reflexivity.
    + unfold setEventHandlers, spread. simpl.
      destruct a1, a2, a3, a4, a5, a6, a7, a8, a9, a10; reflexivity.
  - simpl. repeat split.
    intros H. repeat (destruct H as [H|H]; [discriminate|]). exact H.
Qed.

End LiveKitServiceIOFacts.

(** ** The chat service, continued *)

Module ChatServiceInvariants.
Import ChatService.
Import ChatServiceFacts.

(** *** The map, continued *)

Lemma Map_modify_keys k f m : map fst (Map_modify k f m) = map fst m.
Proof.
  induction m as [|[k' v'] m IH]; simpl; [reflexivity|].
  destruct (String.eqb k' k); simpl; [reflexivity | now rewrite IH].
Qed.

Lemma Map_modify_Forall (P : string * QueuedMessage -> Prop) k f m :
  (forall k' v, P (k', v) -> P (k', f v)) ->
  Forall P m -> Forall P (Map_modify k f m).
Proof.
  intros Hf. induction 1 as [|[k' v'] m Hp Hm IH]; simpl; [constructor|].
  destruct (String.eqb k' k); constructor; auto.
Qed.

Lemma Map_set_In_key k' k v m :
  In k' (map fst (Map_set k v m)) -> k' = k \/ In k' (map fst m).
Proof.
  induction m as [|[k0 v0] m IH]; simpl.
  - intros [<-|[]]. now left.
  - destruct (String.eqb_spec k0 k) as [->|Hne]; simpl.
    + intros [<-|H]; auto.
    + intros [<-|H]; auto. destruct (IH H); auto.
Qed.

Lemma Map_set_NoDup k v m : NoDup (map fst m) -> NoDup (map fst (Map_set k v m)).
Proof.
  induction m as [|[k0 v0] m IH]; simpl; intros Hnd.
  - repeat constructor. auto.
  - inversion Hnd as [|x xs Hx Hxs]; subst.
    destruct (String.eqb_spec k0 k) as [->|Hne]; simpl.
    + constructor; assumption.
    + constructor; [|now apply IH].
      intros Hin. apply Map_set_In_key in Hin. destruct Hin; [congruence | contradiction].
Qed.

Lemma Map_set_Forall (P : string * QueuedMessage -> Prop) k v m :
  P (k, v) -> Forall P m -> Forall P (Map_set k v m).
Proof.
  intros Hk. induction 1 as [|[k0 v0] m Hp Hm IH]; simpl; [repeat constructor; auto|].
  destruct (String.eqb k0 k); constructor; auto.
Qed.

Lemma Map_delete_incl k m p : In p (Map_delete k m) -> In p m.
Proof.
  induction m as [|[k0 v0] m IH]; simpl; [auto|].
  destruct (String.eqb k0 k); [now right|].
  intros [<-|H]; [now left | right; now apply IH].
Qed.

Lemma Map_delete_NoDup k m :
  NoDup (map fst m) ->
  NoDup (map fst (Map_delete k m)) /\ ~ In k (map fst (Map_delete k m)).
Proof.
  induction m as [|[k0 v0] m IH]; simpl; intros Hnd.
  - split; [constructor | auto].
  - inversion Hnd as [|x xs Hx Hxs]; subst.
    destruct (String.eqb_spec k0 k) as [->|Hne]; simpl.
    + split; assumption.
    + destruct (IH Hxs) as [IH1 IH2]. split.
      * constructor; [|exact IH1].
        intros Hin. apply Hx. apply in_map_iff in Hin.
        destruct Hin as (p & Hp & Hin). apply Map_delete_incl in Hin.
        apply in_map_iff. eauto.
      * intros [H|H]; [congruence | contradiction].
Qed.

Lemma Map_delete_Forall (P : string * QueuedMessage -> Prop) k m :
  Forall P m -> Forall P (Map_delete k m).
Proof.
  rewrite !Forall_forall. intros H p Hp. apply H. eapply Map_delete_incl; eauto.
Qed.

Lemma Map_get_absent k m : ~ In k (map fst m) -> Map_get k m = None.
Proof.
  induction m as [|[k0 v0] m IH]; simpl; [reflexivity|].
  intros Hn. destruct (String.eqb_spec k0 k) as [->|Hne].
  - exfalso. apply Hn. now left.
  - apply IH. intros H. apply Hn. now right.
Qed.

(** *** The invariant of the service *)

Lemma sound_init cfg : sound cfg init.
Proof.
  repeat split; simpl; try constructor. unfold bounded. simpl. lia.
Qed.

Section Steps.
Variable cfg : ChatConfig.

Lemma sound_modify k f s :
  (forall q, message (f q) = message q) ->
  sound cfg s -> sound cfg (with_messageQueue (Map_modify k f (messageQueue s)) s).
Proof.
  intros Hf ((Hnd & Hid) & Ht & Hty & Hb & Hh).
  split; [|split; [|split; [|split]]]; try assumption.
  split; simpl.
  - now rewrite Map_modify_keys.
  - apply Map_modify_Forall; [|exact Hid]. intros k' v. simpl. now rewrite Hf.
Qed.

Lemma sound_set k qm s :
  id (message qm) = k ->
  sound cfg s -> sound cfg (with_messageQueue (Map_set k qm (messageQueue s)) s).
Proof.
  intros Hk ((Hnd & Hid) & Ht & Hty & Hb & Hh).
  split; [|split; [|split; [|split]]]; try assumption.
  split; simpl.
  - now apply Map_set_NoDup.
  - now apply Map_set_Forall.
Qed.

Lemma sound_delete k s : sound cfg s -> sound cfg (deleteFromQueue k s).
Proof.
  intros ((Hnd & Hid) & Ht & Hty & Hb & Hh).
  split; [|split; [|split; [|split]]]; try assumption.
  split; simpl.
  - now apply Map_delete_NoDup.
  - now apply Map_delete_Forall.
Qed.

Lemma timers_ok_setTimeout a d s : timers_ok s -> timers_ok (fst (setTimeout a d s)).
Proof.
  intros (Hnd & Hlt). split; simpl.
  - rewrite map_app. simpl. apply NoDup_app; [exact Hnd | repeat constructor; auto |].
    intros h Hin [<-|[]]. apply in_map_iff in Hin. destruct Hin as (tm & Heq & Hin).
    rewrite Forall_forall in Hlt. specialize (Hlt tm Hin). lia.
  - apply Forall_app. split.
    + eapply Forall_impl; [|exact Hlt]. simpl. intros; lia.
    + repeat constructor; simpl; lia.
Qed.

Lemma sound_setTimeout a d s :
  a <> TypingAutoClear -> sound cfg s -> sound cfg (fst (setTimeout a d s)).
Proof.
  intros Ha (Hk & Ht & Hty & Hb & Hh).
  split; [|split; [|split; [|split]]]; try assumption.
  - now apply timers_ok_setTimeout.
  - unfold typing_ok. simpl. apply Forall_app. split; [exact Hty|].
    repeat constructor. simpl. intros; congruence.
Qed.

Lemma sound_clearTimeout h s : sound cfg s -> sound cfg (clearTimeout h s).
Proof.
  intros (Hk & (Hnd & Hlt) & Hty & Hb & Hh).
  assert (Hincl : forall tm, In tm (timers (clearTimeout h s)) -> In tm (timers s))
    by (intros tm Hin; simpl in Hin; apply filter_In in Hin; tauto).
  split; [|split; [|split; [|split]]]; try assumption.
  - split.
    + simpl. clear - Hnd. induction (timers s) as [|tm l IH]; simpl; [constructor|].
      simpl in Hnd. inversion Hnd as [|x xs Hx Hxs]; subst.
      destruct (negb (Nat.eqb (handle tm) h)); simpl; [|now apply IH].
      constructor; [|now apply IH].
      intros Hin. apply Hx. apply in_map_iff in Hin. destruct Hin as (t0 & Heq & Hin).
      apply filter_In in Hin. apply in_map_iff. exists t0. tauto.
    + rewrite Forall_forall in *. intros tm Hin. apply Hlt. now apply Hincl.
  - unfold typing_ok in *. rewrite Forall_forall in *. intros tm Hin.
    apply (Hty tm). now apply Hincl.
Qed.

Lemma sound_addToHistory m s : sound cfg s -> sound cfg (addToHistory cfg m s).
Proof.
  intros (Hk & Ht & Hty & Hb & Hh).
  split; [|split; [|split; [|split]]].
  - unfold addToHistory. destruct (existsb _ _); [exact Hk|].
    destruct (_ >? _); exact Hk.
  - unfold addToHistory. destruct (existsb _ _); [exact Ht|].
    destruct (_ >? _); exact Ht.
  - unfold addToHistory. destruct (existsb _ _); [exact Hty|].
    destruct (_ >? _); exact Hty.
  - unfold bounded in *. unfold addToHistory.
    destruct (existsb _ _); [exact Hb|].
    destruct (Z.gtb_spec (Z.of_nat (List.length (messageHistory s ++ [m])))
                         (MAX_HISTORY_SIZE cfg)) as [Hgt|Hle]; simpl.
    + rewrite length_skipn. rewrite length_app in *. simpl in *. lia.
    + lia.
  - now apply addToHistory_ok.
Qed.

Lemma sound_flags s :
  sound cfg s ->
  (forall b, sound cfg (with_isConnected b s))
  /\ (forall u, sound cfg (with_currentUserId u s))
  /\ (forall b, sound cfg (with_isTyping b s))
  /\ sound cfg (clearHistory s)
  /\ sound cfg (clearQueue s).
Proof.
  intros (Hk & Ht & Hty & Hb & Hh).
  split; [|split; [|split; [|split]]]; try intros x;
    (split; [|split; [|split; [|split]]]); try assumption.
  - unfold bounded. simpl. lia.
  - constructor.
  - split; constructor.
Qed.

(** Arming the auto-clear timer: the timer named by [typingTimer] is
    cancelled, a new one is set and named. *)
Lemma sound_arm d s :
  sound cfg s ->
  let s2 := match typingTimer s with Some h => clearTimeout h s | None => s end in
  let '(s3, h) := setTimeout TypingAutoClear d s2 in
  sound cfg (with_typingTimer (Some h) s3)
  /\ typing_timers (with_typingTimer (Some h) s3) = [mkTimer h d TypingAutoClear].
Proof.
  intros Hs. cbv zeta.
  assert (Hs2 : sound cfg (match typingTimer s with
                           | Some h => clearTimeout h s | None => s end)
                /\ typing_timers (match typingTimer s with
                                  | Some h => clearTimeout h s | None => s end) = []).
  { destruct (typingTimer s) as [h|] eqn:Eh.
    - split; [now apply sound_clearTimeout|].
      destruct Hs as (_ & _ & Hty & _). unfold typing_ok in Hty. rewrite Eh in Hty.
      unfold typing_timers. simpl.
      induction (timers s) as [|tm l IH]; [reflexivity|].
      inversion Hty as [|x xs Hx Hxs]; subst. simpl.
      destruct (Nat.eqb_spec (handle tm) h) as [E|E]; simpl; [now apply IH|].
      destruct (action tm) eqn:Ea; simpl; try now apply IH.
      exfalso. apply E. specialize (Hx eq_refl). congruence.
    - split; [exact Hs|].
      destruct Hs as (_ & _ & Hty & _). unfold typing_ok in Hty. rewrite Eh in Hty.
      unfold typing_timers.
      induction (timers s) as [|tm l IH]; [reflexivity|].
      inversion Hty as [|x xs Hx Hxs]; subst. simpl.
      destruct (action tm) eqn:Ea; simpl; try now apply IH.
      specialize (Hx eq_refl). discriminate. }
  destruct Hs2 as [(Hk & Ht & Hty & Hb & Hh) Hnone].
  set (s2 := match typingTimer s with Some h => clearTimeout h s | None => s end) in *.
  simpl. split.
  - split; [|split; [|split; [|split]]]; try assumption.
    + now apply (@timers_ok_setTimeout TypingAutoClear d s2).
    + unfold typing_ok. simpl. apply Forall_app. split; [|repeat constructor].
      rewrite Forall_forall. intros tm Hin Ha. exfalso.
      assert (In tm (typing_timers s2)).
      { unfold typing_timers. apply filter_In. split; [exact Hin|]. now rewrite Ha. }
      rewrite Hnone in H. contradiction.
  - unfold typing_timers in *. simpl. rewrite filter_app, Hnone. reflexivity.
Qed.

End Steps.

Section Preservation.
Variable env : Env.
Variable cfg : ChatConfig.

Lemma set_attempts_message a q : message (set_attempts a q) = message q.
Proof. reflexivity. Qed.

Lemma set_status_message st q : message (set_status st q) = message q.
Proof. reflexivity. Qed.

Ltac peel :=
  match goal with
  | |- sound ?c (fst (fst (?x, _, _))) => change (sound c x)
  | |- sound ?c (fst (?x, _)) => change (sound c x)
  end.

Lemma sendQueuedMessage_sound qm s w :
  sound cfg s -> sound cfg (fst (fst (sendQueuedMessage env cfg qm s w))).
Proof.
  intros Hs. unfold sendQueuedMessage.
  destruct (sendChatMessage env (message qm) _ w) as [w1 [error|]].
  - destruct (_ >=? _); peel;
      apply sound_setTimeout; try discriminate;
      apply sound_modify; try apply set_status_message;
      apply sound_modify; try apply set_attempts_message; exact Hs.
  - peel. unfold scheduleDeliveryTimeout.
    apply sound_setTimeout; [discriminate|].
    apply sound_addToHistory.
    apply sound_modify; [apply set_status_message|].
    apply sound_modify; [apply set_attempts_message | exact Hs].
Qed.

Lemma process_each_sound l s w :
  sound cfg s -> sound cfg (fst (process_each env cfg l s w)).
Proof.
  revert s w. induction l as [|qm l IH]; intros s w Hs; [exact Hs|].
  simpl. pose proof (sendQueuedMessage_sound qm w Hs) as H1.
  destruct (sendQueuedMessage env cfg qm s w) as [[s1 w1] r]. now apply IH.
Qed.

Lemma processMessageQueue_sound s w :
  sound cfg s -> sound cfg (fst (processMessageQueue env cfg s w)).
Proof.
  intros Hs. unfold processMessageQueue.
  destruct (negb (isConnected s)); [exact Hs | now apply process_each_sound].
Qed.

Lemma sendMessage_sound text opts s w :
  sound cfg s -> sound cfg (fst (fst (sendMessage env cfg text opts s w))).
Proof.
  intros Hs. unfold sendMessage, enqueue.
  match goal with |- context [processMessageQueue env cfg ?a ?b] =>
    assert (Ha : sound cfg a) by (apply sound_set; [reflexivity | exact Hs]);
    pose proof (processMessageQueue_sound b Ha) as Hp;
    destruct (processMessageQueue env cfg a b) as [s' w'] end.
  exact Hp.
Qed.

Lemma sendTypingIndicator_sound typing s w :
  sound cfg s -> sound cfg (fst (sendTypingIndicator env cfg typing s w)).
Proof.
  intros Hs. unfold sendTypingIndicator.
  destruct (Bool.eqb (isTyping s) typing); [exact Hs|].
  destruct (sound_flags Hs) as (_ & _ & Hty & _).
  destruct (send_wrapped env _ _ w) as [w1 [e|]]; [apply Hty|].
  destruct typing; [|apply Hty].
  pose proof (sound_arm (TYPING_INDICATOR_TIMEOUT cfg) (Hty true)) as Harm.
  cbv zeta in Harm.
  change (typingTimer (with_isTyping true s)) with (typingTimer s) in *.
  destruct (setTimeout TypingAutoClear _ _) as [s3 h]. peel. apply Harm.
Qed.

Lemma markDelivered_sound k s w :
  sound cfg s -> sound cfg (fst (markDelivered cfg k s w)).
Proof.
  intros Hs. unfold markDelivered.
  destruct (Map_get k (messageQueue s)) as [qm|]; [|exact Hs].
  destruct (status qm); try exact Hs. peel.
  apply sound_setTimeout; [discriminate|].
  apply sound_modify; [apply set_status_message | exact Hs].
Qed.

Lemma handleSystemMessage_sound v s w :
  sound cfg s -> sound cfg (fst (handleSystemMessage cfg v s w)).
Proof.
  intros Hs. unfold handleSystemMessage.
  destruct (JSON.get "type" v) as [[| | |ty| |]|]; try exact Hs.
  destruct (String.eqb ty "delivery_receipt").
  - unfold handleDeliveryReceipt.
    destruct (JSON.get "messageId" v) as [[| | |k| |]|]; try exact Hs.
    now apply markDelivered_sound.
  - destruct (String.eqb ty "typing_indicator"); [|exact Hs].
    unfold handleTypingIndicator. destruct (negb _); exact Hs.
Qed.

Lemma handleIncomingData_sound data s w :
  sound cfg s -> sound cfg (fst (handleIncomingData env cfg data s w)).
Proof.
  intros Hs. unfold handleIncomingData.
  destruct data as [parsed|]; [|exact Hs].
  assert (Hgen :
    sound cfg (fst (if JSON.truthy (JSON.get "type" parsed)
                    then handleSystemMessage cfg parsed s w
                    else if negb (isValidChatMessage parsed) then (s, w)
                    else
                      (addToHistory cfg (as_ChatMessage parsed) s,
                       emit (EMessageReceived (as_ChatMessage parsed))
                         (if negb (same_user (JSON.get "senderId" parsed) (currentUserId s))
                          then sendDeliveryReceipt env (id (as_ChatMessage parsed)) s w
                          else w))))).
  { destruct (JSON.truthy _); [now apply handleSystemMessage_sound|].
    destruct (negb (isValidChatMessage parsed)); [exact Hs|].
    peel. now apply sound_addToHistory. }
  destruct parsed; exact Hgen.
Qed.

Lemma onConnectionStateChanged_sound state s w :
  sound cfg s -> sound cfg (fst (onConnectionStateChanged env cfg state s w)).
Proof.
  intros Hs. unfold onConnectionStateChanged.
  destruct (sound_flags Hs) as (Hc & _).
  destruct (isConnected _ && negb (isConnected s)); [|apply Hc].
  match goal with |- context [processMessageQueue env cfg ?a ?b] =>
    pose proof (@processMessageQueue_sound a b (Hc _)) as Hp;
    destruct (processMessageQueue env cfg a b) as [s' w'] end.
  exact Hp.
Qed.

Lemma fireTimer_sound h s w :
  sound cfg s -> sound cfg (fst (fireTimer env cfg h s w)).
Proof.
  intros Hs. unfold fireTimer.
  destruct (find_timer h s) as [tm|]; [|exact Hs].
  pose proof (sound_clearTimeout h Hs) as Hc.
  destruct (action tm) as [k|k|k|].
  - destruct (Map_has k _); [|exact Hc]. now apply processMessageQueue_sound.
  - now apply sound_delete.
  - now apply markDelivered_sound.
  - now apply sendTypingIndicator_sound.
Qed.

Lemma cleanup_sound s : sound cfg s -> sound cfg (cleanup s).
Proof.
  intros Hs. unfold cleanup.
  assert (H1 : sound cfg (match typingTimer s with
                          | Some h => with_typingTimer None (clearTimeout h s)
                          | None => s end)).
  { destruct (typingTimer s) as [h|] eqn:Eh; [|exact Hs].
    pose proof (sound_clearTimeout h Hs) as (Hk & Ht & Hty & Hb & Hh).
    split; [|split; [|split; [|split]]]; try assumption.
    unfold typing_ok in *. simpl in *. rewrite Eh in Hty.
    rewrite Forall_forall in *. intros tm Hin Ha. exfalso.
    specialize (Hty tm Hin Ha). apply filter_In in Hin. destruct Hin as [_ Hin].
    injection Hty as ->. rewrite Nat.eqb_refl in Hin. discriminate. }
  destruct (sound_flags H1) as (_ & _ & _ & _ & Hq).
  destruct (sound_flags Hq) as (Hc & _).
  destruct (sound_flags (Hc false)) as (_ & Hu & _).
  destruct (sound_flags (Hu None)) as (_ & _ & Ht & _).
  apply Ht.
Qed.

Lemma run_op_sound o s w :
  sound cfg s -> sound cfg (fst (run_op env cfg o (s, w))).
Proof.
  intros Hs. destruct o as [u|txt opts|typing|state|data|h| | |]; simpl.
  - apply (sound_flags Hs).
  - pose proof (sendMessage_sound txt opts w Hs) as K.
    destruct (sendMessage env cfg txt opts s w) as [[s' w'] k]. exact K.
  - now apply sendTypingIndicator_sound.
  - now apply onConnectionStateChanged_sound.
  - now apply handleIncomingData_sound.
  - now apply fireTimer_sound.
  - apply (sound_flags Hs).
  - apply (sound_flags Hs).
  - now apply cleanup_sound.
Qed.

Lemma run_sound ops s w :
  sound cfg s -> sound cfg (fst (run env cfg ops (s, w))).
Proof.
  revert s w. induction ops as [|o ops IH]; intros s w H; [exact H|].
  change (run env cfg (o :: ops) (s, w))
    with (run env cfg ops (run_op env cfg o (s, w))).
  pose proof (run_op_sound o w H) as K.
  destruct (run_op env cfg o (s, w)) as [s1 w1]. now apply IH.
Qed.

End Preservation.

End ChatServiceInvariants.

(** ** What the chat service guarantees *)

Module ChatServiceMore.
Import ChatService.
Import ChatServiceFacts ChatServiceInvariants.

Lemma find_by_id_unique m h :
  NoDup (map id h) -> In m h ->
  find (fun msg => String.eqb (id msg) (id m)) h = Some m.
Proof.
  induction h as [|a h IH]; simpl; [contradiction|].
  intros Hnd Hin. inversion Hnd as [|x xs Hx Hxs]; subst.
  destruct (String.eqb_spec (id a) (id m)) as [E|E].
  - destruct Hin as [->|Hin]; [reflexivity|].
    exfalso. apply Hx. rewrite E. now apply in_map.
  - destruct Hin as [->|Hin]; [congruence | now apply IH].
Qed.

Lemma Map_get_unique k v m :
  NoDup (map fst m) -> In (k, v) m -> Map_get k m = Some v.
Proof.
  induction m as [|[k0 v0] m IH]; simpl; [contradiction|].
  intros Hnd Hin. inversion Hnd as [|x xs Hx Hxs]; subst.
  destruct (String.eqb_spec k0 k) as [E|E].
  - destruct Hin as [Hin|Hin]; [congruence|].
    exfalso. apply Hx. subst. now apply (in_map fst _ (k, v)).
  - destruct Hin as [Hin|Hin]; [congruence | now apply IH].
Qed.

(** X16: In every state the service can reach, the history holds no id
    twice and no more than [MAX_HISTORY_SIZE] messages, and
    [getMessageById] finds each of its messages by its id. *)
Theorem history_unique_and_bounded (env : Env) (cfg : ChatConfig) (ops : list Op) :
  let '(s, _) := run env cfg ops (init, world0) in
  NoDup (map id (messageHistory s))
  /\ Z.of_nat (List.length (messageHistory s)) <= Z.max 0 (MAX_HISTORY_SIZE cfg)
  /\ Forall (fun m => getMessageById (id m) s = Some m) (messageHistory s).
Proof.
  pose proof (@run_sound env cfg ops init world0 (sound_init cfg)) as H.
  destruct (run env cfg ops (init, world0)) as [s w].
  simpl in H. destruct H as (_ & _ & _ & Hb & Hh).
  split; [exact Hh|]. split; [exact Hb|].
  rewrite Forall_forall. intros m Hin. now apply find_by_id_unique.
Qed.

(** X17: In every state the service can reach, a message id has at most one
    queue entry, every entry sits under the id of its own message, and
    [getMessageStatus] reports the status of that entry. *)
Theorem queue_is_keyed_by_message_id (env : Env) (cfg : ChatConfig) (ops : list Op) :
  let '(s, _) := run env cfg ops (init, world0) in
  NoDup (map fst (messageQueue s))
  /\ Forall (fun p => id (message (snd p)) = fst p
                      /\ getMessageStatus (fst p) s = Some (status (snd p)))
            (messageQueue s).
Proof.
  pose proof (@run_sound env cfg ops init world0 (sound_init cfg)) as H.
  destruct (run env cfg ops (init, world0)) as [s w].
  simpl in H. destruct H as ((Hnd & Hid) & _).
  split; [exact Hnd|].
  rewrite Forall_forall in *. intros [k qm] Hin. split; [now apply Hid|].
  unfold getMessageStatus. simpl. now rewrite (@Map_get_unique k qm _ Hnd Hin).
Qed.

Lemma same_handle_once (l : list Timer) h :
  NoDup (map handle l) -> Forall (fun tm => handle tm = h) l -> (List.length l <= 1)%nat.
Proof.
  destruct l as [|a [|b l]]; simpl; intros Hnd Hall; try lia.
  exfalso. inversion Hnd as [|x xs Hx Hxs]; subst. apply Hx.
  inversion Hall as [|y ys Ha Hall']; subst. inversion Hall' as [|z zs Hb _]; subst.
  left. congruence.
Qed.

(** X18: Typing timers do not pile up: in every state the service can reach,
    timer handles are pairwise distinct and at most one auto-clear timer
    is pending, the one [typingTimer] names. *)
Theorem one_auto_clear_timer (env : Env) (cfg : ChatConfig) (ops : list Op) :
  let '(s, _) := run env cfg ops (init, world0) in
  NoDup (map handle (timers s))
  /\ (List.length (typing_timers s) <= 1)%nat
  /\ Forall (fun tm => typingTimer s = Some (handle tm)) (typing_timers s).
Proof.
  pose proof (@run_sound env cfg ops init world0 (sound_init cfg)) as H.
  destruct (run env cfg ops (init, world0)) as [s w].
  simpl in H. destruct H as (_ & (Hnd & _) & Hty & _).
  assert (Hall : Forall (fun tm => typingTimer s = Some (handle tm)) (typing_timers s)).
  { unfold typing_ok in Hty. rewrite Forall_forall in *. intros tm Hin.
    apply filter_In in Hin. destruct Hin as [Hin Ha]. apply Hty; [exact Hin|].
    destruct (action tm); try discriminate. reflexivity. }
  split; [exact Hnd|]. split; [|exact Hall].
  destruct (typingTimer s) as [h|] eqn:Eh.
  - apply (@same_handle_once _ h).
    + unfold typing_timers. clear - Hnd.
      induction (timers s) as [|tm l IH]; simpl; [constructor|].
      simpl in Hnd. inversion Hnd as [|x xs Hx Hxs]; subst.
      destruct (match action tm with TypingAutoClear => true | _ => false end); simpl;
        [|now apply IH].
      constructor; [|now apply IH].
      intros Hin. apply Hx. apply in_map_iff in Hin. destruct Hin as (t0 & Heq & Hin).
      apply filter_In in Hin. apply in_map_iff. exists t0. tauto.
    + eapply Forall_impl; [|exact Hall]. simpl. intros tm Ht. congruence.
  - destruct (typing_timers s) as [|tm l]; simpl; [lia|].
    inversion Hall; discriminate.
Qed.

Lemma find_app_last (f : ChatMessage -> bool) l m :
  Forall (fun x => f x = false) l -> f m = true -> find f (l ++ [m]) = Some m.
Proof.
  induction 1 as [|a l Ha Hl IH]; simpl; intros Hm.
  - now rewrite Hm.
  - rewrite Ha. now apply IH.
Qed.

Lemma last_id_snoc (l : list ChatMessage) m :
  match (l ++ [m])%list with
  | [] => None
  | a :: rest => Some (id (last rest a))
  end = Some (id m).
Proof.
  destruct l as [|a l]; simpl; [reflexivity|].
  f_equal. f_equal. apply last_last.
Qed.

(** X19: A message whose id is new goes to the end of the history; when the
    history is full the oldest message makes room for it.  From then on
    [getMessageById] finds it and [getChatState] reports its id as the
    last one. *)
Theorem new_message_is_appended (env : Env) (cfg : ChatConfig) (ops : list Op)
  (s : t) (w : World) (m : ChatMessage)
  (Hrun : run env cfg ops (init, world0) = (s, w))
  (Hmax : 1 <= MAX_HISTORY_SIZE cfg)
  (Hnew : ~ In (id m) (map id (messageHistory s))) :
  let s' := addToHistory cfg m s in
  messageHistory s'
  = ((if Z.of_nat (List.length (messageHistory s)) <? MAX_HISTORY_SIZE cfg
      then messageHistory s else tl (messageHistory s)) ++ [m])%list
  /\ getMessageById (id m) s' = Some m
  /\ lastMessageId (getChatState s') = Some (id m).
Proof.
  pose proof (@run_sound env cfg ops init world0 (sound_init cfg)) as H.
  rewrite Hrun in H. destruct H as (_ & _ & _ & Hb & Hh).
  unfold bounded in Hb. simpl in Hb. rewrite Z.max_r in Hb by lia.
  cbv zeta.
  assert (Hex : existsb (fun msg => String.eqb (id msg) (id m)) (messageHistory s) = false).
  { destruct (existsb _ _) eqn:E; [|reflexivity].
    apply existsb_id_In in E. contradiction. }
  assert (Hshape : messageHistory (addToHistory cfg m s)
                   = ((if Z.of_nat (List.length (messageHistory s)) <? MAX_HISTORY_SIZE cfg
                       then messageHistory s else tl (messageHistory s)) ++ [m])%list).
  { unfold addToHistory. rewrite Hex. rewrite length_app. simpl.
    destruct (Z.gtb_spec (Z.of_nat (List.length (messageHistory s) + 1))
                         (MAX_HISTORY_SIZE cfg)) as [Hgt|Hle]; simpl.
    - destruct (Z.ltb_spec (Z.of_nat (List.length (messageHistory s)))
                           (MAX_HISTORY_SIZE cfg)); [lia|].
      replace (Z.to_nat (Z.of_nat (List.length (messageHistory s) + 1)
                         - MAX_HISTORY_SIZE cfg)) with 1%nat by lia.
      destruct (messageHistory s) as [|a h]; [simpl in *; lia | reflexivity].
    - destruct (Z.ltb_spec (Z.of_nat (List.length (messageHistory s)))
                           (MAX_HISTORY_SIZE cfg)); [reflexivity | lia]. }
  split; [exact Hshape|].
  unfold getMessageById, getChatState. simpl. rewrite Hshape. split.
  - apply find_app_last; [|apply String.eqb_refl].
    rewrite Forall_forall. intros x Hin.
    apply String.eqb_neq. intros E. apply Hnew. rewrite <- E. apply in_map.
    destruct (_ <? _); [exact Hin|].
    destruct (messageHistory s); [contradiction | now right].
  - apply last_id_snoc.
Qed.

Lemma new_message_is_appended_witness :
  let m := as_ChatMessage hello in
  let s' := addToHistory cfg3 m init in
  messageHistory s'
  = ((if Z.of_nat (List.length (messageHistory init)) <? MAX_HISTORY_SIZE cfg3
      then messageHistory init else tl (messageHistory init)) ++ [m])%list
  /\ getMessageById (id m) s' = Some m
  /\ lastMessageId (getChatState s') = Some (id m).
Proof.
  cbv zeta.
  apply (@new_message_is_appended LiveKitService.env_ok cfg3 [] init world0
           (as_ChatMessage hello)).
  - reflexivity.
  - vm_compute. discriminate.
  - simpl. auto.
Defined.

(** *** Typing indicators *)

Lemma send_wrapped_extends env document s w :
  extends w (fst (send_wrapped env document s w))
    [ESendChatMessage
       {| id := uuidv4 env (S (tick w));
          senderId := user_or_unknown (currentUserId s);
          senderName := None;
          text := JSON.stringify (document (Date_now env (tick w)));
          ts := Date_now env (S (S (tick w))) |} None].
Proof.
  unfold send_wrapped, sendChatMessage. reflexivity.
Qed.

Lemma sendTypingIndicator_same env cfg typing s w :
  isTyping s = typing -> sendTypingIndicator env cfg typing s w = (s, w).
Proof.
  intros <-. unfold sendTypingIndicator. now rewrite Bool.eqb_reflx.
Qed.

Lemma sendTypingIndicator_isTyping env cfg typing s w :
  isTyping (fst (sendTypingIndicator env cfg typing s w)) = typing.
Proof.
  unfold sendTypingIndicator.
  destruct (Bool.eqb (isTyping s) typing) eqn:E; [now apply Bool.eqb_prop in E|].
  destruct (send_wrapped env _ (with_isTyping typing s) w) as [w1 [err|]];
    [reflexivity|].
  destruct typing; [|reflexivity].
  unfold setTimeout. cbn [fst].
  destruct (typingTimer (with_isTyping true s)); reflexivity.
Qed.

Lemma sendTypingIndicator_log env cfg typing s w :
  isTyping s <> typing ->
  extends w (snd (sendTypingIndicator env cfg typing s w))
    [ESendChatMessage
       {| id := uuidv4 env (S (tick w));
          senderId := user_or_unknown (currentUserId s);
          senderName := None;
          text := JSON.stringify
                    (TypingIndicator (user_or_unknown (currentUserId s)) typing
                                     (Date_now env (tick w)));
          ts := Date_now env (S (S (tick w))) |} None].
Proof.
  intros Hne. unfold sendTypingIndicator.
  destruct (Bool.eqb (isTyping s) typing) eqn:E;
    [apply Bool.eqb_prop in E; contradiction|].
  pose proof (send_wrapped_extends env
                (TypingIndicator (user_or_unknown (currentUserId (with_isTyping typing s)))
                                 typing) (with_isTyping typing s) w) as Hx.
  destruct (send_wrapped env _ (with_isTyping typing s) w) as [w1 [err|]];
    [exact Hx|].
  destruct typing; [|exact Hx].
  unfold setTimeout. cbn [snd]. exact Hx.
Qed.

(** X20: [sendTypingIndicator] is edge-triggered: a call that repeats the
    current typing state does nothing at all, so a second call with the
    same argument changes neither the service nor the log.  A call that
    changes the state records it and publishes one indicator, wrapped in
    a chat message, whether or not the transport accepts it. *)
Theorem sendTypingIndicator_edge_triggered (env : Env) (cfg : ChatConfig)
  (typing : bool) (s : t) (w : World) :
  let '(s1, w1) := sendTypingIndicator env cfg typing s w in
  sendTypingIndicator env cfg typing s1 w1 = (s1, w1)
  /\ isTyping s1 = typing
  /\ (if Bool.eqb (isTyping s) typing then (s1, w1) = (s, w)
      else exists m,
             extends w w1 [ESendChatMessage m None]
             /\ senderId m = user_or_unknown (currentUserId s)
             /\ text m = JSON.stringify
                           (TypingIndicator (user_or_unknown (currentUserId s)) typing
                                            (Date_now env (tick w)))).
Proof.
  pose proof (sendTypingIndicator_isTyping env cfg typing s w) as Hi.
  pose proof (@sendTypingIndicator_log env cfg typing s w) as Hl.
  pose proof (@sendTypingIndicator_same env cfg typing s w) as Hs.
  destruct (sendTypingIndicator env cfg typing s w) as [s1 w1].
  simpl fst in Hi. simpl snd in Hl.
  split; [now apply sendTypingIndicator_same|]. split; [exact Hi|].
  destruct (Bool.eqb (isTyping s) typing) eqn:E.
  - apply Bool.eqb_prop in E. now apply Hs.
  - eexists. split; [apply Hl|split; reflexivity].
    intros Heq. rewrite Heq, Bool.eqb_reflx in E. discriminate.
Qed.

(** *** Delivery confirmations *)

(** X21: A message is reported delivered once.  A delivery receipt for
    a message that is marked sent marks it delivered, notifies
    [onMessageDelivered] and schedules the removal of its queue entry; a
    receipt for a message that is unknown or in any other status, a
    second receipt for the same message among them, changes nothing. *)
Theorem delivery_is_reported_once (env : Env) (cfg : ChatConfig)
  (k : string) (now : Z) (s : t) (w : World) :
  let receipt := Parsed (DeliveryReceipt k now) in
  let '(s1, w1) := handleIncomingData env cfg receipt s w in
  handleIncomingData env cfg receipt s1 w1 = (s1, w1)
  /\ match getMessageStatus k s with
     | Some sent =>
         getMessageStatus k s1 = Some delivered
         /\ extends w w1 [EMessageDelivered k]
         /\ timers s1
            = (timers s ++ [mkTimer (nextHandle s) (DELIVERED_MESSAGE_CLEANUP_DELAY cfg)
                                    (DeleteFromQueue k)])%list
     | _ => (s1, w1) = (s, w)
     end.
Proof.
  cbv zeta.
  assert (Hh : forall s0 w0, handleIncomingData env cfg (Parsed (DeliveryReceipt k now)) s0 w0
                             = markDelivered cfg k s0 w0) by reflexivity.
  rewrite Hh. unfold getMessageStatus.
  destruct (markDelivered cfg k s w) as [s1 w1] eqn:Em. rewrite Hh.
  unfold markDelivered in Em.
  destruct (Map_get k (messageQueue s)) as [qm|] eqn:Eg; simpl.
  - destruct (status qm) eqn:Es; try (inversion Em; subst; split; [|reflexivity];
      unfold markDelivered; rewrite Eg, Es; reflexivity).
    inversion Em; subst; clear Em. split.
    + unfold markDelivered. simpl. rewrite Map_get_modify_same, Eg. reflexivity.
    + simpl. rewrite Map_get_modify_same, Eg. simpl. repeat split.
  - inversion Em; subst. split; [|reflexivity].
    unfold markDelivered. now rewrite Eg.
Qed.

(** *** Inbound payloads *)

Lemma missing_member_invalid k parsed :
  In k ["id"; "senderId"; "text"; "ts"] -> JSON.get k parsed = None ->
  isValidChatMessage parsed = false.
Proof.
  intros Hin Hget. unfold isValidChatMessage.
  destruct parsed; try reflexivity;
    simpl in Hin; destruct Hin as [<-|[<-|[<-|[<-|[]]]]]; rewrite Hget; simpl;
      rewrite ?Bool.andb_false_r; reflexivity.
Qed.

(** X22: A payload that cannot be a chat message is dropped without a
    trace: text that is no JSON, the document [null], and any document
    without a truthy [type] that lacks one of the members [id],
    [senderId], [text] and [ts] leave the service and the log as they
    were; nothing is stored, surfaced or acknowledged. *)
Theorem malformed_payloads_are_dropped (env : Env) (cfg : ChatConfig)
  (parsed : json) (k : string) (s : t) (w : World)
  (Hchat : JSON.truthy (JSON.get "type" parsed) = false)
  (Hk : In k ["id"; "senderId"; "text"; "ts"])
  (Hmissing : JSON.get k parsed = None) :
  handleIncomingData env cfg (Parsed parsed) s w = (s, w)
  /\ handleIncomingData env cfg Unparsable s w = (s, w)
  /\ handleIncomingData env cfg (Parsed JNull) s w = (s, w).
Proof.
  split; [|split; reflexivity].
  pose proof (@missing_member_invalid k parsed Hk Hmissing) as Hv.
  unfold handleIncomingData. rewrite Hchat, Hv. simpl. now destruct parsed.
Qed.

Lemma malformed_payloads_are_dropped_witness :
  let parsed := JObj [("id", JStr "m1"); ("senderId", JStr "bob"); ("ts", JNum 7)] in
  handleIncomingData LiveKitService.env_ok cfg3 (Parsed parsed) init world0
  = (init, world0)
  /\ handleIncomingData LiveKitService.env_ok cfg3 Unparsable init world0 = (init, world0)
  /\ handleIncomingData LiveKitService.env_ok cfg3 (Parsed JNull) init world0
     = (init, world0).
Proof.
  apply (@malformed_payloads_are_dropped LiveKitService.env_ok cfg3
           (JObj [("id", JStr "m1"); ("senderId", JStr "bob"); ("ts", JNum 7)])
           "text" init world0).
  - reflexivity.
  - simpl. auto.
  - reflexivity.
Defined.

Lemma markDelivered_quiet cfg k s w :
  let '(s', w') := markDelivered cfg k s w in
  messageHistory s' = messageHistory s
  /\ surfaced (trace w') = surfaced (trace w)
  /\ published (trace w') = published (trace w).
Proof.
  unfold markDelivered.
  destruct (Map_get k (messageQueue s)) as [qm|]; [|repeat split].
  destruct (status qm); try (repeat split).
  - simpl. rewrite surfaced_app. simpl. now rewrite app_nil_r.
  - simpl. rewrite published_app. simpl. now rewrite app_nil_r.
Qed.

(** X23: A document with a truthy [type] member is control traffic,
    whatever else it holds: it is never stored in the history, never
    surfaced through [onMessageReceived] and never answered with a
    receipt. *)
Theorem control_traffic_is_not_chat (env : Env) (cfg : ChatConfig)
  (parsed : json) (s : t) (w : World)
  (Htype : JSON.truthy (JSON.get "type" parsed) = true) :
  let '(s', w') := handleIncomingData env cfg (Parsed parsed) s w in
  messageHistory s' = messageHistory s
  /\ surfaced (trace w') = surfaced (trace w)
  /\ published (trace w') = published (trace w).
Proof.
  assert (Hh : handleIncomingData env cfg (Parsed parsed) s w
               = handleSystemMessage cfg parsed s w).
  { unfold handleIncomingData. rewrite Htype. now destruct parsed. }
  rewrite Hh. unfold handleSystemMessage.
  destruct (JSON.get "type" parsed) as [[| | |type| |]|]; try (repeat split).
  destruct (String.eqb type "delivery_receipt").
  - unfold handleDeliveryReceipt.
    destruct (JSON.get "messageId" parsed) as [[| | |k| |]|]; try (repeat split).
    apply markDelivered_quiet.
  - destruct (String.eqb type "typing_indicator"); [|repeat split].
    unfold handleTypingIndicator.
    destruct (negb _); repeat split.
    + simpl. rewrite surfaced_app. simpl. now rewrite app_nil_r.
    + simpl. rewrite published_app. simpl. now rewrite app_nil_r.
Qed.

Lemma control_traffic_is_not_chat_witness :
  let parsed := JObj [("type", JStr "typing_indicator"); ("id", JStr "m1");
                      ("senderId", JStr "bob"); ("text", JStr "hello");
                      ("ts", JNum 7)] in
  let '(s', w') := handleIncomingData LiveKitService.env_ok cfg3 (Parsed parsed)
                                      init world0 in
  messageHistory s' = messageHistory init
  /\ surfaced (trace w') = surfaced (trace world0)
  /\ published (trace w') = published (trace world0).
Proof.
  apply (@control_traffic_is_not_chat LiveKitService.env_ok cfg3
           (JObj [("type", JStr "typing_indicator"); ("id", JStr "m1");
                  ("senderId", JStr "bob"); ("text", JStr "hello");
                  ("ts", JNum 7)]) init world0).
  reflexivity.
Defined.

(** X24: A valid chat message is acknowledged exactly when its sender is
    not the local identity: one receipt naming the message id is
    published for a message of somebody else, none for an echo of the
    service's own message.  In both cases the message is surfaced. *)
Theorem receipts_go_to_other_senders (env : Env) (cfg : ChatConfig)
  (parsed : json) (s : t) (w : World)
  (Hchat : JSON.truthy (JSON.get "type" parsed) = false)
  (Hvalid : isValidChatMessage parsed = true) :
  let message := as_ChatMessage parsed in
  let '(_, w') := handleIncomingData env cfg (Parsed parsed) s w in
  surfaced (trace w') = (surfaced (trace w) ++ [message])%list
  /\ if same_user (JSON.get "senderId" parsed) (currentUserId s)
     then published (trace w') = published (trace w)
     else exists r,
            published (trace w') = (published (trace w) ++ [r])%list
            /\ senderId r = user_or_unknown (currentUserId s)
            /\ text r = JSON.stringify
                          (DeliveryReceipt (id message) (Date_now env (tick w))).
Proof.
  cbv zeta. rewrite (handleIncomingData_valid env cfg parsed s w Hchat Hvalid).
  destruct (same_user (JSON.get "senderId" parsed) (currentUserId s)); simpl negb; cbv iota.
  - simpl. rewrite surfaced_app, published_app. simpl. rewrite app_nil_r. split; reflexivity.
  - pose proof (send_wrapped_extends env (DeliveryReceipt (id (as_ChatMessage parsed))) s w)
      as Hx.
    unfold sendDeliveryReceipt.
    destruct (send_wrapped env _ s w) as [w1 r]. simpl fst in *. unfold extends in Hx.
    simpl trace. rewrite Hx. rewrite !surfaced_app, !published_app. simpl.
    rewrite !app_nil_r. split; [reflexivity|].
    eexists. split; [reflexivity|]. split; reflexivity.
Qed.

Lemma receipts_go_to_other_senders_witness :
  let s := with_currentUserId (Some "alice") init in
  let message := as_ChatMessage hello in
  let '(_, w') := handleIncomingData LiveKitService.env_ok cfg3 (Parsed hello) s world0 in
  surfaced (trace w') = (surfaced (trace world0) ++ [message])%list
  /\ if same_user (JSON.get "senderId" hello) (currentUserId s)
     then published (trace w') = published (trace world0)
     else exists r,
            published (trace w') = (published (trace world0) ++ [r])%list
            /\ senderId r = user_or_unknown (currentUserId s)
            /\ text r = JSON.stringify
                          (DeliveryReceipt (id message)
                                           (Date_now LiveKitService.env_ok (tick world0))).
Proof.
  apply (@receipts_go_to_other_senders LiveKitService.env_ok cfg3 hello
           (with_currentUserId (Some "alice") init) world0); reflexivity.
Defined.

(** *** Sending *)

(** X26: [sendMessage] does not look at the text it is given.  A text
    that [trim] leaves empty (white space only: spaces, tabs, line
    ends, U+00A0 and the other white space of ECMAScript) is queued like
    any other, as a message whose text is empty; the receiving side's
    validation rejects such a message, so every peer drops it without a
    trace. *)
Theorem blank_message_is_queued_and_dropped (env : Env) (cfg : ChatConfig)
  (text0 : string) (opts : SendMessageOptions) (s : t) (w : World)
  (Hblank : trim text0 = "") :
  let '(s1, _, k) := enqueue env text0 opts s w in
  exists qm,
    Map_get k (messageQueue s1) = Some qm
    /\ status qm = pending
    /\ text (message qm) = ""
    /\ forall env' s' w',
         handleIncomingData env' cfg (Parsed (JSON.of_ChatMessage (message qm))) s' w'
         = (s', w').
Proof.
  unfold enqueue. eexists. split; [apply Map_get_set_same|].
  split; [reflexivity|]. split; [exact Hblank|].
  intros env' s' w'. simpl. rewrite Hblank.
  unfold handleIncomingData. simpl.
  unfold isValidChatMessage. simpl. rewrite Bool.andb_false_r. reflexivity.
Qed.

Lemma blank_message_is_queued_and_dropped_witness :
  let '(s1, _, k) := enqueue LiveKitService.env_ok blank_text no_options init world0 in
  exists qm,
    Map_get k (messageQueue s1) = Some qm
    /\ status qm = pending
    /\ text (message qm) = ""
    /\ forall env' s' w',
         handleIncomingData env' cfg3 (Parsed (JSON.of_ChatMessage (message qm))) s' w'
         = (s', w').
Proof.
  apply (@blank_message_is_queued_and_dropped LiveKitService.env_ok cfg3 blank_text
           no_options init world0).
  reflexivity.
Defined.

(** X27: [getPendingMessageCount] is the number of delivery attempts the
    next pass of the queue processor makes when the service is
    connected; a pass of a disconnected service makes none. *)
Theorem pending_count_is_the_next_pass (env : Env) (cfg : ChatConfig)
  (s : t) (w : World) :
  let '(_, w') := processMessageQueue env cfg s w in
  List.length (delivery_attempts (trace w'))
  = (List.length (delivery_attempts (trace w))
     + (if isConnected s then getPendingMessageCount s else 0))%nat.
Proof.
  pose proof (processMessageQueue_effects env cfg s w) as H.
  destruct (processMessageQueue env cfg s w) as [s' w'].
  destruct H as (ext & Hext & Hatt & _).
  unfold extends in Hext. rewrite Hext, delivery_attempts_app, length_app, Hatt.
  f_equal. destruct (isConnected s); [|reflexivity].
  rewrite length_map. unfold pendingMessages, getPendingMessageCount.
  apply Permutation_length, sort_by_timestamp_perm.
Qed.

(** *** The life of a sent message *)

Lemma addToHistory_fields cfg m s :
  messageQueue (addToHistory cfg m s) = messageQueue s
  /\ timers (addToHistory cfg m s) = timers s
  /\ nextHandle (addToHistory cfg m s) = nextHandle s
  /\ isConnected (addToHistory cfg m s) = isConnected s.
Proof.
  unfold addToHistory.
  destruct (existsb _ _); [repeat split|].
  destruct (_ >? _); repeat split.
Qed.

Lemma sendQueuedMessage_accepted env cfg qm s w :
  publishData env (tick w) = None ->
  let k := id (message qm) in
  let '(s', w', _) := sendQueuedMessage env cfg qm s w in
  messageQueue s'
  = Map_modify k (set_status sent)
      (Map_modify k (set_attempts (attempts qm + 1)) (messageQueue s))
  /\ timers s'
     = (timers s ++ [mkTimer (nextHandle s) (DELIVERY_CONFIRMATION_TIMEOUT cfg)
                             (DeliveryTimeout k)])%list
  /\ nextHandle s' = S (nextHandle s)
  /\ exists race,
       trace w' = (trace w ++ [ESendChatMessage (message qm) (Some race);
                               EMessageSent (message qm)])%list.
Proof.
  intros Hp. cbv zeta. unfold sendQueuedMessage, sendChatMessage.
  change (tick (emit _ w)) with (tick w). rewrite Hp.
  unfold scheduleDeliveryTimeout, setTimeout. cbn [fst].
  match goal with |- context [addToHistory cfg ?m ?x] =>
    destruct (addToHistory_fields cfg m x) as (Hq & Ht & Hn & _);
    cbn [messageQueue timers nextHandle]; rewrite Hq, Ht, Hn
  end.
  repeat split. eexists. simpl. rewrite <- app_assoc. reflexivity.
Qed.

Lemma newest_timer l h d a (s : t) :
  timers s = (l ++ [mkTimer h d a])%list ->
  Forall (fun tm => (handle tm < h)%nat) l ->
  find_timer h s = Some (mkTimer h d a)
  /\ timers (clearTimeout h s) = l.
Proof.
  intros Ht Hl. unfold find_timer, clearTimeout. simpl. rewrite Ht. clear Ht.
  induction Hl as [|tm l Htm Hl [IH1 IH2]]; simpl.
  - rewrite Nat.eqb_refl. split; reflexivity.
  - destruct (Nat.eqb_spec (handle tm) h) as [E|E]; [lia|]. simpl.
    split; [exact IH1 | now rewrite IH2].
Qed.

Lemma markDelivered_sent cfg k qm s w :
  Map_get k (messageQueue s) = Some qm -> status qm = sent ->
  markDelivered cfg k s w
  = (fst (setTimeout (DeleteFromQueue k) (DELIVERED_MESSAGE_CLEANUP_DELAY cfg)
            (with_messageQueue
               (Map_modify k (set_status delivered) (messageQueue s)) s)),
     emit (EMessageDelivered k) w).
Proof. intros Hg Hs. unfold markDelivered. now rewrite Hg, Hs. Qed.

Lemma only_awaiting_entry k v m :
  filter awaiting (Map_values m) = [] -> awaiting v = true ->
  filter awaiting (Map_values (Map_set k v m)) = [v].
Proof.
  intros Hm Hv. induction m as [|[k' v'] m IH]; simpl in *.
  - now rewrite Hv.
  - destruct (awaiting v') eqn:E; [discriminate|].
    destruct (String.eqb k' k); simpl.
    + now rewrite Hv, Hm.
    + rewrite E. now apply IH.
Qed.

(** X28: The life of a message on a connected service whose queue holds
    nothing to send, when nothing else is asked of the service from the
    call of [sendMessage] until the two timers have run (no second
    [sendMessage] while the first is awaited, in particular):
    [sendMessage] hands it to the transport and, once the transport has
    taken it, reports it sent and marks the entry sent; when no receipt
    arrives the confirmation timeout marks it delivered and reports
    that; the cleanup timer then removes the queue entry, after which
    the service no longer knows a status for it. *)
Theorem sent_then_delivered_then_forgotten (env : Env) (cfg : ChatConfig)
  (ops : list Op) (text0 : string) (opts : SendMessageOptions) (s : t) (w : World)
  (Hrun : run env cfg ops (init, world0) = (s, w))
  (Hon : isConnected s = true)
  (Hidle : getPendingMessageCount s = 0%nat)
  (Haccept : publishData env (3 + tick w)%nat = None) :
  let h := nextHandle s in
  let '(s1, w1, k) := sendMessage env cfg text0 opts s w in
  let '(s2, w2) := fireTimer env cfg h s1 w1 in
  let '(s3, w3) := fireTimer env cfg (S h) s2 w2 in
  getMessageStatus k s1 = Some sent
  /\ getMessageStatus k s2 = Some delivered
  /\ getMessageStatus k s3 = None
  /\ exists m race,
       id m = k /\ text m = trim text0
       /\ trace w1 = (trace w ++ [ESendChatMessage m (Some race); EMessageSent m])%list
       /\ trace w2 = (trace w1 ++ [EMessageDelivered k])%list
       /\ trace w3 = trace w2.
Proof.
  pose proof (@run_sound env cfg ops init world0 (sound_init cfg)) as Hs.
  rewrite Hrun in Hs. simpl in Hs. destruct Hs as ((Hnd & _) & (_ & Hlt) & _).
  cbv zeta. unfold sendMessage, enqueue.
  set (k := uuidv4 env (tick w)).
  set (qm := {| message := _; status := pending |}).
  set (s0 := with_messageQueue (Map_set k qm (messageQueue s)) s).
  set (w0 := step (step (step w))).
  assert (Hk : id (message qm) = k) by reflexivity.
  unfold processMessageQueue.
  change (isConnected s0) with (isConnected s). rewrite Hon. cbn [negb].
  assert (Hpend : pendingMessages s0 = [qm]).
  { unfold pendingMessages, s0. cbn [messageQueue with_messageQueue].
    rewrite only_awaiting_entry; [reflexivity | | reflexivity].
    unfold getPendingMessageCount in Hidle. now apply length_zero_iff_nil. }
  rewrite Hpend. cbn [process_each].
  pose proof (@sendQueuedMessage_accepted env cfg qm s0 w0 Haccept) as Hsend.
  cbv zeta in Hsend. rewrite Hk in Hsend.
  destruct (sendQueuedMessage env cfg qm s0 w0) as [[s1 w1] r].
  destruct Hsend as (Hq1 & Ht1 & Hn1 & race & Hw1).
  change (messageQueue s0) with (Map_set k qm (messageQueue s)) in Hq1.
  change (timers s0) with (timers s) in Ht1.
  change (nextHandle s0) with (nextHandle s) in Hn1, Ht1.
  change (trace w0) with (trace w) in Hw1.
  assert (Hg1 : Map_get k (messageQueue s1)
                = Some (set_status sent (set_attempts (attempts qm + 1) qm))).
  { rewrite Hq1, !Map_get_modify_same, Map_get_set_same. reflexivity. }
  (* the confirmation timeout *)
  destruct (@newest_timer _ _ _ _ s1 Ht1 Hlt) as [Hf1 Hc1].
  unfold fireTimer at 1. rewrite Hf1. cbn [action].
  set (sc := clearTimeout (nextHandle s) s1) in *.
  assert (Hgc : Map_get k (messageQueue sc)
                = Some (set_status sent (set_attempts (attempts qm + 1) qm)))
    by exact Hg1.
  assert (Hnc : nextHandle sc = S (nextHandle s)) by exact Hn1.
  rewrite (@markDelivered_sent cfg k _ sc w1 Hgc eq_refl).
  set (s2 := fst (setTimeout _ _ _)).
  assert (Ht2 : timers s2
                = (timers s ++ [mkTimer (S (nextHandle s))
                                        (DELIVERED_MESSAGE_CLEANUP_DELAY cfg)
                                        (DeleteFromQueue k)])%list).
  { unfold s2, setTimeout. cbn [fst timers].
    change (timers (with_messageQueue _ sc)) with (timers sc).
    change (nextHandle (with_messageQueue _ sc)) with (nextHandle sc).
    now rewrite Hc1, Hnc. }
  assert (Hq2 : messageQueue s2 = Map_modify k (set_status delivered) (messageQueue s1))
    by reflexivity.
  assert (Hlt2 : Forall (fun tm => (handle tm < S (nextHandle s))%nat) (timers s)).
  { eapply Forall_impl; [|exact Hlt]. simpl. intros; lia. }
  destruct (@newest_timer _ _ _ _ s2 Ht2 Hlt2) as [Hf2 _].
  cbv beta iota.
  (* the cleanup timer *)
  unfold fireTimer. rewrite Hf2. cbn [action]. cbv beta iota.
  split; [unfold getMessageStatus; now rewrite Hg1|].
  split; [unfold getMessageStatus; now rewrite Hq2, Map_get_modify_same, Hg1|].
  split.
  { unfold getMessageStatus, deleteFromQueue.
    cbn [messageQueue with_messageQueue clearTimeout with_timers].
    rewrite Map_get_absent; [reflexivity|].
    apply Map_delete_NoDup. rewrite Hq2, Hq1, !Map_modify_keys.
    now apply Map_set_NoDup. }
  exists (message qm), race. repeat split. exact Hw1.
Qed.

Lemma sent_then_delivered_then_forgotten_witness :
  let env := LiveKitService.env_ok in
  let ops := [OpInitialize "alice"; OpConnectionState connected] in
  let s := fst (run env cfg3 ops (init, world0)) in
  let w := snd (run env cfg3 ops (init, world0)) in
  let h := nextHandle s in
  let '(s1, w1, k) := sendMessage env cfg3 "hi" no_options s w in
  let '(s2, w2) := fireTimer env cfg3 h s1 w1 in
  let '(s3, w3) := fireTimer env cfg3 (S h) s2 w2 in
  getMessageStatus k s1 = Some sent
  /\ getMessageStatus k s2 = Some delivered
  /\ getMessageStatus k s3 = None
  /\ exists m race,
       id m = k /\ text m = trim "hi"
       /\ trace w1 = (trace w ++ [ESendChatMessage m (Some race); EMessageSent m])%list
       /\ trace w2 = (trace w1 ++ [EMessageDelivered k])%list
       /\ trace w3 = trace w2.
Proof.
  cbv zeta.
  apply (@sent_then_delivered_then_forgotten LiveKitService.env_ok cfg3
           [OpInitialize "alice"; OpConnectionState connected] "hi" no_options
           (fst (run LiveKitService.env_ok cfg3
                     [OpInitialize "alice"; OpConnectionState connected] (init, world0)))
           (snd (run LiveKitService.env_ok cfg3
                     [OpInitialize "alice"; OpConnectionState connected] (init, world0)))).
  - reflexivity.
  - reflexivity.
  - reflexivity.
  - reflexivity.
Defined.

(** *** Shutting down *)

(** X29: [cleanup] empties the queue, forgets the identity and the
    connection, and keeps the history.  It cancels no timer but the
    typing timer; the retry, confirmation and removal timers it leaves
    pending find nothing to do when they run: whichever timer fires
    afterwards, nothing is sent or reported and the service stays as
    [cleanup] left it. *)
Theorem timers_after_cleanup_are_harmless (env : Env) (cfg : ChatConfig)
  (h : nat) (s : t) (w : World) :
  Forall (fun tm => In tm (timers (cleanup s)) \/ typingTimer s = Some (handle tm))
         (timers s)
  /\ let '(s', w') := fireTimer env cfg h (cleanup s) w in
     w' = w
     /\ messageQueue s' = []
     /\ messageHistory s' = messageHistory s
     /\ isConnected s' = false
     /\ isTyping s' = false
     /\ currentUserId s' = None.
Proof.
  split.
  { rewrite Forall_forall. intros tm Hin. unfold cleanup.
    destruct (typingTimer s) as [t0|]; [|now left].
    destruct (Nat.eqb_spec (handle tm) t0) as [E|E]; [right; now subst|].
    left. cbn [timers with_isTyping with_currentUserId with_isConnected
               with_messageQueue with_typingTimer clearTimeout with_timers].
    apply filter_In. split; [exact Hin|].
    apply Bool.negb_true_iff. now apply Nat.eqb_neq. }
  assert (Hc : messageQueue (cleanup s) = [] /\ messageHistory (cleanup s) = messageHistory s
               /\ isConnected (cleanup s) = false /\ isTyping (cleanup s) = false
               /\ currentUserId (cleanup s) = None).
  { unfold cleanup. destruct (typingTimer s); repeat split. }
  destruct Hc as (Hq & Hh & Hco & Hty & Hu).
  unfold fireTimer. destruct (find_timer h (cleanup s)) as [tm|]; [|repeat split; assumption].
  destruct (action tm) as [k|k|k|].
  - unfold Map_has. cbn [messageQueue clearTimeout with_timers]. rewrite Hq. simpl Map_get.
    cbv iota. repeat split; assumption.
  - unfold deleteFromQueue. cbn [messageQueue clearTimeout with_timers with_messageQueue].
    rewrite Hq. repeat split; assumption.
  - unfold markDelivered. cbn [messageQueue clearTimeout with_timers]. rewrite Hq.
    simpl Map_get. cbv iota. repeat split; assumption.
  - rewrite sendTypingIndicator_same by exact Hty. repeat split; assumption.
Qed.

(** *** Following the connection service *)

Lemma sendQueuedMessage_isConnected env cfg qm s w :
  isConnected (fst (fst (sendQueuedMessage env cfg qm s w))) = isConnected s.
Proof.
  unfold sendQueuedMessage.
  destruct (sendChatMessage env (message qm) _ w) as [w1 [err|]].
  - destruct (_ >=? _); reflexivity.
  - unfold scheduleDeliveryTimeout, setTimeout. cbn [fst isConnected].
    now rewrite (proj2 (proj2 (proj2 (addToHistory_fields cfg _ _)))).
Qed.

Lemma process_each_isConnected env cfg l s w :
  isConnected (fst (process_each env cfg l s w)) = isConnected s.
Proof.
  revert s w. induction l as [|qm l IH]; intros s w; [reflexivity|].
  simpl. pose proof (sendQueuedMessage_isConnected env cfg qm s w) as H.
  destruct (sendQueuedMessage env cfg qm s w) as [[s1 w1] r]. simpl in H.
  now rewrite IH.
Qed.

Lemma onConnectionStateChanged_isConnected env cfg state s w :
  isConnected (fst (onConnectionStateChanged env cfg state s w))
  = ConnectionState_eqb state connected.
Proof.
  unfold onConnectionStateChanged.
  destruct (isConnected (with_isConnected _ s) && negb (isConnected s)); [|reflexivity].
  unfold processMessageQueue. destruct (negb _); [reflexivity|].
  pose proof (process_each_isConnected env cfg
                (pendingMessages (with_isConnected (ConnectionState_eqb state connected) s))
                (with_isConnected (ConnectionState_eqb state connected) s) w) as H.
  destruct (process_each env cfg _ _ w) as [s2 w2]. exact H.
Qed.

Lemma last_cons_default (a c : ConnectionState) l : last (a :: l) c = last l a.
Proof.
  revert a c. induction l as [|b l IH]; intros a c; [reflexivity|].
  change (last (a :: b :: l) c) with (last (b :: l) c). rewrite IH.
  symmetry. apply IH.
Qed.

Lemma notify_all_last env cfg states c s w :
  isConnected s = ConnectionState_eqb c connected ->
  isConnected (fst (notify_all env cfg states (s, w)))
  = ConnectionState_eqb (last states c) connected.
Proof.
  revert c s w. induction states as [|a l IH]; intros c s w H; [exact H|].
  unfold notify_all. simpl fold_left.
  pose proof (onConnectionStateChanged_isConnected env cfg a s w) as Ha.
  destruct (onConnectionStateChanged env cfg a s w) as [s1 w1]. simpl in Ha.
  fold (notify_all env cfg l (s1, w1)).
  rewrite (IH a s1 w1 Ha). now rewrite last_cons_default.
Qed.

End ChatServiceMore.

(** ** The chat service and the connection service together *)

Module ConnectionTracking.
Import LiveKitService.
Import LiveKitServiceFacts.

Lemma tracks_silent c tr ext :
  tracks c tr -> notifications ext = [] -> tracks c (tr ++ ext).
Proof.
  unfold tracks. intros H He. now rewrite notifications_app, He, app_nil_r.
Qed.

Lemma tracks_extends c w w' ext :
  tracks c (trace w) -> extends w w' ext -> notifications ext = [] ->
  tracks c (trace w').
Proof. intros H He Hn. rewrite He. now apply tracks_silent. Qed.

Lemma updateConnectionState_tracks c s w :
  tracks (connectionState s) (trace w) ->
  let '(s', w') := updateConnectionState c s w in
  tracks (connectionState s') (trace w').
Proof.
  intros H. unfold updateConnectionState.
  destruct (ConnectionState_eqb (connectionState s) c) eqn:E; [exact H|].
  unfold tracks. simpl. rewrite notifications_app. simpl. now rewrite last_last.
Qed.

Lemma updateAudioState_tracks a s w :
  tracks (connectionState s) (trace w) ->
  let '(s', w') := updateAudioState a s w in
  tracks (connectionState s') (trace w').
Proof.
  intros H. pose proof (updateAudioState_spec a s w) as Ha.
  destruct (updateAudioState a s w) as [s' w'].
  destruct Ha as (Hc & _ & ext & Hext & Hn). rewrite Hc.
  eapply tracks_extends; eauto.
Qed.

Lemma onRoomEvent_tracks ev s w :
  tracks (connectionState s) (trace w) ->
  let '(s', w') := onRoomEvent ev s w in tracks (connectionState s') (trace w').
Proof.
  intros Hc. destruct ev; simpl.
  - now apply updateConnectionState_tracks.
  - now apply updateConnectionState_tracks.
  - now apply updateConnectionState_tracks.
  - pose proof (@updateConnectionState_tracks connected s w Hc) as H.
    destruct (updateConnectionState connected s w) as [s' w']. exact H.
Qed.

Section WithEnv.
Variable env : Env.

Lemma connect_tracks u rn tk s w :
  tracks (connectionState s) (trace w) ->
  let '(_, s', w', _) := connect env u rn tk s w in
  tracks (connectionState s') (trace w').
Proof.
  intros Hc. unfold connect.
  destruct (TokenService.getValidToken env u None tk w) as [[tk1 w1] [tok|e]] eqn:E;
    apply TokenServiceFacts.getValidToken_effects in E;
    destruct E as (ext & Hext & Hall);
    apply token_effects_silent in Hall; destruct Hall as [Hn _];
    pose proof (tracks_extends Hc Hext Hn) as Hc1.
  2:{ pose proof (@updateConnectionState_tracks failed s w1 Hc1) as H.
      destruct (updateConnectionState failed s w1) as [s' w']. exact H. }
  assert (Hroom : exists s1 w2,
             match room s with
             | Some _ => (s, w1)
             | None => (with_room (Some RoomHandle) s, emit ENewRoom w1)
             end = (s1, w2)
             /\ tracks (connectionState s1) (trace w2)).
  { destruct (room s); do 2 eexists; split; try reflexivity; auto.
    simpl. apply tracks_silent; auto. }
  destruct Hroom as (s1 & w2 & -> & Hc2).
  pose proof (@updateConnectionState_tracks connecting s1 w2 Hc2) as Hc3.
  destruct (updateConnectionState connecting s1 w2) as [s2 w3].
  assert (Hc4 : tracks (connectionState s2) (trace (step (emit (ERoomConnect tok) w3)))).
  { simpl. apply tracks_silent; auto. }
  destruct (room_connect env (tick (emit (ERoomConnect tok) w3))) as [error|].
  - pose proof (@updateConnectionState_tracks failed s2 _ Hc4) as H.
    destruct (updateConnectionState failed s2 _) as [s' w']. exact H.
  - pose proof (@updateConnectionState_tracks connected s2 _ Hc4) as H.
    destruct (updateConnectionState connected s2 _) as [s' w']. exact H.
Qed.

Lemma disconnect_tracks tk s w :
  tracks (connectionState s) (trace w) ->
  let '(_, s', w', _) := disconnect env tk s w in
  tracks (connectionState s') (trace w').
Proof.
  intros Hc. unfold disconnect.
  destruct (stopAudioLevelMonitoring_spec s) as [Hcs Hrs].
  set (s1 := stopAudioLevelMonitoring s) in *.
  assert (Hfin : forall tk0 s0 w0,
             tracks (connectionState s0) (trace w0) ->
             let '(_, s', w', _) :=
               (let tk1 := TokenService.clearToken tk0 in
                let '(s2, w1) := updateConnectionState disconnected s0 w0 in
                let '(s3, w2) :=
                  updateAudioState {| isMuted := true; isPublishing := false;
                                      hasPermission := false; audioLevel := 0 |} s2 w1 in
                (tk1, s3, w2, @Ok unit tt)) in
             tracks (connectionState s') (trace w')).
  { intros tk0 s0 w0 Hc0. cbv zeta.
    pose proof (@updateConnectionState_tracks disconnected s0 w0 Hc0) as H.
    destruct (updateConnectionState disconnected s0 w0) as [s2 w1].
    match goal with |- context [updateAudioState ?a s2 w1] =>
      pose proof (@updateAudioState_tracks a s2 w1 H) as Ha;
      destruct (updateAudioState a s2 w1) as [s3 w2] end.
    exact Ha. }
  destruct (room s1).
  - destruct (room_disconnect env (tick (emit ERoomDisconnect w))).
    + rewrite Hcs. simpl. apply tracks_silent; auto.
    + apply Hfin. simpl. rewrite Hcs. apply tracks_silent; auto.
  - apply Hfin. rewrite Hcs. exact Hc.
Qed.

Lemma perform_tracks o tk s w :
  tracks (connectionState s) (trace w) ->
  let '(_, s', w') := perform env o (tk, s, w) in
  tracks (connectionState s') (trace w').
Proof.
  intros Hc. destruct o as [u rn| |ev]; simpl.
  - pose proof (@connect_tracks u rn tk s w Hc) as H.
    destruct (connect env u rn tk s w) as [[[tk' s'] w'] r]. exact H.
  - pose proof (@disconnect_tracks tk s w Hc) as H.
    destruct (disconnect env tk s w) as [[[tk' s'] w'] r]. exact H.
  - pose proof (@onRoomEvent_tracks ev s w Hc) as H.
    destruct (onRoomEvent ev s w) as [s' w']. exact H.
Qed.

Lemma perform_all_tracks calls tk s w :
  tracks (connectionState s) (trace w) ->
  let '(_, s', w') := perform_all env calls (tk, s, w) in
  tracks (connectionState s') (trace w').
Proof.
  revert tk s w. induction calls as [|o calls IH]; intros tk s w Hc.
  - exact Hc.
  - change (perform_all env (o :: calls) (tk, s, w))
      with (perform_all env calls (perform env o (tk, s, w))).
    pose proof (@perform_tracks o tk s w Hc) as H.
    destruct (perform env o (tk, s, w)) as [[tk1 s1] w1].
    apply (IH tk1 s1 w1 H).
Qed.

End WithEnv.

(** X30: As long as the handler of [setupLiveKitIntegration] is the one
    the connection service notifies, the chat service's [isConnected]
    follows the connection state: after any sequence of connects,
    disconnects and room events, under any behaviour of the network,
    feeding the handler the notifications the connection service issued
    leaves [isConnected] true exactly when the connection state is
    [connected]. *)
Theorem chat_follows_the_connection (env env' : Env) (cfg : ChatConfig)
  (calls : list Call) (tk : TokenService.t) (w0 : World) :
  let '(_, lk, w) := perform_all env calls (tk, init, world0) in
  let '(chat, _) := ChatService.notify_all env' cfg (notifications (trace w))
                                           (ChatService.init, w0) in
  ChatService.isConnected chat = ConnectionState_eqb (connectionState lk) connected.
Proof.
  assert (Hc : tracks (connectionState init) (trace world0)) by reflexivity.
  pose proof (@perform_all_tracks env calls tk init world0 Hc) as H.
  destruct (perform_all env calls (tk, init, world0)) as [[tk' lk] w].
  pose proof (@ChatServiceMore.notify_all_last env' cfg (notifications (trace w))
                disconnected ChatService.init w0 eq_refl) as Hn.
  destruct (ChatService.notify_all env' cfg _ (ChatService.init, w0)) as [chat w'].
  simpl fst in Hn. unfold tracks in H. now rewrite H in Hn.
Qed.

End ConnectionTracking.
